(** * Knowledge base and report assembly of the cybersecurity report generator

    A shallow embedding of [cyber/app3.py]: the SQLite-backed knowledge base
    (upsert, cached read, usage counters, similarity search, JSON import and
    export) and the parts of the Word report assembly that decide its
    content (findings master table, finding detail pages, output file name).

    Conventions.
    - Python [str] values are [string]s; one [ascii] stands for one code
      point below 256, and [lower], [isspace] follow Python on that range.
    - Python [float] is IEEE binary64, i.e. Rocq's primitive [float].
    - SQLite integers are unbounded integers here; the counters stay far
      from the 64-bit limit.  Rows that tie in an ORDER BY come out in
      rowid order.
    - The database, the Streamlit cache, the clock and the storage faults
      live in a [world] that every operation threads explicitly. *)

From Stdlib Require Import ZArith Bool Ascii String Floats Sorted Permutation.
From stdpp Require Import gmap strings list.

Set Warnings "-inexact-float".

Local Open Scope string_scope.
Local Open Scope list_scope.
Local Open Scope Z_scope.

(** ** Python string primitives *)

Module Py.

Definition ord (c : ascii) : nat := nat_of_ascii c.

Definition between (lo hi n : nat) : bool := (lo <=? n)%nat && (n <=? hi)%nat.

(** [str.lower] on one code point: A-Z and the Latin-1 capitals. *)
Definition lower_char (c : ascii) : ascii :=
  let n := ord c in
  if between 65 90 n || (between 192 222 n && negb (n =? 215)%nat)
  then ascii_of_nat (n + 32) else c.

Fixpoint lower (s : string) : string :=
  match s with
  | EmptyString => EmptyString
  | String c s' => String (lower_char c) (lower s')
  end.

(** [str.isspace] on one code point. *)
Definition isspace (c : ascii) : bool :=
  let n := ord c in
  between 9 13 n || between 28 32 n || (n =? 133)%nat || (n =? 160)%nat.

(** [len(s)] *)
Definition len (s : string) : Z := Z.of_nat (String.length s).

(** truth value of a string: [if s:] *)
Definition nonempty (s : string) : bool :=
  match s with EmptyString => false | String _ _ => true end.

(** [needle in hay] *)
Fixpoint contains (needle hay : string) : bool :=
  String.prefix needle hay ||
  match hay with
  | EmptyString => false
  | String _ hay' => contains needle hay'
  end.

(** [s.split()]: maximal runs of non-whitespace, left to right. *)
Fixpoint split_from (s tok : string) : list string :=
  match s with
  | EmptyString => if nonempty tok then [tok] else []
  | String c s' =>
      if isspace c
      then (if nonempty tok then tok :: split_from s' EmptyString
            else split_from s' EmptyString)
      else split_from s' (tok +:+ String c EmptyString)
  end.

Definition split (s : string) : list string := split_from s EmptyString.

Fixpoint lstrip (s : string) : string :=
  match s with
  | EmptyString => EmptyString
  | String c s' => if isspace c then lstrip s' else s
  end.

Fixpoint rstrip (s : string) : string :=
  match s with
  | EmptyString => EmptyString
  | String c s' =>
      let r := rstrip s' in
      if isspace c && negb (nonempty r) then EmptyString else String c r
  end.

(** [s.strip()] *)
Definition strip (s : string) : string := rstrip (lstrip s).

(** [s.replace(a, b)] for single characters. *)
Fixpoint replace_char (a b : ascii) (s : string) : string :=
  match s with
  | EmptyString => EmptyString
  | String c s' =>
      String (if Ascii.eqb c a then b else c) (replace_char a b s')
  end.

Fixpoint filter_chars (keep : ascii -> bool) (s : string) : string :=
  match s with
  | EmptyString => EmptyString
  | String c s' =>
      if keep c then String c (filter_chars keep s') else filter_chars keep s'
  end.

End Py.

(** ** Python values, dictionaries and floats *)

(** Values as [json.loads] produces them.  [num] stands for Python's [int]
    and [float] results; an object keeps its members in insertion order. *)
#[warnings="-register-all"]
Inductive json {num : Type} : Type :=
| JNull
| JBool (b : bool)
| JNum (n : num)
| JStr (s : string)
| JArr (items : list json)
| JObj (members : list (string * json)).
Arguments json : clear implicits.

(** The two library modules the program calls and this development does not
    re-implement: [json] and [difflib]. *)
Class JsonLib := {
  num : Type;
  (** [bool(n)] *)
  num_truthy : num -> bool;
  (** the text SQLite stores when [n] is bound to a TEXT column; [None] when
      the binding raises (an [int] beyond 64 bits) *)
  num_bind : num -> option string;
  (** [n] is bound as NULL, not as a number: the [float] NaN *)
  num_null : num -> bool;
  (** [json.loads]; [None] stands for [JSONDecodeError] *)
  json_loads : string -> option (json num);
  (** [json.dumps(_, indent=2)] *)
  json_dumps : json num -> string
}.

Class Difflib := {
  (** [SequenceMatcher(None, a, b).ratio()] *)
  ratio : string -> string -> float
}.

(** A Python [dict] with string keys: an association list in insertion
    order, every key at most once. *)
Module Dict.
Section Ops.
Context {V : Type}.

Fixpoint get (k : string) (d : list (string * V)) : option V :=
  match d with
  | [] => None
  | (k', v) :: d' => if String.eqb k k' then Some v else get k d'
  end.

Definition mem (k : string) (d : list (string * V)) : bool :=
  match get k d with Some _ => true | None => false end.

(** [d[k] = v]: overwrite in place, or append a new key. *)
Fixpoint set (k : string) (v : V) (d : list (string * V)) : list (string * V) :=
  match d with
  | [] => [(k, v)]
  | (k', v') :: d' =>
      if String.eqb k k' then (k', v) :: d' else (k', v') :: set k v d'
  end.

Definition keys (d : list (string * V)) : list string := map fst d.
End Ops.
End Dict.

Definition Z2float (z : Z) : float :=
  SF2Prim (binary_normalize prec emax z 0 false).

(** [max(a, b)] and [min(a, b)] keep the first argument unless the second
    one is strictly better. *)
Definition py_max (a b : float) : float := if PrimFloat.ltb a b then b else a.
Definition py_min (a b : float) : float := if PrimFloat.ltb b a then b else a.

(** [l[:n]] *)
Definition py_take {A} (n : Z) (l : list A) : list A :=
  if 0 <=? n then take (Z.to_nat n) l
  else take (Z.to_nat (Z.of_nat (length l) + n)) l.

(** [l.sort(key=key, reverse=True)]: stable, larger keys first, equal keys
    in their original order. *)
Section SortDesc.
Context {A K : Type} (lt : K -> K -> bool) (key : A -> K).

Fixpoint insert_desc (x : A) (l : list A) : list A :=
  match l with
  | [] => [x]
  | y :: l' => if lt (key x) (key y) then y :: insert_desc x l' else x :: l
  end.

Fixpoint sort_desc (l : list A) : list A :=
  match l with
  | [] => []
  | x :: l' => insert_desc x (sort_desc l')
  end.
End SortDesc.

(** ** The [knowledge_base] table *)

Record kb_row := {
  issue_name : string;
  implication : string;
  mitigation : string;
  created_at : Z;
  updated_at : Z;
  usage_count : Z
}.

(** The table, rows in rowid order. *)
Definition kb_table := list kb_row.

Definition has_issue (name : string) (r : kb_row) : bool :=
  String.eqb (issue_name r) name.

(** INSERT ... ON CONFLICT(issue_name) DO UPDATE SET implication, mitigation,
    updated_at = CURRENT_TIMESTAMP *)
Definition sql_upsert (now : Z) (name impl mitg : string) (t : kb_table) : kb_table :=
  if existsb (has_issue name) t
  then map (fun r =>
              if has_issue name r
              then {| issue_name := issue_name r; implication := impl;
                      mitigation := mitg; created_at := created_at r;
                      updated_at := now; usage_count := usage_count r |}
              else r) t
  else t ++ [{| issue_name := name; implication := impl; mitigation := mitg;
                created_at := now; updated_at := now; usage_count := 0 |}].

(** UPDATE knowledge_base SET usage_count = usage_count + 1 WHERE issue_name = ? *)
Definition sql_increment (name : string) (t : kb_table) : kb_table :=
  map (fun r =>
         if has_issue name r
         then {| issue_name := issue_name r; implication := implication r;
                 mitigation := mitigation r; created_at := created_at r;
                 updated_at := updated_at r; usage_count := usage_count r + 1 |}
         else r) t.

(** SELECT ... ORDER BY usage_count DESC *)
Definition select_by_usage (t : kb_table) : kb_table :=
  sort_desc Z.ltb usage_count t.

(** The mapping [load_kb_from_db] returns:
    issue_name -> {'implication': .., 'mitigation': ..}. *)
Definition kb_dict := list (string * (string * string)).

Definition kb_of_rows (rows : kb_table) : kb_dict :=
  fold_left (fun kb row => Dict.set (issue_name row) (implication row, mitigation row) kb)
            rows [].

(** ** The world: database file, Streamlit cache, clock, storage faults *)

(** What the storage layer does to one transaction. *)
Inductive storage := Healthy | ConnectFails | ExecuteFails.

Inductive exn := OperationalError | JSONDecodeError | AttributeError.

(** Messages shown with [st.error]. *)
Inductive alert := DatabaseError | ImportError.

Record world := {
  db : kb_table;
  (** entry of [st.cache_data] for [load_kb_from_db]: time stored, value *)
  cache : option (Z * kb_dict);
  (** seconds *)
  clock : Z;
  (** fate of the coming transactions, in order; healthy once exhausted *)
  faults : list storage;
  alerts : list alert;
  (** history: the argument of every [increment_kb_usage] call so far *)
  credited : list string
}.

Definition with_db (t : kb_table) (w : world) : world :=
  {| db := t; cache := cache w; clock := clock w; faults := faults w;
     alerts := alerts w; credited := credited w |}.
Definition with_cache (c : option (Z * kb_dict)) (w : world) : world :=
  {| db := db w; cache := c; clock := clock w; faults := faults w;
     alerts := alerts w; credited := credited w |}.
Definition with_faults (fs : list storage) (w : world) : world :=
  {| db := db w; cache := cache w; clock := clock w; faults := fs;
     alerts := alerts w; credited := credited w |}.
Definition with_alert (a : alert) (w : world) : world :=
  {| db := db w; cache := cache w; clock := clock w; faults := faults w;
     alerts := alerts w ++ [a]; credited := credited w |}.
Definition with_credit (name : string) (w : world) : world :=
  {| db := db w; cache := cache w; clock := clock w; faults := faults w;
     alerts := alerts w; credited := credited w ++ [name] |}.
Definition with_clock (t : Z) (w : world) : world :=
  {| db := db w; cache := cache w; clock := t; faults := faults w;
     alerts := alerts w; credited := credited w |}.

(** A call either returns or raises; the world goes on in both cases. *)
Inductive outcome (A : Type) : Type :=
| Done (a : A) (w : world)
| Raised (e : exn) (w : world).
Arguments Done {A} a w.
Arguments Raised {A} e w.

Definition M (A : Type) : Type := world -> outcome A.

Definition ret {A} (a : A) : M A := fun w => Done a w.

Definition bind {A B} (c : M A) (k : A -> M B) : M B :=
  fun w => match c w with
           | Done a w' => k a w'
           | Raised e w' => Raised e w'
           end.

Definition raise {A} (e : exn) : M A := fun w => Raised e w.

(** [try: c  except Exception: handler] *)
Definition try_except {A} (c : M A) (handler : exn -> M A) : M A :=
  fun w => match c w with
           | Done a w' => Done a w'
           | Raised e w' => handler e w'
           end.

Definition update (f : world -> world) : M unit := fun w => Done tt (f w).
Definition ask {A} (f : world -> A) : M A := fun w => Done (f w) w.

Declare Scope kb_scope.
Delimit Scope kb_scope with kb.
Notation "'let*' x ':=' c 'in' k" := (bind c (fun x => k))
  (at level 10, x pattern, c at level 100, k at level 200) : kb_scope.
Notation "c ';;' k" := (bind c (fun _ => k))
  (at level 100, k at level 200, right associativity) : kb_scope.
Local Open Scope kb_scope.

Definition world_of {A} (o : outcome A) : world :=
  match o with Done _ w => w | Raised _ w => w end.

(** [st.error(..)] *)
Definition st_error (a : alert) : M unit := update (with_alert a).

(** [sqlite3.connect(DB_PATH)]: takes the fate of this transaction; only a
    failing connect raises here. *)
Definition connect : M storage :=
  fun w => match faults w with
           | [] => Done Healthy w
           | ConnectFails :: fs => Raised OperationalError (with_faults fs w)
           | f :: fs => Done f (with_faults fs w)
           end.

(** [cursor.execute(..); conn.commit()] outside any [try]. *)
Definition execute (st : storage) (f : kb_table -> kb_table) : M unit :=
  match st with
  | Healthy => update (fun w => with_db (f (db w)) w)
  | _ => raise OperationalError
  end.

(** ** Knowledge base operations *)

(** Streamlit session state: the keys whose value is [True]. *)
Definition session := gset string.

Definition ttl : Z := 3600.

(** What [st.cache_data(ttl=3600)] still holds for [load_kb_from_db]. *)
Definition cache_lookup (w : world) : option kb_dict :=
  match cache w with
  | Some (stored, kb) => if clock w <? stored + ttl then Some kb else None
  | None => None
  end.

(** The body of [load_kb_from_db], run on a cache miss. *)
Definition load_kb_from_db_body : M kb_dict :=
  let* st := connect in
  match st with
  | Healthy =>
      let* rows := ask (fun w => select_by_usage (db w)) in
      ret (kb_of_rows rows)
  | _ => raise OperationalError
  end.

Definition load_kb_from_db : M kb_dict :=
  let* hit := ask cache_lookup in
  match hit with
  | Some kb => ret kb
  | None =>
      let* kb := load_kb_from_db_body in
      update (fun w => with_cache (Some (clock w, kb)) w);;
      ret kb
  end.

Definition session_key (name : string) : string := "kb_used_" +:+ name.

Definition increment_kb_usage (name : string) (ss : session) : M session :=
  update (with_credit name);;
  if decide (session_key name ∈ ss) then ret ss
  else
    let* st := connect in
    execute st (sql_increment name);;
    ret ({[session_key name]} ∪ ss).

(** One element of the list [search_kb_db] returns. *)
Record kb_match := {
  match_issue : string;
  match_implication : string;
  match_mitigation : string;
  match_score : float;
  match_usage_count : Z
}.

Section Search.
Context `{Difflib}.

Definition keyword_hit (row : kb_row) (keyword : string) : bool :=
  (3 <? Py.len keyword)
  && (Py.contains keyword (Py.lower (issue_name row))
      || Py.contains keyword (Py.lower (implication row))
      || Py.contains keyword (Py.lower (mitigation row))).

Definition keyword_matches (query_lower : string) (row : kb_row) : Z :=
  Z.of_nat (length (List.filter (keyword_hit row) (Py.split query_lower))).

(** The final value of [max_similarity] for one row. *)
Definition max_similarity (query_lower : string) (row : kb_row) : float :=
  let issue_similarity := ratio query_lower (Py.lower (issue_name row)) in
  let impl_similarity := ratio query_lower (Py.lower (implication row)) in
  let mitg_similarity := ratio query_lower (Py.lower (mitigation row)) in
  let s0 := py_max (py_max issue_similarity (impl_similarity * 0.8))
                   (mitg_similarity * 0.8) in
  let k := keyword_matches query_lower row in
  let s1 := if 0 <? k then (s0 + Z2float k * 0.15)%float else s0 in
  let usage_boost := py_min (Z2float (usage_count row) * 0.01) 0.1 in
  (s1 + usage_boost)%float.

Definition match_of (query_lower : string) (row : kb_row) : kb_match :=
  {| match_issue := issue_name row;
     match_implication := implication row;
     match_mitigation := mitigation row;
     match_score := max_similarity query_lower row;
     match_usage_count := usage_count row |}.

(** The [for row in rows] loop: [matches] after the rows seen so far. *)
Definition collect_matches (query_lower : string) (rows : kb_table) : list kb_match :=
  fold_left (fun matches row =>
               if PrimFloat.ltb 0.2 (max_similarity query_lower row)
               then matches ++ [match_of query_lower row]
               else matches)
            rows [].

Definition search_kb_db (query : string) (top_n : Z) : M (list kb_match) :=
  if negb (Py.nonempty query) || (Py.len query <? 3) then ret []
  else
    let* st := connect in
    match st with
    | Healthy =>
        let* rows := ask db in
        let query_lower := Py.lower query in
        let matches := collect_matches query_lower rows in
        ret (py_take top_n (sort_desc PrimFloat.ltb match_score matches))
    | _ => raise OperationalError
    end.
End Search.

Section ImportExport.
Context `{JsonLib}.

(** [bool(v)] *)
Definition truthy (v : json num) : bool :=
  match v with
  | JNull => false
  | JBool b => b
  | JNum n => num_truthy n
  | JStr s => Py.nonempty s
  | JArr items => match items with [] => false | _ => true end
  | JObj members => match members with [] => false | _ => true end
  end.

(** What SQLite makes of a parameter: a text for the TEXT column, NULL, or
    an error on binding ([list] and [dict] values, an [int] beyond 64 bits). *)
Inductive binding :=
| BoundText (text : string)
| BoundNull
| BindingError.

Definition sqlite_value (v : json num) : binding :=
  match v with
  | JStr s => BoundText s
  | JNum n =>
      if num_null n then BoundNull
      else match num_bind n with
           | Some s => BoundText s
           | None => BindingError
           end
  | JBool b => BoundText (if b then "1" else "0")
  | JNull => BoundNull
  | JArr _ | JObj _ => BindingError
  end.

(** The text a TEXT NOT NULL column holds after [v] was bound to it in a
    plain INSERT; [None] when [cursor.execute] raises instead, on binding
    or on the NOT NULL constraint. *)
Definition sqlite_bind (v : json num) : option string :=
  match sqlite_value v with
  | BoundText s => Some s
  | BoundNull | BindingError => None
  end.

Definition add_to_kb_db (name : string) (impl mitg : json num) : M bool :=
  let* st := connect in
  try_except
    (match st, sqlite_bind impl, sqlite_bind mitg with
     | Healthy, Some i, Some m =>
         let* now := ask clock in
         update (fun w => with_db (sql_upsert now name i m (db w)) w);;
         ret true
     | _, _, _ => raise OperationalError
     end)
    (fun _ => st_error DatabaseError;; ret false).

Definition json_of_kb (kb : kb_dict) : json num :=
  JObj (map (fun '(name, (impl, mitg)) =>
               (name, JObj [("implication", JStr impl); ("mitigation", JStr mitg)]))
            kb).

Definition export_kb_to_json : M string :=
  let* kb := load_kb_from_db in
  ret (json_dumps (json_of_kb kb)).

(** [details.get(key, '')] *)
Definition details_get (key : string) (details : list (string * json num)) : json num :=
  match Dict.get key details with Some v => v | None => JStr "" end.

(** The [for issue_name, details in data.items()] loop, entered with the
    current [count]. *)
Fixpoint import_entries (entries : list (string * json num)) (count : Z) : M Z :=
  match entries with
  | [] => ret count
  | (name, details) :: rest =>
      match details with
      | JObj d =>
          let impl := details_get "implication" d in
          let mitg := details_get "mitigation" d in
          if truthy impl && truthy mitg
          then
            let* ok := add_to_kb_db name impl mitg in
            import_entries rest (if ok then count + 1 else count)
          else import_entries rest count
      | _ => import_entries rest count
      end
  end.

Definition import_kb_from_json (json_data : json num) : M Z :=
  try_except
    (let* data := match json_data with
                  | JStr text =>
                      match json_loads text with
                      | Some v => ret v
                      | None => raise JSONDecodeError
                      end
                  | v => ret v
                  end in
     match data with
     | JObj entries => import_entries entries 0
     | _ => raise AttributeError
     end)
    (fun _ => st_error ImportError;; ret 0).
End ImportExport.

(** ** The report document *)

(** A finding as the form stores it: a dictionary read with
    [f.get(key, default)]; [None] is an absent key. *)
Module Finding.
Record t := {
  number : option string;
  issue : option string;
  classification : option string;
  severity : option string;
  severity_level : option string;
  severity_status : option string;
  responsible_party : option string;
  implication : option string;
  mitigation : option string;
  affected_hosts : list string
}.
End Finding.

(** [d.get(key, dflt)] on an optional field *)
Definition get_or (field : option string) (dflt : string) : string :=
  match field with Some v => v | None => dflt end.

Inductive master_row :=
| HeaderRow
| ClassificationRow (classification : string)
| FindingRow (number issue severity_level severity_status : string)
             (fill : option string) (responsible_party : string).

Inductive cell :=
| Text (s : string)
| Pictures (images : list string).

Inductive element :=
| CoverPage (app_name version : string) (author : option string)
| DocumentInfoPage (app_name : string) (author : option string)
| AssessmentSummary (app_name : string)
| Heading (text : string) (level : Z)
| Paragraph (text : string)
| IpTable (rows : list (string * string))
| MasterTable (rows : list master_row)
| DetailTable (rows : list (string * cell))
| PageBreak.

Definition document := list element.

Definition classifications : list string :=
  ["Mobile Application Vulnerability"; "Server Vulnerabilities"; "Web Vulnerabilities"].

(** [w:fill] of the status cell. *)
Definition status_fill (severity_status : string) : option string :=
  if String.eqb (Py.lower severity_status) "open" then Some "FF0000"
  else if String.eqb (Py.lower severity_status) "closed" then Some "00FF00"
  else None.

Definition finding_row (f : Finding.t) : master_row :=
  let severity_level := get_or (Finding.severity_level f) "Medium" in
  let severity_status := get_or (Finding.severity_status f) "Open" in
  FindingRow (get_or (Finding.number f) "") (get_or (Finding.issue f) "")
             severity_level severity_status (status_fill severity_status)
             (get_or (Finding.responsible_party f) "").

Definition is_classified (classification : string) (f : Finding.t) : bool :=
  match Finding.classification f with
  | Some c => String.eqb c classification
  | None => false
  end.

(** Rows of the master table after the header: the body of
    [for classification in classifications], appending to the rows so far. *)
Definition add_classification (findings : list Finding.t)
    (rows : list master_row) (classification : string) : list master_row :=
  let classified_findings := List.filter (is_classified classification) findings in
  match classified_findings with
  | [] => rows
  | _ :: _ =>
      fold_left (fun rows f => rows ++ [finding_row f]) classified_findings
                (rows ++ [ClassificationRow classification])
  end.

Definition master_rows (findings : list Finding.t) : list master_row :=
  fold_left (add_classification findings) classifications [HeaderRow].

Definition add_findings_master_table (doc : document) (findings : list Finding.t) : document :=
  doc ++ [Heading "Findings Master List" 2; MasterTable (master_rows findings); PageBreak].

Definition add_ip_inventory_table (doc : document) (ip_inventory : list (string * string)) : document :=
  doc ++ [Heading "IP Address Inventory" 2; IpTable ip_inventory; Paragraph ""].

Definition no_implication : string := "[No implication provided]".
Definition no_mitigation : string := "[No mitigation provided]".

(** [k.lower() in issue.lower() or issue.lower() in k.lower()] *)
Definition loosely_matches (issue k : string) : bool :=
  Py.contains (Py.lower k) (Py.lower issue) || Py.contains (Py.lower issue) (Py.lower k).

(** The search for [kb_key]; the key found is credited on the spot. *)
Definition find_kb_key (kb : kb_dict) (issue : string) (ss : session)
  : M (option string * session) :=
  if Dict.mem issue kb
  then
    let* ss' := increment_kb_usage issue ss in
    ret (Some issue, ss')
  else
    match List.find (loosely_matches issue) (Dict.keys kb) with
    | Some k =>
        let* ss' := increment_kb_usage k ss in
        ret (Some k, ss')
    | None => ret (None, ss)
    end.

(** The texts shown for one finding: (implication, mitigation). *)
Definition resolve_texts (kb : kb_dict) (f : Finding.t) (ss : session)
  : M (string * string * session) :=
  let issue := get_or (Finding.issue f) "" in
  let custom_implication := get_or (Finding.implication f) "" in
  let custom_mitigation := get_or (Finding.mitigation f) "" in
  let* (implication, mitigation, ss) :=
    if negb (Py.nonempty custom_implication) || negb (Py.nonempty custom_mitigation)
    then
      let* (kb_key, ss') := find_kb_key kb issue ss in
      match kb_key with
      | Some k =>
          if Py.nonempty k
          then
            let implication :=
              if Py.nonempty custom_implication then custom_implication
              else match Dict.get k kb with
                   | Some (impl, _) => impl
                   | None => no_implication
                   end in
            let mitigation :=
              if Py.nonempty custom_mitigation then custom_mitigation
              else match Dict.get k kb with
                   | Some (_, mitg) => mitg
                   | None => no_mitigation
                   end in
            ret (implication, mitigation, ss')
          else ret (custom_implication, custom_mitigation, ss')
      | None => ret (custom_implication, custom_mitigation, ss')
      end
    else ret (custom_implication, custom_mitigation, ss) in
  let implication := if Py.nonempty implication then implication else no_implication in
  let mitigation := if Py.nonempty mitigation then mitigation else no_mitigation in
  ret (implication, mitigation, ss).

(** [', '.join(hosts)] *)
Fixpoint join_hosts (hosts : list string) : string :=
  match hosts with
  | [] => ""
  | [h] => h
  | h :: rest => h +:+ ", " +:+ join_hosts rest
  end.

(** Heading, seven-row table and page break of one finding.  A picture
    that cannot be embedded is not modelled. *)
Definition finding_page (kb : kb_dict) (uploaded_images : list (string * list string))
    (f : Finding.t) (ss : session) : M (document * session) :=
  let finding_num := get_or (Finding.number f) "" in
  let issue := get_or (Finding.issue f) "" in
  let severity := get_or (Finding.severity f) "" in
  let hosts_str :=
    match Finding.affected_hosts f with
    | [] => "[No hosts specified]"
    | hosts => join_hosts hosts
    end in
  let* (implication, mitigation, ss') := resolve_texts kb f ss in
  let finding_images :=
    match Dict.get finding_num uploaded_images with Some l => l | None => [] end in
  let detail_cell :=
    match finding_images with
    | [] => Text "[No evidence image provided for this finding]"
    | _ => Pictures finding_images
    end in
  ret ([Heading ("Finding " +:+ finding_num +:+ ": " +:+ issue) 2;
        DetailTable [("Finding " +:+ finding_num, Text issue);
                     ("Affected Host", Text hosts_str);
                     ("Implication", Text implication);
                     ("Risk Rating", Text severity);
                     ("Detail", detail_cell);
                     ("Mitigation", Text mitigation);
                     ("Comment", Text "")];
        PageBreak], ss').

(** The [for f in findings] loop. *)
Fixpoint finding_pages (kb : kb_dict) (uploaded_images : list (string * list string))
    (findings : list Finding.t) (doc : document) (ss : session) : M (document * session) :=
  match findings with
  | [] => ret (doc, ss)
  | f :: rest =>
      let* (page, ss') := finding_page kb uploaded_images f ss in
      finding_pages kb uploaded_images rest (doc ++ page) ss'
  end.

Definition generate_finding_pages (doc : document) (findings : list Finding.t)
    (ip_inventory : list (string * string))
    (uploaded_images : list (string * list string)) (ss : session)
  : M (document * session) :=
  let* kb := load_kb_from_db in
  finding_pages kb uploaded_images findings doc ss.

(** The form data handed to [generate_report]. *)
Record report_data := {
  application_name : option string;
  author : option string;
  ip_inventory : list (string * string);
  findings : list Finding.t
}.

Definition version : string := "v1.0".

(** The characters [[0-9a-zA-Z-_ ]] *)
Definition safe_char (c : ascii) : bool :=
  let n := Py.ord c in
  Py.between 48 57 n || Py.between 97 122 n || Py.between 65 90 n
  || (n =? 45)%nat || (n =? 95)%nat || (n =? 32)%nat.

(** [re.sub(r"[^0-9a-zA-Z-_ ]+", '', app_name).strip().replace(' ', '_')] *)
Definition safe_name (app_name : string) : string :=
  Py.replace_char " " "_" (Py.strip (Py.filter_chars safe_char app_name)).

Definition filename (app_name : string) : string :=
  safe_name app_name +:+ "_" +:+ version +:+ ".docx".

(** Cover, document information and summary pages are kept as single
    elements; the logo and the architecture picture are left out. *)
Definition generate_report (data : report_data)
    (uploaded_images : list (string * list string)) (ss : session)
  : M (document * string * session) :=
  let app_name := get_or (application_name data) "Application" in
  let doc := [CoverPage app_name version (author data);
              DocumentInfoPage app_name (author data);
              AssessmentSummary app_name] in
  let doc := add_ip_inventory_table doc (ip_inventory data) in
  let doc := add_findings_master_table doc (findings data) in
  let* (doc, ss') :=
    generate_finding_pages doc (findings data) (ip_inventory data) uploaded_images ss in
  ret (doc, filename app_name, ss').

(** ** Executable stand-ins for [difflib] and [json]

    Used where a statement is evaluated on concrete data; the theorems
    below hold for every [Difflib] and every [JsonLib]. *)

(** [SequenceMatcher(None, a, b).ratio()]: the matching blocks found by
    repeated [find_longest_match], with the automatic junk heuristic for a
    second text of 200 characters or more. *)
Module DifflibModel.

(** The characters that [__chain_b] takes out of [b2j] as popular. *)
Definition popular_chars (b : list ascii) : list ascii :=
  if (200 <=? length b)%nat
  then List.filter
         (fun c => (length b / 100 + 1 <? length (List.filter (Ascii.eqb c) b))%nat)
         (nodup ascii_dec b)
  else [].

(** Length of the common prefix of [a] and [b] that avoids [junk] in [b]. *)
Fixpoint common_prefix (junk : list ascii) (a b : list ascii) : nat :=
  match a, b with
  | x :: a', y :: b' =>
      if Ascii.eqb x y && negb (existsb (Ascii.eqb y) junk)
      then S (common_prefix junk a' b') else O
  | _, _ => O
  end.

(** Longest block of [b] that is a prefix of [a]: (start in b, size),
    the earliest start among the longest. *)
Fixpoint best_in_b (junk : list ascii) (a b : list ascii) (j : nat) : nat * nat :=
  match b with
  | [] => (j, O)
  | _ :: b' =>
      let k := common_prefix junk a b in
      let (j', k') := best_in_b junk a b' (S j) in
      if (k' <=? k)%nat then (j, k) else (j', k')
  end.

(** The longest block free of popular characters: (start in a, start in
    b, size), the earliest in a, then in b, among the longest. *)
Fixpoint longest_block (junk : list ascii) (a b : list ascii) (i : nat)
  : nat * nat * nat :=
  match a with
  | [] => (i, O, O)
  | _ :: a' =>
      let (j, k) := best_in_b junk a b O in
      let '(i', j', k') := longest_block junk a' b (S i) in
      if (k' <=? k)%nat then (i, j, k) else (i', j', k')
  end.

(** [find_longest_match] on the windows [a] and [b]: the longest block,
    then extended to both sides over any characters that agree. *)
Definition find_longest_match (junk : list ascii) (a b : list ascii)
  : nat * nat * nat :=
  let '(i, j, k) := longest_block junk a b O in
  let back := common_prefix [] (rev (take i a)) (rev (take j b)) in
  let i := (i - back)%nat in
  let j := (j - back)%nat in
  let k := (k + back)%nat in
  let forth := common_prefix [] (drop (i + k) a) (drop (j + k) b) in
  (i, j, (k + forth)%nat).

(** Total size of the matching blocks. *)
Fixpoint matches (fuel : nat) (junk : list ascii) (a b : list ascii) : nat :=
  match fuel with
  | O => O
  | S fuel' =>
      let '(i, j, k) := find_longest_match junk a b in
      if (k =? 0)%nat then O
      else (k + matches fuel' junk (take i a) (take j b)
              + matches fuel' junk (drop (i + k) a) (drop (j + k) b))%nat
  end.

Definition ratio (a b : string) : float :=
  let la := list_ascii_of_string a in
  let lb := list_ascii_of_string b in
  let total := (length la + length lb)%nat in
  if (total =? 0)%nat then 1.0%float
  else (2.0 * Z2float (Z.of_nat (matches total (popular_chars lb) la lb))
        / Z2float (Z.of_nat total))%float.

Definition lib : Difflib := Build_Difflib ratio.

End DifflibModel.

(** [json.loads] and [json.dumps(_, indent=2)] on texts whose numbers are
    integers and whose characters, also those written as \u escapes, are
    below 256: a text outside this range is refused. *)
Module JsonModel.

Definition dquote : ascii := ascii_of_nat 34.
Definition backslash : ascii := ascii_of_nat 92.

Definition hex_digit (n : nat) : ascii :=
  ascii_of_nat (if (n <? 10)%nat then 48 + n else 87 + n).

(** One character inside a string literal, with [ensure_ascii]. *)
Definition escape_char (c : ascii) : string :=
  let n := Py.ord c in
  let short (e : ascii) := String backslash (String e EmptyString) in
  if (n =? 34)%nat then short dquote
  else if (n =? 92)%nat then short backslash
  else if (n =? 10)%nat then short "n"%char
  else if (n =? 13)%nat then short "r"%char
  else if (n =? 9)%nat then short "t"%char
  else if (n =? 8)%nat then short "b"%char
  else if (n =? 12)%nat then short "f"%char
  else if Py.between 32 126 n then String c EmptyString
  else String backslash
         (String "u" (String "0" (String "0"
            (String (hex_digit (n / 16)) (String (hex_digit (n mod 16)) EmptyString))))).

Fixpoint escape (s : string) : string :=
  match s with
  | EmptyString => EmptyString
  | String c s' => escape_char c +:+ escape s'
  end.

Definition quote (s : string) : string :=
  String dquote (escape s +:+ String dquote EmptyString).

Fixpoint digits (fuel : nat) (n : Z) (acc : string) : string :=
  match fuel with
  | O => acc
  | S fuel' =>
      let acc' := String (ascii_of_nat (48 + Z.to_nat (n mod 10))) acc in
      if n <? 10 then acc' else digits fuel' (n / 10) acc'
  end.

(** [str(z)]; a number has no more decimal digits than binary ones. *)
Definition string_of_Z (z : Z) : string :=
  if z <? 0 then String "-" (digits (S (Z.to_nat (Z.log2 (- z)))) (- z) EmptyString)
  else digits (S (Z.to_nat (Z.log2 z))) z EmptyString.

Fixpoint join (sep : string) (parts : list string) : string :=
  match parts with
  | [] => EmptyString
  | [p] => p
  | p :: rest => p +:+ sep +:+ join sep rest
  end.

Fixpoint spaces (n : nat) : string :=
  match n with O => EmptyString | S n' => String " " (spaces n') end.

(** A line break and the indentation of [level]. *)
Definition newline_indent (level : nat) : string :=
  String "010" (spaces (2 * level)).

Fixpoint dumps_at (level : nat) (v : json Z) : string :=
  match v with
  | JNull => "null"
  | JBool b => if b then "true" else "false"
  | JNum n => string_of_Z n
  | JStr s => quote s
  | JArr [] => "[]"
  | JArr items =>
      "[" +:+ newline_indent (S level)
          +:+ join ("," +:+ newline_indent (S level)) (map (dumps_at (S level)) items)
          +:+ newline_indent level +:+ "]"
  | JObj [] => "{}"
  | JObj members =>
      "{" +:+ newline_indent (S level)
          +:+ join ("," +:+ newline_indent (S level))
                   (map (fun kv => quote (fst kv) +:+ ": " +:+ dumps_at (S level) (snd kv))
                        members)
          +:+ newline_indent level +:+ "}"
  end.

Definition dumps (v : json Z) : string := dumps_at 0 v.

(** JSON white space: space, tab, line feed, carriage return. *)
Definition is_ws (c : ascii) : bool :=
  let n := Py.ord c in
  (n =? 32)%nat || (n =? 9)%nat || (n =? 10)%nat || (n =? 13)%nat.

Fixpoint skip_ws (s : string) : string :=
  match s with
  | String c s' => if is_ws c then skip_ws s' else s
  | EmptyString => EmptyString
  end.

Definition hex_value (c : ascii) : option nat :=
  let n := Py.ord c in
  if Py.between 48 57 n then Some (n - 48)%nat
  else if Py.between 97 102 n then Some (n - 87)%nat
  else if Py.between 65 70 n then Some (n - 55)%nat
  else None.

(** The character a backslash escape stands for, and the text after it. *)
Definition read_escape (s : string) : option (ascii * string) :=
  match s with
  | String e rest =>
      let n := Py.ord e in
      if (n =? 34)%nat || (n =? 92)%nat || (n =? 47)%nat then Some (e, rest)
      else if (n =? 110)%nat then Some (ascii_of_nat 10, rest)
      else if (n =? 114)%nat then Some (ascii_of_nat 13, rest)
      else if (n =? 116)%nat then Some (ascii_of_nat 9, rest)
      else if (n =? 98)%nat then Some (ascii_of_nat 8, rest)
      else if (n =? 102)%nat then Some (ascii_of_nat 12, rest)
      else if (n =? 117)%nat
      then match rest with
           | String h1 (String h2 (String h3 (String h4 rest'))) =>
               match hex_value h1, hex_value h2, hex_value h3, hex_value h4 with
               | Some 0%nat, Some 0%nat, Some d3, Some d4 =>
                   Some (ascii_of_nat (16 * d3 + d4), rest')
               | _, _, _, _ => None
               end
           | _ => None
           end
      else None
  | EmptyString => None
  end.

(** The characters up to the closing quote, and what follows it. *)
Fixpoint read_string (fuel : nat) (s : string) : option (string * string) :=
  match fuel with
  | O => None
  | S fuel' =>
      match s with
      | EmptyString => None
      | String c s' =>
          if Ascii.eqb c dquote then Some (EmptyString, s')
          else if Ascii.eqb c backslash
          then match read_escape s' with
               | Some (e, s'') =>
                   match read_string fuel' s'' with
                   | Some (body, rest) => Some (String e body, rest)
                   | None => None
                   end
               | None => None
               end
          else if (Py.ord c <? 32)%nat then None
          else match read_string fuel' s' with
               | Some (body, rest) => Some (String c body, rest)
               | None => None
               end
      end
  end.

Fixpoint read_digits (s : string) (acc : Z) : Z * string :=
  match s with
  | String c s' =>
      if Py.between 48 57 (Py.ord c)
      then read_digits s' (10 * acc + Z.of_nat (Py.ord c - 48))
      else (acc, s)
  | EmptyString => (acc, s)
  end.

(** An integer without a fraction or an exponent: [0], or digits that
    start with 1 to 9. *)
Definition read_natural (s : string) : option (Z * string) :=
  match s with
  | String c s' =>
      let n := Py.ord c in
      let whole (result : Z * string) :=
        match snd result with
        | String d _ =>
            if Ascii.eqb d "." || Ascii.eqb d "e" || Ascii.eqb d "E" then None
            else Some result
        | EmptyString => Some result
        end in
      if (n =? 48)%nat then whole (0, s')
      else if Py.between 49 57 n then whole (read_digits s 0)
      else None
  | EmptyString => None
  end.

Inductive goal :=
| Value
| FirstMember
| NextMember (seen : list (string * json Z))
| AfterMember (seen : list (string * json Z))
| FirstItem
| NextItem (seen : list (json Z))
| AfterItem (seen : list (json Z)).

Fixpoint read (fuel : nat) (g : goal) (s : string) : option (json Z * string) :=
  match fuel with
  | O => None
  | S fuel' =>
      let member (seen : list (string * json Z)) (s : string) :=
        match s with
        | String c rest =>
            if Ascii.eqb c dquote
            then match read_string (S (String.length rest)) rest with
                 | Some (key, rest') =>
                     match skip_ws rest' with
                     | String colon rest'' =>
                         if Ascii.eqb colon ":"
                         then match read fuel' Value rest'' with
                              | Some (v, rest3) =>
                                  read fuel' (AfterMember (Dict.set key v seen)) rest3
                              | None => None
                              end
                         else None
                     | EmptyString => None
                     end
                 | None => None
                 end
            else None
        | EmptyString => None
        end in
      let item (seen : list (json Z)) (s : string) :=
        match read fuel' Value s with
        | Some (v, rest) => read fuel' (AfterItem (seen ++ [v])) rest
        | None => None
        end in
      match g, skip_ws s with
      | _, EmptyString => None
      | Value, String c rest =>
          if Ascii.eqb c dquote
          then match read_string (S (String.length rest)) rest with
               | Some (body, rest') => Some (JStr body, rest')
               | None => None
               end
          else if Ascii.eqb c "{" then read fuel' FirstMember rest
          else if Ascii.eqb c "[" then read fuel' FirstItem rest
          else if Ascii.eqb c "-"
          then match read_natural rest with
               | Some (n, rest') => Some (JNum (- n), rest')
               | None => None
               end
          else if String.prefix "null" (String c rest)
          then Some (JNull, String.substring 3 (String.length rest) rest)
          else if String.prefix "true" (String c rest)
          then Some (JBool true, String.substring 3 (String.length rest) rest)
          else if String.prefix "false" (String c rest)
          then Some (JBool false, String.substring 4 (String.length rest) rest)
          else match read_natural (String c rest) with
               | Some (n, rest') => Some (JNum n, rest')
               | None => None
               end
      | FirstMember, String c rest =>
          if Ascii.eqb c "}" then Some (JObj [], rest) else member [] (String c rest)
      | NextMember seen, String c rest => member seen (String c rest)
      | AfterMember seen, String c rest =>
          if Ascii.eqb c "}" then Some (JObj seen, rest)
          else if Ascii.eqb c "," then read fuel' (NextMember seen) rest
          else None
      | FirstItem, String c rest =>
          if Ascii.eqb c "]" then Some (JArr [], rest) else item [] (String c rest)
      | NextItem seen, String c rest => item seen (String c rest)
      | AfterItem seen, String c rest =>
          if Ascii.eqb c "]" then Some (JArr seen, rest)
          else if Ascii.eqb c "," then read fuel' (NextItem seen) rest
          else None
      end
  end.

Definition loads (text : string) : option (json Z) :=
  match read (S (String.length text)) Value text with
  | Some (v, rest) =>
      match skip_ws rest with EmptyString => Some v | _ => None end
  | None => None
  end.

Definition lib : JsonLib :=
  {| num := Z;
     num_truthy := fun n => negb (n =? 0);
     num_bind := fun n =>
       if (- 2 ^ 63 <=? n) && (n <? 2 ^ 63) then Some (string_of_Z n) else None;
     num_null := fun _ => false;
     json_loads := loads;
     json_dumps := dumps |}.

End JsonModel.

(** ** Observations used in the statements *)

(** [part] is a substring of [text]. *)
Definition substring_of (part text : string) : bool :=
  match String.index 0 part text with Some _ => true | None => false end.

(** The same, ignoring the case of both. *)
Definition substring_nocase (part text : string) : bool :=
  substring_of (Py.lower part) (Py.lower text).

(** Leading and trailing spaces removed. *)
Fixpoint drop_leading_spaces (s : string) : string :=
  match s with
  | String c s' => if Ascii.eqb c " " then drop_leading_spaces s' else s
  | EmptyString => EmptyString
  end.

Fixpoint drop_trailing_spaces (s : string) : string :=
  match s with
  | EmptyString => EmptyString
  | String c s' =>
      match drop_trailing_spaces s' with
      | EmptyString => if Ascii.eqb c " " then EmptyString else String c EmptyString
      | r => String c r
      end
  end.

Definition trim_spaces (s : string) : string :=
  drop_trailing_spaces (drop_leading_spaces s).

(** The file name read off the sentence "every character outside the class
    removed and every space replaced by an underscore". *)
Definition claimed_filename (app_name : string) : string :=
  Py.replace_char " " "_" (Py.filter_chars safe_char app_name) +:+ "_v1.0.docx".

(** The group a classification contributes to the master table. *)
Definition group (findings : list Finding.t) (classification : string) : list master_row :=
  match List.filter (is_classified classification) findings with
  | [] => []
  | classified => ClassificationRow classification :: map finding_row classified
  end.

(** ** The master table, as the specification words it *)

(** What a reader sees of a row: the table header, the header of a group,
    or the number and the issue of a finding. *)
Inductive row_view :=
| TableHeader
| GroupHeader (classification : string)
| FindingLine (number issue : string).

Definition view (r : master_row) : row_view :=
  match r with
  | HeaderRow => TableHeader
  | ClassificationRow c => GroupHeader c
  | FindingRow number issue _ _ _ _ => FindingLine number issue
  end.

(** The findings of one classification, in the order of the list. *)
Fixpoint findings_of (classification : string) (findings : list Finding.t)
  : list Finding.t :=
  match findings with
  | [] => []
  | f :: rest =>
      if decide (Finding.classification f = Some classification)
      then f :: findings_of classification rest
      else findings_of classification rest
  end.

(** The group of a classification: nothing at all without a finding, else
    its header and one line for each of its findings. *)
Definition claimed_group (classification : string) (findings : list Finding.t)
  : list row_view :=
  match findings_of classification findings with
  | [] => []
  | f :: more =>
      GroupHeader classification
      :: map (fun f => FindingLine (default "" (Finding.number f))
                                   (default "" (Finding.issue f)))
             (f :: more)
  end.

Definition claimed_master_table (findings : list Finding.t) : list row_view :=
  TableHeader
  :: claimed_group "Mobile Application Vulnerability" findings
  ++ claimed_group "Server Vulnerabilities" findings
  ++ claimed_group "Web Vulnerabilities" findings.

Definition all_safe (s : string) : Prop :=
  forall c, In c (list_ascii_of_string s) -> safe_char c = true.

(** ** Sample data *)

Definition sample_row (name impl mitg : string) (usage : Z) : kb_row :=
  {| issue_name := name; implication := impl; mitigation := mitg;
     created_at := 0; updated_at := 0; usage_count := usage |}.

(** A world with the given table, nothing cached and no fault pending. *)
Definition quiet_world (t : kb_table) : world :=
  {| db := t; cache := None; clock := 0; faults := []; alerts := []; credited := [] |}.

Definition sample_table : kb_table :=
  [sample_row "SQL Injection" "Attackers can read the database" "Use prepared statements" 0;
   sample_row "Weak Password Policy" "Accounts can be guessed" "Enforce strong passwords" 4].

Definition sample_finding (number issue classification : string) : Finding.t :=
  {| Finding.number := Some number; Finding.issue := Some issue;
     Finding.classification := Some classification;
     Finding.severity := None; Finding.severity_level := Some "High";
     Finding.severity_status := Some "Open"; Finding.responsible_party := Some "IT";
     Finding.implication := None; Finding.mitigation := None;
     Finding.affected_hosts := [] |}.

(** ** Usage counters *)

(** The counter stored for an issue name, if the table has it. *)
Definition usage_of (name : string) (t : kb_table) : option Z :=
  option_map usage_count (List.find (has_issue name) t).

(** No counter of [t] is lower or missing in [t']. *)
Definition grows (t t' : kb_table) : Prop :=
  forall name u, usage_of name t = Some u ->
                 exists u', usage_of name t' = Some u' /\ u <= u'.

(** A computation under which no counter is lowered, however it ends. *)
Definition keeps_usage {A} (c : M A) : Prop :=
  forall w, grows (db w) (db (world_of (c w))).

(** The calls a session can make on the knowledge base. *)
Inductive operation `{JsonLib} :=
| Load
| Upsert (name : string) (impl mitg : json num)
| Increment (name : string) (ss : session)
| Search (query : string) (top_n : Z)
| Export
| Import (json_data : json num)
| FindingPages (doc : document) (findings : list Finding.t)
               (ip_inventory : list (string * string))
               (uploaded_images : list (string * list string)) (ss : session)
| Report (data : report_data) (uploaded_images : list (string * list string))
         (ss : session).

(** The world an operation leaves behind, whether it returned or raised. *)
Definition after `{JsonLib} `{Difflib} (op : operation) (w : world) : world :=
  match op with
  | Load => world_of (load_kb_from_db w)
  | Upsert name impl mitg => world_of (add_to_kb_db name impl mitg w)
  | Increment name ss => world_of (increment_kb_usage name ss w)
  | Search query top_n => world_of (search_kb_db query top_n w)
  | Export => world_of (export_kb_to_json w)
  | Import json_data => world_of (import_kb_from_json json_data w)
  | FindingPages doc findings ip_inventory uploaded_images ss =>
      world_of (generate_finding_pages doc findings ip_inventory uploaded_images ss w)
  | Report data uploaded_images ss => world_of (generate_report data uploaded_images ss w)
  end.

(** ** Reading the mapping *)

(** The mapping a read that reaches the database returns. *)
Definition stored_kb (w : world) : kb_dict :=
  kb_of_rows (select_by_usage (db w)).

(** The entries of a mapping under one key. *)
Definition entries_for (name : string) (kb : kb_dict) : kb_dict :=
  List.filter (fun e => String.eqb (fst e) name) kb.

Definition texts (r : kb_row) : string * string := (implication r, mitigation r).

(** A world in which [load_kb_from_db] ran on an empty table at time 0 and
    the clock now shows 10 seconds. *)
Definition warm_empty_world : world :=
  {| db := []; cache := Some (0, []); clock := 10; faults := []; alerts := [];
     credited := [] |}.

(** ** Import, as the specification words it *)

Section ImportSpec.
Context `{JsonLib}.

(** The upsert an entry asks for: its value is an object whose implication
    and mitigation are both truthy. *)
Definition upsert_of (entry : string * json num) : option (string * json num * json num) :=
  match snd entry with
  | JObj d =>
      let impl := details_get "implication" d in
      let mitg := details_get "mitigation" d in
      if truthy impl && truthy mitg then Some (fst entry, impl, mitg) else None
  | _ => None
  end.

Definition well_formed (entry : string * json num) : bool :=
  match upsert_of entry with Some _ => true | None => false end.

Definition upserts_of (entries : list (string * json num))
  : list (string * json num * json num) :=
  flat_map (fun entry => match upsert_of entry with Some c => [c] | None => [] end) entries.

(** Perform the upserts in order and count the successful ones. *)
Fixpoint upsert_all (calls : list (string * json num * json num)) (count : Z) : M Z :=
  match calls with
  | [] => ret count
  | (name, impl, mitg) :: rest =>
      let* ok := add_to_kb_db name impl mitg in
      upsert_all rest (if ok then count + 1 else count)
  end.

(** An upsert SQLite accepts: both values can be bound. *)
Definition storable (call : string * json num * json num) : option (string * string * string) :=
  match call with
  | (name, impl, mitg) =>
      match sqlite_bind impl, sqlite_bind mitg with
      | Some i, Some m => Some (name, i, m)
      | _, _ => None
      end
  end.

Definition stored_of (calls : list (string * json num * json num))
  : list (string * string * string) :=
  flat_map (fun call => match storable call with Some c => [c] | None => [] end) calls.

Definition store_all (now : Z) (rows : list (string * string * string)) (t : kb_table)
  : kb_table :=
  fold_left (fun t '(name, i, m) => sql_upsert now name i m t) rows t.

(** What [import_kb_from_json] iterates over; [None] when parsing fails. *)
Definition parsed (json_data : json num) : option (json num) :=
  match json_data with
  | JStr text => json_loads text
  | v => Some v
  end.

End ImportSpec.

(** ** Import, read off the claim *)

Section ImportClaim.
Context `{JsonLib}.

(** The value of a member of a mapping, if the mapping has it. *)
Definition member (key : string) (members : list (string * json num))
  : option (json num) :=
  option_map snd (List.find (fun kv => String.eqb (fst kv) key) members).

(** An empty value: null, false, zero, the empty string, list or mapping. *)
Definition is_empty (v : json num) : bool :=
  match v with
  | JNull => true
  | JBool b => negb b
  | JNum n => negb (num_truthy n)
  | JStr s => String.eqb s ""
  | JArr items => Nat.eqb (length items) 0
  | JObj members => Nat.eqb (length members) 0
  end.

(** What an entry asks to be stored: its value must be a mapping that has
    an implication and a mitigation, neither of them empty. *)
Definition asks_upsert (entry : string * json num)
  : option (string * json num * json num) :=
  match snd entry with
  | JObj details =>
      match member "implication" details, member "mitigation" details with
      | Some impl, Some mitg =>
          if is_empty impl || is_empty mitg then None
          else Some (fst entry, impl, mitg)
      | _, _ => None
      end
  | _ => None
  end.

Definition has_texts (entry : string * json num) : bool :=
  match asks_upsert entry with Some _ => true | None => false end.

(** The text kept for a value in a TEXT NOT NULL column: a string as it is,
    a truth value as 1 or 0, a number as SQLite writes it; no text is kept
    for a list, a mapping, an integer beyond 64 bits, null or NaN. *)
Definition kept_text (v : json num) : option string :=
  match v with
  | JStr s => Some s
  | JBool true => Some "1"
  | JBool false => Some "0"
  | JNum n => if num_null n then None else num_bind n
  | JNull | JArr _ | JObj _ => None
  end.

(** A value that SQLite refuses as a parameter: a list, a mapping, an
    integer beyond 64 bits. *)
Definition refused (v : json num) : bool :=
  match v with
  | JArr _ | JObj _ => true
  | JNum n =>
      if num_null n then false
      else match num_bind n with Some _ => false | None => true end
  | JNull | JBool _ | JStr _ => false
  end.

(** The row an entry leaves when its upsert succeeds. *)
Definition claimed_row (entry : string * json num)
  : option (string * (string * string)) :=
  match asks_upsert entry with
  | Some (name, impl, mitg) =>
      match kept_text impl, kept_text mitg with
      | Some i, Some m => Some (name, (i, m))
      | _, _ => None
      end
  | None => None
  end.

Definition claimed_rows (entries : list (string * json num))
  : list (string * (string * string)) :=
  omap claimed_row entries.

End ImportClaim.

(** The texts of the last row, and of the first row, under a name. *)
Definition last_of (name : string) (rows : list (string * (string * string)))
  : option (string * string) :=
  option_map snd (List.find (fun row => String.eqb (fst row) name) (rev rows)).

Definition first_of (name : string) (rows : list (string * (string * string)))
  : option (string * string) :=
  option_map snd (List.find (fun row => String.eqb (fst row) name) rows).

Definition entry_of (impl mitg : string) : json Z :=
  JObj [("implication", JStr impl); ("mitigation", JStr mitg)].

Definition sample_export : json Z :=
  JObj [("XSS", entry_of "Script runs" "Encode output");
        ("CSRF", entry_of "Forged request" "Use tokens")].

(** Two good entries among a string, an entry without mitigation, an empty
    implication and a list where a text belongs. *)
Definition sample_import_entries : list (string * json Z) :=
  [("Note", JStr "not an entry");
   ("XSS", entry_of "Script runs" "Encode output");
   ("Half", JObj [("implication", JStr "only this")]);
   ("Empty", entry_of "" "something");
   ("Listy", JObj [("implication", JArr [JStr "a"]); ("mitigation", JStr "m")]);
   ("CSRF", entry_of "Forged request" "Use tokens")].

Definition sample_import : json Z := JObj sample_import_entries.

(** The row an INSERT creates. *)
Definition new_row (now : Z) (entry : string * (string * string)) : kb_row :=
  {| issue_name := fst entry; implication := fst (snd entry);
     mitigation := snd (snd entry); created_at := now; updated_at := now;
     usage_count := 0 |}.

Definition flat (entry : string * (string * string)) : string * string * string :=
  (fst entry, fst (snd entry), snd (snd entry)).

(** Every stored text is non-empty. *)
Definition texts_present (t : kb_table) : Prop :=
  forall r, In r t -> implication r <> "" /\ mitigation r <> "".

(** ** Finding texts, as the specification words them *)

(** No entry of the knowledge base has the empty issue name. *)
Definition kb_named (kb : kb_dict) : Prop :=
  forall k v, In (k, v) kb -> k <> "".

(** The entry a finding is resolved to: the one named exactly like the issue
    text, else the first one, in iteration order, whose name contains the
    issue text or is contained in it, ignoring case. *)
Definition claimed_key (kb : kb_dict) (issue : string) : option string :=
  match List.find (fun entry => String.eqb (fst entry) issue) kb with
  | Some _ => Some issue
  | None =>
      option_map fst
        (List.find (fun entry => substring_nocase (fst entry) issue
                                 || substring_nocase issue (fst entry)) kb)
  end.

(** Explicit value, else the text of the matching entry, else (no entry, or
    an empty text) the placeholder. *)
Definition claimed_text (explicit : string) (from_kb : option string)
    (placeholder : string) : string :=
  if Py.nonempty explicit then explicit
  else match from_kb with
       | Some text => if Py.nonempty text then text else placeholder
       | None => placeholder
       end.

Definition claimed_texts (kb : kb_dict) (f : Finding.t) : string * string :=
  let entry :=
    match claimed_key kb (get_or (Finding.issue f) "") with
    | Some k => Dict.get k kb
    | None => None
    end in
  (claimed_text (get_or (Finding.implication f) "") (option_map fst entry) no_implication,
   claimed_text (get_or (Finding.mitigation f) "") (option_map snd entry) no_mitigation).

(** The knowledge base is consulted when a text is missing; a match is
    credited once. *)
Definition claimed_credits (kb : kb_dict) (f : Finding.t) : list string :=
  if Py.nonempty (get_or (Finding.implication f) "")
     && Py.nonempty (get_or (Finding.mitigation f) "")
  then []
  else match claimed_key kb (get_or (Finding.issue f) "") with
       | Some k => [k]
       | None => []
       end.

(** The mapping [load_kb_from_db] hands to the caller. *)
Definition kb_seen (w : world) : kb_dict :=
  match cache_lookup w with Some kb => kb | None => stored_kb w end.

(** A detail page that shows the given texts. *)
Definition shows (texts : string * string) (page : document) : Prop :=
  exists heading rows,
    page = [Heading heading 2; DetailTable rows; PageBreak]
    /\ Dict.get "Implication" rows = Some (Text (fst texts))
    /\ Dict.get "Mitigation" rows = Some (Text (snd texts)).

(** An exact match, a loose match and a finding that brings its own texts. *)
Definition sample_findings : list Finding.t :=
  [sample_finding "1" "SQL Injection" "Web Vulnerabilities";
   sample_finding "2" "weak password policy on the portal" "Web Vulnerabilities";
   {| Finding.number := Some "3"; Finding.issue := Some "SQL Injection";
      Finding.classification := Some "Server Vulnerabilities";
      Finding.severity := Some "High"; Finding.severity_level := None;
      Finding.severity_status := None; Finding.responsible_party := None;
      Finding.implication := Some "Own implication";
      Finding.mitigation := Some "Own mitigation";
      Finding.affected_hosts := ["10.0.0.1"; "10.0.0.2"] |}].

(** ** Search, as the specification words it *)

Section SearchSpec.
Context `{Difflib}.

(** The greatest of [x] and [others]; among equals, the first. *)
Definition greatest (x : float) (others : list float) : float :=
  fold_left (fun best y => if PrimFloat.ltb best y then y else best) others x.

(** A token of the query that counts: longer than three characters and
    found, whatever the case of the texts, in the name, the implication or
    the mitigation. *)
Definition counts (row : kb_row) (token : string) : bool :=
  (4 <=? String.length token)%nat
  && (substring_of token (Py.lower (issue_name row))
      || substring_of token (Py.lower (implication row))
      || substring_of token (Py.lower (mitigation row))).

(** The score of one row for a lowercased query: the best of the three
    similarities, the texts discounted to 0.8; 0.15 for each query token
    that counts; the usage bonus, 0.01 for each use and 0.1 at most. *)
Definition claimed_score (q : string) (row : kb_row) : float :=
  let base :=
    greatest (ratio q (Py.lower (issue_name row)))
             [0.8 * ratio q (Py.lower (implication row));
              0.8 * ratio q (Py.lower (mitigation row))]%float in
  let tokens := List.filter (counts row) (Py.split q) in
  let with_keywords :=
    match tokens with
    | [] => base
    | _ :: _ => (base + 0.15 * Z2float (Z.of_nat (length tokens)))%float
    end in
  let uses := (Z2float (usage_count row) * 0.01)%float in
  (with_keywords + (if PrimFloat.ltb 0.1 uses then 0.1 else uses))%float.

Definition claimed_match (q : string) (row : kb_row) : kb_match :=
  {| match_issue := issue_name row;
     match_implication := implication row;
     match_mitigation := mitigation row;
     match_score := claimed_score q row;
     match_usage_count := usage_count row |}.

(** The rows that pass the threshold, as matches, in table order. *)
Definition candidates (q : string) (t : kb_table) : list kb_match :=
  map (claimed_match q)
      (List.filter (fun row => PrimFloat.ltb 0.2 (claimed_score q row)) t).

End SearchSpec.

(** [a] does not score below [b]. *)
Definition not_below (a b : kb_match) : Prop :=
  PrimFloat.ltb (match_score a) (match_score b) = false.

(** * The rest of the knowledge base and of the form *)

(** ** Statistics *)

(** The dictionary [get_kb_stats] returns. *)
Record kb_stats := {
  total : Z;
  total_usage : Z
}.

(** SUM(usage_count) *)
Definition sum_usage (t : kb_table) : Z :=
  fold_right (fun r s => usage_count r + s) 0 t.

(** SELECT COUNT( * ), SUM(usage_count); an empty table gives NULL for the
    sum, which [or 0] turns into 0. *)
Definition get_kb_stats : M kb_stats :=
  let* st := connect in
  match st with
  | Healthy =>
      let* rows := ask db in
      ret {| total := Z.of_nat (length rows); total_usage := sum_usage rows |}
  | _ => raise OperationalError
  end.

(** ** First start: [init_database] *)

(** What [init_database] tells the user: [st.success] with the number of
    entries, [st.error], or [st.warning] about the missing file. *)
Inductive notice :=
| Imported (imported : Z)
| LoadFailed
| FileMissing.

(** INSERT OR IGNORE INTO knowledge_base (issue_name, implication, mitigation) *)
Definition sql_insert_or_ignore (now : Z) (name impl mitg : string) (t : kb_table)
  : kb_table :=
  if existsb (has_issue name) t then t
  else t ++ [{| issue_name := name; implication := impl; mitigation := mitg;
                created_at := now; updated_at := now; usage_count := 0 |}].

Definition db_initialized : string := "db_initialized".

Section InitDatabase.
Context `{JsonLib}.

(** The loop over [kb_data.items()], inside the open transaction: the
    table as the transaction sees it and [imported]; [None] when an
    [execute] raises, which it does when a parameter cannot be bound.  A
    parameter bound as NULL raises nothing: OR IGNORE skips the row on the
    NOT NULL constraint as it does on the UNIQUE one, and [imported] is
    raised all the same. *)
Fixpoint init_entries (now : Z) (entries : list (string * json num))
    (t : kb_table) (imported : Z) : option (kb_table * Z) :=
  match entries with
  | [] => Some (t, imported)
  | (name, details) :: rest =>
      match details with
      | JObj d =>
          let impl := details_get "implication" d in
          let mitg := details_get "mitigation" d in
          if truthy impl && truthy mitg
          then match sqlite_value impl, sqlite_value mitg with
               | BindingError, _ | _, BindingError => None
               | BoundText i, BoundText m =>
                   init_entries now rest (sql_insert_or_ignore now name i m t)
                                (imported + 1)
               | _, _ => init_entries now rest t (imported + 1)
               end
          else init_entries now rest t imported
      | _ => init_entries now rest t imported
      end
  end.

(** [kb_file] is the text of knowledge_base.json, [None] when the file does
    not exist.  The inserts are committed after the loop only: when the
    loop raises, the connection is closed without a commit and they are
    lost. *)
Definition init_database (kb_file : option string) (ss : session)
  : M (option notice * session) :=
  if decide (db_initialized ∈ ss) then ret (None, ss)
  else
    let* st := connect in
    match st with
    | Healthy =>
        let* rows := ask db in
        let* shown :=
          if Z.of_nat (length rows) =? 0
          then match kb_file with
               | Some text =>
                   match json_loads text with
                   | Some (JObj entries) =>
                       let* now := ask clock in
                       match init_entries now entries rows 0 with
                       | Some (t, imported) =>
                           update (with_db t);;
                           ret (Some (Imported imported))
                       | None => ret (Some LoadFailed)
                       end
                   | _ => ret (Some LoadFailed)
                   end
               | None => ret (Some FileMissing)
               end
          else ret None in
        ret (shown, {[db_initialized]} ∪ ss)
    | _ => raise OperationalError
    end.

End InitDatabase.

(** ** Observations on the table *)

(** What a row is apart from its counter and its update time. *)
Definition entry_of_row (r : kb_row) : string * (string * string) :=
  (issue_name r, (implication r, mitigation r)).

(** The texts stored for an issue name. *)
Definition texts_of (name : string) (t : kb_table) : option (string * string) :=
  option_map texts (List.find (has_issue name) t).

(** The names of [t] are the first names of [t'], in the same order. *)
Definition extends (t t' : kb_table) : Prop :=
  exists more, map issue_name t' = map issue_name t ++ more.

(** The UNIQUE constraint. *)
Definition unique_names (t : kb_table) : Prop := NoDup (map issue_name t).

(** A computation that keeps a relation between the table before and the
    table after, however it ends. *)
Definition keeps (R : kb_table -> kb_table -> Prop) {A} (c : M A) : Prop :=
  forall w, R (db w) (db (world_of (c w))).

(** Every counter of [t] is the same in [t']. *)
Definition same_counters (t t' : kb_table) : Prop :=
  forall name u, usage_of name t = Some u -> usage_of name t' = Some u.

Definition is_stored (name : string) (t : kb_table) : bool :=
  existsb (has_issue name) t.

(** The texts of the last row of [rows] under an issue name. *)
Fixpoint last_named (name : string) (rows : list (string * string * string))
  : option (string * string) :=
  match rows with
  | [] => None
  | (n, i, m) :: rest =>
      match last_named name rest with
      | Some v => Some v
      | None => if String.eqb n name then Some (i, m) else None
      end
  end.

(** [a] is used at least as often as [b]. *)
Definition used_no_less (a b : kb_row) : Prop := usage_count b <= usage_count a.

Definition stays_unique (t t' : kb_table) : Prop := unique_names t -> unique_names t'.

(** An import that rewrites "SQL Injection" and adds "XSS". *)
Definition sample_merge : list (string * json Z) :=
  [("SQL Injection", entry_of "Data leaks" "Bind parameters");
   ("XSS", entry_of "Script runs" "Encode output")].

Section InitSpec.
Context `{JsonLib}.

(** The first-start load is lost as a whole: some entry that asks to be
    stored brings a value SQLite refuses as a parameter. *)
Definition first_load_fails (entries : list (string * json num)) : bool :=
  existsb (fun entry =>
             match asks_upsert entry with
             | Some (_, impl, mitg) => refused impl || refused mitg
             | None => false
             end)
          entries.

(** The rows of all the upserts, or [None] when one of them cannot be
    bound. *)
Fixpoint all_stored (calls : list (string * json num * json num))
  : option (list (string * string * string)) :=
  match calls with
  | [] => Some []
  | call :: rest =>
      match storable call, all_stored rest with
      | Some row, Some rows => Some (row :: rows)
      | _, _ => None
      end
  end.

End InitSpec.

Definition insert_all (now : Z) (rows : list (string * string * string)) (t : kb_table)
  : kb_table :=
  fold_left (fun t '(name, i, m) => sql_insert_or_ignore now name i m t) rows t.

Definition row_name (row : string * string * string) : string := fst (fst row).

(** ** Crediting during a report *)

(** The session credits [name] now and did not at the start. *)
Definition newly_credited (ss0 ss : session) (name : string) : bool :=
  bool_decide (session_key name ∈ ss /\ session_key name ∉ ss0).

(** From session [ss0] and table [t0] to session [ss] and table [t]: no
    session key is lost, names and texts are the same, and a counter is one
    higher exactly when its name was credited on the way. *)
Definition credited_once (ss0 : session) (t0 : kb_table) (ss : session) (t : kb_table)
  : Prop :=
  ss0 ⊆ ss
  /\ map entry_of_row t = map entry_of_row t0
  /\ forall name,
      usage_of name t
      = option_map (fun u => if newly_credited ss0 ss name then u + 1 else u)
                   (usage_of name t0).

(** A computation that credits at most once; [sess] reads the session out
    of its result. *)
Definition credits {A} (sess : A -> session) (ss0 : session) (c : M A) : Prop :=
  forall w,
    match c w with
    | Done a w' => credited_once ss0 (db w) (sess a) (db w')
    | Raised _ w' => exists ss, credited_once ss0 (db w) ss (db w')
    end.

(** ** Master table: what is left out *)

Definition is_finding_row (r : master_row) : bool :=
  match r with FindingRow _ _ _ _ _ _ => true | _ => false end.

(** The classification of the finding is one of the three group names. *)
Definition is_known (f : Finding.t) : bool :=
  existsb (fun c => is_classified c f) classifications.

(** ** The form: imported addresses and the checks before generating *)

(** An entry of the IP inventory: [{'ip': .., 'host': ..}]. *)
Definition ip_entry := (string * string)%type.

(** The loop that fills [unique_ips], with [seen]. *)
Fixpoint unique_ips_loop (extracted : list ip_entry) (seen : gset string)
    (unique_ips : list ip_entry) : list ip_entry :=
  match extracted with
  | [] => unique_ips
  | entry :: rest =>
      let ip_key := fst entry in
      if decide (ip_key ∈ seen) then unique_ips_loop rest seen unique_ips
      else unique_ips_loop rest ({[ip_key]} ∪ seen) (unique_ips ++ [entry])
  end.

Definition unique_ips (extracted : list ip_entry) : list ip_entry :=
  unique_ips_loop extracted ∅ [].

(** The inventory after "Import IPs from File": replaced by the distinct
    addresses, or kept when nothing was extracted. *)
Definition import_ips (ip_inventory extracted : list ip_entry) : list ip_entry :=
  match extracted with
  | [] => ip_inventory
  | _ :: _ => unique_ips extracted
  end.

(** The lines of the list shown before the report can be generated;
    findings are counted from 1. *)
Inductive problem :=
| NameRequired
| FindingRequired
| NumberMissing (position : nat)
| IssueMissing (position : nat).

(** [f.get(key)] is truthy. *)
Definition filled (field : option string) : bool :=
  match field with Some s => Py.nonempty s | None => false end.

(** The loop over [enumerate(findings)], from index [idx], on the state
    ([can_generate], [issues]). *)
Fixpoint check_findings (idx : nat) (findings : list Finding.t)
    (state : bool * list problem) : bool * list problem :=
  match findings with
  | [] => state
  | f :: rest =>
      let state :=
        if filled (Finding.number f) then state
        else (false, snd state ++ [NumberMissing (idx + 1)]) in
      let state :=
        if filled (Finding.issue f) then state
        else (false, snd state ++ [IssueMissing (idx + 1)]) in
      check_findings (S idx) rest state
  end.

(** ([can_generate], [issues]) as Step 3 of the form computes them. *)
Definition check_report (app_name : string) (findings : list Finding.t)
  : bool * list problem :=
  let state := (true, []) in
  let state :=
    if Py.nonempty app_name then state else (false, snd state ++ [NameRequired]) in
  match findings with
  | [] => (false, snd state ++ [FindingRequired])
  | _ :: _ => check_findings 0 findings state
  end.

(** A finding ready for the report. *)
Definition complete (f : Finding.t) : Prop :=
  filled (Finding.number f) = true /\ filled (Finding.issue f) = true.

(** Two entries that a query for "tls" cannot tell apart, and a better one
    stored after them. *)
Definition tied_table : kb_table :=
  [sample_row "TLS 1.0" "x" "y" 0;
   sample_row "TLS 1.1" "x" "y" 0;
   sample_row "TLS" "x" "y" 0].

(** The entries of [extracted] that the loop appends: each one whose address
    is neither in [seen] nor earlier in the list. *)
Fixpoint first_entries (seen : gset string) (extracted : list ip_entry) : list ip_entry :=
  match extracted with
  | [] => []
  | entry :: rest =>
      if decide (fst entry ∈ seen) then first_entries seen rest
      else entry :: first_entries ({[fst entry]} ∪ seen) rest
  end.

Definition sample_addresses : list ip_entry :=
  [("10.0.0.1", "web"); ("10.0.0.2", "db")].

(** The lines one finding at index [idx] adds to the list. *)
Definition finding_problems (idx : nat) (f : Finding.t) : list problem :=
  (if filled (Finding.number f) then [] else [NumberMissing (idx + 1)])
  ++ (if filled (Finding.issue f) then [] else [IssueMissing (idx + 1)]).

Fixpoint problems_from (idx : nat) (findings : list Finding.t) : list problem :=
  match findings with
  | [] => []
  | f :: rest => finding_problems idx f ++ problems_from (S idx) rest
  end.

Definition completeb (f : Finding.t) : bool :=
  filled (Finding.number f) && filled (Finding.issue f).

(** ** The form: picking a suggestion *)

Definition placeholder : string := "-- Select a similar issue from KB --".

(** [s.replace(c, '')] for a single character. *)
Definition remove_char (c : ascii) (s : string) : string :=
  Py.filter_chars (fun x => negb (Ascii.eqb x c)) s.

(** The line shown for an entry: at most 70 characters of its name, then
    three dots, on one line. *)
Definition issue_preview (issue : string) : string :=
  let issue_preview :=
    if 70 <? Py.len issue then String.substring 0 70 issue +:+ "..." else issue in
  remove_char "013" (Py.replace_char "010" " " issue_preview).

Definition suggestion_options (similar_entries : list kb_match) : list string :=
  placeholder :: map (fun entry => issue_preview (match_issue entry)) similar_entries.

(** [l.index(x)]; [None] stands for [ValueError]. *)
Fixpoint index_of (x : string) (l : list string) : option nat :=
  match l with
  | [] => None
  | y :: l' => if String.eqb y x then Some O else option_map S (index_of x l')
  end.

(** [l[i]], a negative [i] counting from the end; [None] stands for
    [IndexError]. *)
Definition py_nth {A} (i : Z) (l : list A) : option A :=
  if 0 <=? i then l !! Z.to_nat i
  else if 0 <=? Z.of_nat (length l) + i then l !! Z.to_nat (Z.of_nat (length l) + i)
  else None.

Inductive selection :=
| NoSelection
| Selected (entry : kb_match)
| SelectionError.

(** The entry whose issue, implication and mitigation are copied into the
    finding, given the option the select box returned. *)
Definition selected_entry (similar_entries : list kb_match) (selected_issue : string)
  : selection :=
  if String.eqb selected_issue placeholder then NoSelection
  else
    match index_of selected_issue (suggestion_options similar_entries) with
    | Some i =>
        let selected_idx := Z.of_nat i - 1 in
        match py_nth selected_idx similar_entries with
        | Some entry => Selected entry
        | None => SelectionError
        end
    | None => SelectionError
    end.

(** The entries shown with the same line as [entry]. *)
Definition same_preview (entry other : kb_match) : bool :=
  String.eqb (issue_preview (match_issue other)) (issue_preview (match_issue entry)).

Definition long_name (ending : string) : string :=
  "Cross-site scripting in the search field of the customer self-service portal " +:+ ending.

Definition sample_suggestions : list kb_match :=
  [{| match_issue := long_name "(stored)"; match_implication := "a"; match_mitigation := "b";
      match_score := 1; match_usage_count := 0 |};
   {| match_issue := long_name "(reflected)"; match_implication := "c"; match_mitigation := "d";
      match_score := 1; match_usage_count := 0 |};
   {| match_issue := "Weak TLS"; match_implication := "e"; match_mitigation := "f";
      match_score := 1; match_usage_count := 0 |}].

(** ** Addresses from a CSV file

    [pd.read_csv] is not modelled: the frame is given by its column names
    and, for every row, the text [str(value)] of each cell under the name of
    its column.  An exception inside the function ends in its handler,
    which returns the empty list. *)

Definition csv_row := list (string * string).

Record data_frame := {
  columns : list string;
  records : list csv_row
}.

Definition is_none {A} (o : option A) : bool :=
  match o with None => true | Some _ => false end.

Definition names_address (col : string) : bool :=
  Py.contains "ip" (Py.lower col).

Definition names_host (col : string) : bool :=
  existsb (fun keyword => Py.contains keyword (Py.lower col)) ["host"; "name"; "server"].

(** The loop [for col in df.columns] on ([ip_col], [host_col]). *)
Fixpoint pick_columns (cols : list string) (ip_col host_col : option string)
  : option string * option string :=
  match cols with
  | [] => (ip_col, host_col)
  | col :: rest =>
      let ip_col := if names_address col && is_none ip_col then Some col else ip_col in
      let host_col := if names_host col && is_none host_col then Some col else host_col in
      pick_columns rest ip_col host_col
  end.

(** truth value of a column name that may be [None] *)
Definition chosen (col : option string) : bool :=
  match col with Some c => Py.nonempty c | None => false end.

(** The loop [for idx, row in df.iterrows()], appending to [ip_list];
    [None] when [row[ip_col]] or [row[host_col]] raises. *)
Fixpoint csv_rows (ip_col host_col : option string) (rows : list csv_row)
    (ip_list : list ip_entry) : option (list ip_entry) :=
  match rows with
  | [] => Some ip_list
  | row :: rest =>
      let ip_addr :=
        if chosen ip_col
        then option_map Py.strip (Dict.get (default "" ip_col) row)
        else Some "" in
      let hostname :=
        if chosen host_col && Dict.mem (default "" host_col) row
        then option_map Py.strip (Dict.get (default "" host_col) row)
        else Some "" in
      match ip_addr, hostname with
      | Some ip_addr, Some hostname =>
          if Py.nonempty ip_addr && negb (String.eqb ip_addr "nan")
          then csv_rows ip_col host_col rest (ip_list ++ [(ip_addr, hostname)])
          else csv_rows ip_col host_col rest ip_list
      | _, _ => None
      end
  end.

Definition extract_ips_from_csv (df : data_frame) : list ip_entry :=
  let (ip_col, host_col) := pick_columns (columns df) None None in
  if chosen ip_col
  then match csv_rows ip_col host_col (records df) [] with
       | Some ip_list => ip_list
       | None => []
       end
  else [].

(** A column whose name, in lower case, contains [word]. *)
Definition mentions (word col : string) : bool :=
  substring_of word (Py.lower col).

(** An address as the loop accepts it. *)
Definition is_address (text : string) : bool :=
  Py.nonempty text && negb (String.eqb text "nan").

(** The entry a row gives, if any. *)
Definition entry_of_record (ip_col : string) (host_col : option string) (row : csv_row)
  : option ip_entry :=
  match Dict.get ip_col row with
  | Some raw =>
      if is_address (Py.strip raw)
      then Some (Py.strip raw,
                 match host_col with
                 | Some h => match Dict.get h row with
                             | Some host => if Py.nonempty h then Py.strip host else ""
                             | None => ""
                             end
                 | None => ""
                 end)
      else None
  | None => None
  end.

Definition sample_frame : data_frame :=
  {| columns := ["Description"; "IP"; "Hostname"];
     records := [[("Description", " mail relay "); ("IP", "10.0.0.7"); ("Hostname", "mx1")];
                 [("Description", "nan"); ("IP", "10.0.0.8"); ("Hostname", "mx2")]] |}.

(** * Properties *)

(** ** Strings *)

Example lower_mixed : Py.lower "SQL Injection" = "sql injection".
Proof. reflexivity. Qed.

Example split_runs :
  Py.split "  sql   injection attack " = ["sql"; "injection"; "attack"].
Proof. reflexivity. Qed.

Example strip_both : Py.strip "  a b  " = "a b".
Proof. reflexivity. Qed.

Example contains_cases :
  Py.contains "ject" "injection" = true /\ Py.contains "" "x" = true
  /\ Py.contains "xy" "x" = false.
Proof. repeat split; reflexivity. Qed.

(** [in] on strings is the substring test of the Standard Library. *)
Lemma contains_substring_of (part text : string) :
  Py.contains part text = substring_of part text.
Proof.
  unfold substring_of. induction text as [|c text IH].
  - simpl. destruct part; reflexivity.
  - cbn [Py.contains String.index]. rewrite IH.
    destruct (String.prefix part (String c text)); [reflexivity|].
    cbn [orb]. destruct (String.index 0 part text); reflexivity.
Qed.

Example substring_of_cases :
  substring_of "ject" "injection" = true /\ substring_of "" "x" = true
  /\ substring_of "xy" "x" = false /\ substring_nocase "SQL" "Blind sql injection" = true.
Proof. repeat split; reflexivity. Qed.

(** ** Output file name *)

Lemma safe_space (c : ascii) : safe_char c = true -> Py.isspace c = Ascii.eqb c " ".
Proof.
  destruct c as [[] [] [] [] [] [] [] []]; vm_compute; intros; congruence.
Qed.

Lemma filter_chars_all (keep : ascii -> bool) (s : string) (c : ascii) :
  In c (list_ascii_of_string (Py.filter_chars keep s)) -> keep c = true.
Proof.
  induction s as [|a s IH]; simpl; [tauto|].
  destruct (keep a) eqn:E; simpl; [|exact IH].
  intros [<-|Hin]; auto.
Qed.

Lemma lstrip_safe (s : string) : all_safe s -> Py.lstrip s = drop_leading_spaces s.
Proof.
  induction s as [|a s IH]; simpl; intros Hs; [reflexivity|].
  rewrite (safe_space a) by (apply Hs; simpl; auto).
  destruct (Ascii.eqb a " "); [|reflexivity].
  apply IH. intros c Hc. apply Hs. simpl. auto.
Qed.

Lemma lstrip_keeps_safe (s : string) : all_safe s -> all_safe (drop_leading_spaces s).
Proof.
  induction s as [|a s IH]; simpl; intros Hs; [exact Hs|].
  destruct (Ascii.eqb a " "); [|exact Hs].
  apply IH. intros c Hc. apply Hs. simpl. auto.
Qed.

Lemma rstrip_safe (s : string) : all_safe s -> Py.rstrip s = drop_trailing_spaces s.
Proof.
  induction s as [|a s IH]; simpl; intros Hs; [reflexivity|].
  rewrite IH by (intros c Hc; apply Hs; simpl; auto).
  rewrite (safe_space a) by (apply Hs; simpl; auto).
  destruct (drop_trailing_spaces s); simpl.
  - destruct (Ascii.eqb a " "); reflexivity.
  - rewrite andb_false_r. reflexivity.
Qed.

Lemma strip_safe (s : string) : all_safe s -> Py.strip s = trim_spaces s.
Proof.
  intros Hs. unfold Py.strip, trim_spaces.
  rewrite (lstrip_safe s Hs). apply rstrip_safe, lstrip_keeps_safe, Hs.
Qed.

Lemma drop_trailing_sub (s : string) (c : ascii) :
  In c (list_ascii_of_string (drop_trailing_spaces s)) -> In c (list_ascii_of_string s).
Proof.
  induction s as [|a s IH]; simpl; [tauto|].
  destruct (drop_trailing_spaces s) eqn:E.
  - destruct (Ascii.eqb a " "); simpl; tauto.
  - simpl in *. tauto.
Qed.

Lemma drop_leading_sub (s : string) (c : ascii) :
  In c (list_ascii_of_string (drop_leading_spaces s)) -> In c (list_ascii_of_string s).
Proof.
  induction s as [|a s IH]; simpl; [tauto|].
  destruct (Ascii.eqb a " "); simpl; tauto.
Qed.

Lemma replace_char_in (a b : ascii) (s : string) (c : ascii) :
  In c (list_ascii_of_string (Py.replace_char a b s)) ->
  c <> a \/ c = b.
Proof.
  induction s as [|x s IH]; simpl; [tauto|].
  destruct (Ascii.eqb_spec x a) as [->|Hne]; intros [<-|Hin]; auto.
Qed.

Lemma replace_char_from (a b : ascii) (s : string) (c : ascii) :
  In c (list_ascii_of_string (Py.replace_char a b s)) ->
  c = b \/ In c (list_ascii_of_string s).
Proof.
  induction s as [|x s IH]; simpl; [tauto|].
  destruct (Ascii.eqb x a); intros [<-|Hin]; auto; destruct (IH Hin); auto.
Qed.

(** C9 (as amended): the file name is the application name with every
    character outside [0-9a-zA-Z-_ ] removed, then leading and trailing
    spaces removed, then every remaining space replaced by an underscore,
    followed by "_v1.0.docx".  No character of the base is a space or lies
    outside the class, and "My App! 2024" gives the base "My_App_2024". *)
Theorem filename_sanitized (app_name : string) :
  filename app_name
  = Py.replace_char " " "_" (trim_spaces (Py.filter_chars safe_char app_name))
    +:+ "_v1.0.docx"
  /\ (forall c, In c (list_ascii_of_string (safe_name app_name)) ->
                safe_char c = true /\ c <> " "%char)
  /\ safe_name "My App! 2024" = "My_App_2024".
Proof.
  assert (Hsafe : all_safe (Py.filter_chars safe_char app_name))
    by (intros c; apply filter_chars_all).
  split; [|split].
  - unfold filename, safe_name, version. rewrite (strip_safe _ Hsafe). reflexivity.
  - intros c Hc. unfold safe_name in Hc. rewrite (strip_safe _ Hsafe) in Hc. split.
    + destruct (replace_char_from _ _ _ _ Hc) as [->|Hin]; [reflexivity|].
      apply Hsafe. unfold trim_spaces in Hin.
      apply drop_leading_sub, drop_trailing_sub, Hin.
    + destruct (replace_char_in _ _ _ _ Hc) as [Hne| ->]; [exact Hne|discriminate].
  - reflexivity.
Qed.

(** C9 (as worded) fails on a name that starts with a space: the code
    strips it, the sentence would turn it into an underscore. *)
Lemma filename_strips_outer_spaces :
  filename " Acme" = "Acme_v1.0.docx"
  /\ claimed_filename " Acme" = "_Acme_v1.0.docx"
  /\ filename " Acme" <> claimed_filename " Acme".
Proof. repeat split; try reflexivity. vm_compute. discriminate. Qed.

(** Hyphen and underscore are kept, other punctuation is not. *)
Example filename_keeps_hyphen :
  filename "web-shop_2 (beta)" = "web-shop_2_beta_v1.0.docx".
Proof. reflexivity. Qed.

(** The name [generate_report] returns with the document is that file name;
    a missing application name counts as "Application". *)
Lemma generate_report_filename (data : report_data)
    (uploaded_images : list (string * list string)) (ss ss' : session)
    (doc : document) (name : string) (w w' : world) :
  generate_report data uploaded_images ss w = Done (doc, name, ss') w' ->
  name = filename (default "Application" (application_name data)).
Proof.
  unfold generate_report, bind, ret.
  destruct (generate_finding_pages _ _ _ _ _ w) as [[doc' ss''] w''|e w'']; [|discriminate].
  intros [= _ <- _ _]. unfold get_or. now destruct (application_name data).
Qed.

(** ** Search: short queries *)

(** C4: a query that is empty or shorter than three characters makes
    [search_kb_db] return the empty list, whatever the store holds, without
    touching the database. *)
Theorem search_short_query `{Difflib} (query : string) (top_n : Z) (w : world) :
  (String.length query < 3)%nat -> search_kb_db query top_n w = Done [] w.
Proof.
  intros Hlen. unfold search_kb_db.
  destruct query as [|a [|b [|c q]]]; simpl in Hlen; try lia; reflexivity.
Qed.

Lemma search_short_query_witness :
  search_kb_db (H := DifflibModel.lib) "ab" 5 (quiet_world sample_table)
  = Done [] (quiet_world sample_table).
Proof. apply search_short_query. simpl. lia. Defined.

(** ** Findings master table *)

Lemma fold_append_rows (l : list Finding.t) (rows : list master_row) :
  fold_left (fun rows f => rows ++ [finding_row f]) l rows = rows ++ map finding_row l.
Proof.
  revert rows. induction l as [|f l IH]; intros rows; simpl.
  - now rewrite app_nil_r.
  - rewrite IH, <- app_assoc. reflexivity.
Qed.

Lemma add_classification_group (findings : list Finding.t) (rows : list master_row)
    (c : string) :
  add_classification findings rows c = rows ++ group findings c.
Proof.
  unfold add_classification, group.
  destruct (List.filter (is_classified c) findings) as [|f l].
  - now rewrite app_nil_r.
  - rewrite fold_append_rows, <- app_assoc. reflexivity.
Qed.

Lemma master_rows_groups (findings : list Finding.t) :
  master_rows findings = HeaderRow :: flat_map (group findings) classifications.
Proof.
  unfold master_rows, classifications. simpl.
  rewrite !add_classification_group, app_nil_r, <- !app_assoc. reflexivity.
Qed.

Lemma findings_of_filter (c : string) (findings : list Finding.t) :
  List.filter (is_classified c) findings = findings_of c findings.
Proof.
  induction findings as [|f rest IH]; [reflexivity|].
  cbn [List.filter findings_of]. rewrite IH. unfold is_classified.
  destruct (decide (Finding.classification f = Some c)) as [Heq|Hne].
  - rewrite Heq. now rewrite String.eqb_refl.
  - destruct (Finding.classification f) as [c'|]; [|reflexivity].
    destruct (String.eqb_spec c' c) as [->|_]; [congruence|reflexivity].
Qed.

Lemma view_finding_rows (l : list Finding.t) :
  map view (map finding_row l)
  = map (fun f => FindingLine (default "" (Finding.number f))
                              (default "" (Finding.issue f))) l.
Proof.
  rewrite map_map. apply map_ext. intros f. unfold finding_row, get_or. cbn [view].
  destruct (Finding.number f), (Finding.issue f); reflexivity.
Qed.

Lemma view_group (findings : list Finding.t) (c : string) :
  map view (group findings c) = claimed_group c findings.
Proof.
  unfold group, claimed_group. rewrite findings_of_filter.
  destruct (findings_of c findings) as [|f more]; [reflexivity|].
  cbn [map view]. f_equal. apply (view_finding_rows (f :: more)).
Qed.

(** C8: [add_findings_master_table] appends the heading, one table and a
    page break.  Read row by row, the table is its header followed by the
    group of "Mobile Application Vulnerability", then that of "Server
    Vulnerabilities", then that of "Web Vulnerabilities"; a classification
    without a finding contributes nothing, not even a header, and any other
    group is its header followed by one line, number and issue, for each
    finding of that classification, in the order of the findings. *)
Theorem master_table_grouped (doc : document) (findings : list Finding.t) :
  exists rows,
    add_findings_master_table doc findings
    = doc ++ [Heading "Findings Master List" 2; MasterTable rows; PageBreak]
    /\ map view rows = claimed_master_table findings.
Proof.
  exists (master_rows findings). split; [reflexivity|].
  rewrite master_rows_groups. unfold claimed_master_table, classifications.
  cbn [flat_map map view]. rewrite app_nil_r, !map_app, !view_group. reflexivity.
Qed.

(** One server finding and two web findings: two groups, Server before Web,
    and no Mobile header. *)
Example master_table_two_groups :
  master_rows [sample_finding "1" "Open SSH" "Web Vulnerabilities";
               sample_finding "2" "Old TLS" "Server Vulnerabilities";
               sample_finding "3" "XSS" "Web Vulnerabilities"]
  = [HeaderRow;
     ClassificationRow "Server Vulnerabilities";
     FindingRow "2" "Old TLS" "High" "Open" (Some "FF0000") "IT";
     ClassificationRow "Web Vulnerabilities";
     FindingRow "1" "Open SSH" "High" "Open" (Some "FF0000") "IT";
     FindingRow "3" "XSS" "High" "Open" (Some "FF0000") "IT"]
  /\ claimed_master_table [sample_finding "1" "Open SSH" "Web Vulnerabilities";
                           sample_finding "2" "Old TLS" "Server Vulnerabilities";
                           sample_finding "3" "XSS" "Web Vulnerabilities"]
     = [TableHeader;
        GroupHeader "Server Vulnerabilities"; FindingLine "2" "Old TLS";
        GroupHeader "Web Vulnerabilities"; FindingLine "1" "Open SSH";
        FindingLine "3" "XSS"].
Proof. split; reflexivity. Qed.

(** ** Usage counters *)

Lemma grows_refl (t : kb_table) : grows t t.
Proof. intros name u Hu. exists u. split; [exact Hu|lia]. Qed.

Lemma grows_trans (t1 t2 t3 : kb_table) : grows t1 t2 -> grows t2 t3 -> grows t1 t3.
Proof.
  intros H12 H23 name u Hu.
  destruct (H12 name u Hu) as (u2 & Hu2 & Hle2).
  destruct (H23 name u2 Hu2) as (u3 & Hu3 & Hle3).
  exists u3. split; [exact Hu3|lia].
Qed.

Lemma find_map_rows (g : kb_row -> kb_row) (name : string) (t : kb_table) :
  (forall r, issue_name (g r) = issue_name r) ->
  List.find (has_issue name) (map g t) = option_map g (List.find (has_issue name) t).
Proof.
  intros Hg. induction t as [|r t IH]; simpl; [reflexivity|].
  unfold has_issue at 1 3. rewrite Hg.
  destruct (String.eqb (issue_name r) name); [reflexivity|exact IH].
Qed.

Lemma grows_map (g : kb_row -> kb_row) (t : kb_table) :
  (forall r, issue_name (g r) = issue_name r) ->
  (forall r, usage_count r <= usage_count (g r)) ->
  grows t (map g t).
Proof.
  intros Hname Hcount name u Hu. unfold usage_of in *.
  rewrite (find_map_rows g name t Hname).
  destruct (List.find (has_issue name) t) as [r|]; [|discriminate].
  simpl in *. injection Hu as <-. eexists. split; [reflexivity|apply Hcount].
Qed.

Lemma find_app_some {A} (p : A -> bool) (l l' : list A) (x : A) :
  List.find p l = Some x -> List.find p (l ++ l') = Some x.
Proof.
  induction l as [|y l IH]; simpl; [discriminate|].
  destruct (p y); [auto|exact IH].
Qed.

Lemma grows_app (t t' : kb_table) : grows t (t ++ t').
Proof.
  intros name u Hu. unfold usage_of in *.
  destruct (List.find (has_issue name) t) as [r|] eqn:E; [|discriminate].
  rewrite (find_app_some _ _ t' _ E). exists u. split; [exact Hu|lia].
Qed.

Lemma sql_upsert_grows (now : Z) (name impl mitg : string) (t : kb_table) :
  grows t (sql_upsert now name impl mitg t).
Proof.
  unfold sql_upsert. destruct (existsb (has_issue name) t).
  - apply grows_map; intros r; destruct (has_issue name r); simpl; lia || reflexivity.
  - apply grows_app.
Qed.

Lemma sql_increment_grows (name : string) (t : kb_table) :
  grows t (sql_increment name t).
Proof.
  apply grows_map; intros r; destruct (has_issue name r); simpl; lia || reflexivity.
Qed.

Lemma usage_of_increment (name : string) (t : kb_table) (u : Z) :
  usage_of name t = Some u -> usage_of name (sql_increment name t) = Some (u + 1).
Proof.
  unfold usage_of, sql_increment. intros Hu.
  rewrite find_map_rows by (intros r; destruct (has_issue name r); reflexivity).
  destruct (List.find (has_issue name) t) as [r|] eqn:E; [|discriminate].
  apply find_some in E. destruct E as [_ E]. simpl in *. rewrite E. simpl.
  injection Hu as <-. reflexivity.
Qed.

Lemma keeps_ret {A} (a : A) : keeps_usage (ret a).
Proof. intros w. apply grows_refl. Qed.

Lemma keeps_raise {A} (e : exn) : keeps_usage (raise (A := A) e).
Proof. intros w. apply grows_refl. Qed.

Lemma keeps_ask {A} (f : world -> A) : keeps_usage (ask f).
Proof. intros w. apply grows_refl. Qed.

Lemma keeps_update (f : world -> world) :
  (forall w, grows (db w) (db (f w))) -> keeps_usage (update f).
Proof. intros Hf w. apply Hf. Qed.

Lemma keeps_bind {A B} (c : M A) (k : A -> M B) :
  keeps_usage c -> (forall a, keeps_usage (k a)) -> keeps_usage (bind c k).
Proof.
  intros Hc Hk w. unfold bind. specialize (Hc w).
  destruct (c w) as [a w'|e w']; simpl in *; [|exact Hc].
  eapply grows_trans; [exact Hc|apply Hk].
Qed.

Lemma keeps_try {A} (c : M A) (handler : exn -> M A) :
  keeps_usage c -> (forall e, keeps_usage (handler e)) -> keeps_usage (try_except c handler).
Proof.
  intros Hc Hh w. unfold try_except. specialize (Hc w).
  destruct (c w) as [a w'|e w']; simpl in *; [exact Hc|].
  eapply grows_trans; [exact Hc|apply Hh].
Qed.

Lemma keeps_connect : keeps_usage connect.
Proof.
  intros w. unfold connect. destruct (faults w) as [|[] fs]; apply grows_refl.
Qed.

Lemma keeps_execute (st : storage) (f : kb_table -> kb_table) :
  (forall t, grows t (f t)) -> keeps_usage (execute st f).
Proof.
  intros Hf. destruct st; simpl; try apply keeps_raise.
  apply keeps_update. intros w. apply Hf.
Qed.

Lemma keeps_st_error (a : alert) : keeps_usage (st_error a).
Proof. apply keeps_update. intros w. apply grows_refl. Qed.

Create HintDb keeps.
#[local] Hint Resolve keeps_ret keeps_raise keeps_ask keeps_connect keeps_st_error
  sql_upsert_grows sql_increment_grows grows_refl : keeps.

(** Walks through a computation built from the lemmas above. *)
Ltac keeps_step :=
  match goal with
  | |- keeps_usage (bind _ _) => apply keeps_bind; [|intros]
  | |- keeps_usage (try_except _ _) => apply keeps_try; [|intros]
  | |- keeps_usage (update _) => apply keeps_update; intros; simpl
  | |- keeps_usage (execute _ _) => apply keeps_execute; intros
  | |- keeps_usage (match ?x with _ => _ end) => destruct x
  | |- keeps_usage _ => solve [auto with keeps]
  | |- grows _ _ => solve [auto with keeps]
  end.
Ltac keeps := repeat keeps_step.

Lemma keeps_load : keeps_usage load_kb_from_db.
Proof. unfold load_kb_from_db, load_kb_from_db_body. keeps. Qed.

Lemma keeps_increment (name : string) (ss : session) :
  keeps_usage (increment_kb_usage name ss).
Proof. unfold increment_kb_usage. keeps. Qed.

Lemma keeps_search `{Difflib} (query : string) (top_n : Z) :
  keeps_usage (search_kb_db query top_n).
Proof. unfold search_kb_db. keeps. Qed.

Lemma keeps_add `{JsonLib} (name : string) (impl mitg : json num) :
  keeps_usage (add_to_kb_db name impl mitg).
Proof. unfold add_to_kb_db. keeps. Qed.

Lemma keeps_export `{JsonLib} : keeps_usage export_kb_to_json.
Proof. unfold export_kb_to_json. keeps. apply keeps_load. Qed.

Lemma keeps_import_entries `{JsonLib} (entries : list (string * json num)) (count : Z) :
  keeps_usage (import_entries entries count).
Proof.
  revert count. induction entries as [|[name details] rest IH]; intros count; simpl.
  - apply keeps_ret.
  - destruct details; try apply IH.
    destruct (truthy _ && truthy _); [|apply IH].
    apply keeps_bind; [apply keeps_add|intros ok; apply IH].
Qed.

Lemma keeps_import `{JsonLib} (json_data : json num) :
  keeps_usage (import_kb_from_json json_data).
Proof.
  unfold import_kb_from_json. apply keeps_try; [|intros; keeps].
  apply keeps_bind.
  - destruct json_data; try apply keeps_ret.
    destruct (json_loads s); [apply keeps_ret|apply keeps_raise].
  - intros data. destruct data; try apply keeps_raise. apply keeps_import_entries.
Qed.

Lemma keeps_find_kb_key (kb : kb_dict) (issue : string) (ss : session) :
  keeps_usage (find_kb_key kb issue ss).
Proof.
  unfold find_kb_key. destruct (Dict.mem issue kb).
  - apply keeps_bind; [apply keeps_increment|intros; apply keeps_ret].
  - destruct (List.find _ _); [|apply keeps_ret].
    apply keeps_bind; [apply keeps_increment|intros; apply keeps_ret].
Qed.

Lemma keeps_resolve_texts (kb : kb_dict) (f : Finding.t) (ss : session) :
  keeps_usage (resolve_texts kb f ss).
Proof.
  unfold resolve_texts. apply keeps_bind.
  - destruct (negb _ || negb _); [|apply keeps_ret].
    apply keeps_bind; [apply keeps_find_kb_key|].
    intros [[k|] ss']; [destruct (Py.nonempty k)|]; apply keeps_ret.
  - intros [[i m] ss']. apply keeps_ret.
Qed.

Lemma keeps_finding_pages (kb : kb_dict) (imgs : list (string * list string))
    (findings : list Finding.t) (doc : document) (ss : session) :
  keeps_usage (finding_pages kb imgs findings doc ss).
Proof.
  revert doc ss. induction findings as [|f rest IH]; intros doc ss; simpl.
  - apply keeps_ret.
  - apply keeps_bind; [|intros [page ss']; apply IH].
    unfold finding_page. apply keeps_bind; [apply keeps_resolve_texts|].
    intros [[i m] ss']. apply keeps_ret.
Qed.

Lemma keeps_generate_finding_pages (doc : document) (findings : list Finding.t)
    (inv : list (string * string)) (imgs : list (string * list string)) (ss : session) :
  keeps_usage (generate_finding_pages doc findings inv imgs ss).
Proof.
  unfold generate_finding_pages.
  apply keeps_bind; [apply keeps_load|intros kb; apply keeps_finding_pages].
Qed.

Lemma after_grows `{JsonLib} `{Difflib} (op : operation) (w : world) :
  grows (db w) (db (after op w)).
Proof.
  destruct op; simpl.
  - apply keeps_load.
  - apply keeps_add.
  - apply keeps_increment.
  - apply keeps_search.
  - apply keeps_export.
  - apply keeps_import.
  - apply keeps_generate_finding_pages.
  - unfold generate_report.
    apply keeps_bind; [apply keeps_generate_finding_pages|].
    intros [doc ss']. apply keeps_ret.
Qed.

Lemma increment_fresh (name : string) (ss : session) (w : world) :
  faults w = [] -> session_key name ∉ ss ->
  increment_kb_usage name ss w
  = Done ({[session_key name]} ∪ ss)
         (with_db (sql_increment name (db w)) (with_credit name w)).
Proof.
  intros Hf Hnot. unfold increment_kb_usage, bind, update, connect. simpl.
  destruct (decide (session_key name ∈ ss)); [contradiction|].
  simpl. rewrite Hf. reflexivity.
Qed.

Lemma increment_again (name : string) (ss : session) (w : world) :
  session_key name ∈ ss ->
  increment_kb_usage name ss w = Done ss (with_credit name w).
Proof.
  intros Hin. unfold increment_kb_usage, bind, update. simpl.
  destruct (decide (session_key name ∈ ss)); [reflexivity|contradiction].
Qed.

(** C5: for a stored issue name, two calls of [increment_kb_usage] in one
    session that has not credited the name raise its counter by exactly 1
    (the second call changes nothing), one call in each of two such sessions
    raises it by exactly 2, and no operation on the knowledge base lowers or
    removes any counter. *)
Theorem usage_once_per_session `{JsonLib} `{Difflib}
    (name : string) (u : Z) (w : world) (s s1 s2 : session) :
  faults w = [] ->
  usage_of name (db w) = Some u ->
  session_key name ∉ s -> session_key name ∉ s1 -> session_key name ∉ s2 ->
  (exists s' w1 w2,
      increment_kb_usage name s w = Done s' w1
      /\ increment_kb_usage name s' w1 = Done s' w2
      /\ usage_of name (db w1) = Some (u + 1)
      /\ usage_of name (db w2) = Some (u + 1))
  /\ (exists s1' s2' w1 w2,
         increment_kb_usage name s1 w = Done s1' w1
         /\ increment_kb_usage name s2 w1 = Done s2' w2
         /\ usage_of name (db w2) = Some (u + 2))
  /\ (forall op w0 n v,
         usage_of n (db w0) = Some v ->
         exists v', usage_of n (db (after op w0)) = Some v' /\ v <= v').
Proof.
  intros Hf Hu Hs Hs1 Hs2. split; [|split].
  - eexists _, _, _. split; [apply increment_fresh; assumption|].
    split; [apply increment_again; set_solver|].
    simpl. split; apply usage_of_increment, Hu.
  - eexists _, _, _, _. split; [apply increment_fresh; assumption|].
    split; [apply increment_fresh; [exact Hf|exact Hs2]|].
    simpl. replace (u + 2) with (u + 1 + 1) by lia.
    apply usage_of_increment, usage_of_increment, Hu.
  - intros op w0 n v Hv. exact (after_grows op w0 n v Hv).
Qed.

Lemma usage_once_per_session_witness :
  exists s' w1 w2,
    increment_kb_usage "SQL Injection" ∅ (quiet_world sample_table) = Done s' w1
    /\ increment_kb_usage "SQL Injection" s' w1 = Done s' w2
    /\ usage_of "SQL Injection" (db w1) = Some (0 + 1)
    /\ usage_of "SQL Injection" (db w2) = Some (0 + 1).
Proof.
  refine (proj1 (usage_once_per_session (H := JsonModel.lib) (H0 := DifflibModel.lib)
                   "SQL Injection" 0 (quiet_world sample_table) ∅ ∅ ∅ _ _ _ _ _));
    [reflexivity|reflexivity|set_solver..].
Defined.

(** ** Upsert, then read *)

Lemma insert_desc_perm {A K} (lt : K -> K -> bool) (key : A -> K) (x : A) (l : list A) :
  Permutation (insert_desc lt key x l) (x :: l).
Proof.
  induction l as [|y l IH]; simpl; [reflexivity|].
  destruct (lt (key x) (key y)); [|reflexivity].
  rewrite IH. apply perm_swap.
Qed.

Lemma sort_desc_perm {A K} (lt : K -> K -> bool) (key : A -> K) (l : list A) :
  Permutation (sort_desc lt key l) l.
Proof.
  induction l as [|x l IH]; simpl; [reflexivity|].
  rewrite insert_desc_perm. now apply perm_skip.
Qed.

Lemma sort_desc_in {A K} (lt : K -> K -> bool) (key : A -> K) (l : list A) (x : A) :
  In x (sort_desc lt key l) <-> In x l.
Proof.
  split; apply Permutation_in; [|symmetry]; apply sort_desc_perm.
Qed.

Lemma insert_desc_map {A K} (lt : K -> K -> bool) (key : A -> K) (g : A -> A)
    (x : A) (l : list A) :
  (forall y, key (g y) = key y) ->
  insert_desc lt key (g x) (map g l) = map g (insert_desc lt key x l).
Proof.
  intros Hg. induction l as [|y l IH]; simpl; [reflexivity|].
  rewrite !Hg. destruct (lt (key x) (key y)); simpl; [now rewrite IH|reflexivity].
Qed.

Lemma sort_desc_map {A K} (lt : K -> K -> bool) (key : A -> K) (g : A -> A) (l : list A) :
  (forall y, key (g y) = key y) ->
  sort_desc lt key (map g l) = map g (sort_desc lt key l).
Proof.
  intros Hg. induction l as [|x l IH]; simpl; [reflexivity|].
  now rewrite IH, insert_desc_map.
Qed.

Lemma dict_get_set {V} (k k' : string) (v : V) (d : list (string * V)) :
  Dict.get k' (Dict.set k v d) = if String.eqb k' k then Some v else Dict.get k' d.
Proof.
  induction d as [|[k0 v0] d IH]; simpl.
  - destruct (String.eqb k' k); reflexivity.
  - destruct (String.eqb_spec k k0) as [->|Hne]; simpl.
    + destruct (String.eqb k' k0); reflexivity.
    + rewrite IH. destruct (String.eqb_spec k' k0) as [->|Hne'];
        [|reflexivity].
      destruct (String.eqb_spec k0 k); [congruence|reflexivity].
Qed.

Lemma dict_keys_set {V} (k : string) (v : V) (d : list (string * V)) :
  Dict.keys (Dict.set k v d)
  = if Dict.mem k d then Dict.keys d else Dict.keys d ++ [k].
Proof.
  unfold Dict.mem. induction d as [|[k0 v0] d IH]; simpl; [reflexivity|].
  destruct (String.eqb_spec k k0) as [->|Hne]; simpl; [reflexivity|].
  rewrite IH. destruct (Dict.get k d); reflexivity.
Qed.

Lemma dict_get_none_keys {V} (k : string) (d : list (string * V)) :
  Dict.get k d = None <-> ~ In k (Dict.keys d).
Proof.
  induction d as [|[k0 v0] d IH]; simpl; [tauto|].
  destruct (String.eqb_spec k k0) as [->|Hne].
  - split; [discriminate|tauto].
  - rewrite IH. split; [intros Hn [Heq|Hin]; congruence || tauto|tauto].
Qed.

Lemma dict_set_nodup {V} (k : string) (v : V) (d : list (string * V)) :
  NoDup (Dict.keys d) -> NoDup (Dict.keys (Dict.set k v d)).
Proof.
  intros Hd. rewrite dict_keys_set. unfold Dict.mem.
  destruct (Dict.get k d) eqn:E; [exact Hd|].
  apply dict_get_none_keys in E.
  apply NoDup_app. split; [exact Hd|]. split.
  - intros x Hx Hin. apply list_elem_of_In in Hx.
    apply list_elem_of_singleton in Hin. congruence.
  - apply NoDup_singleton.
Qed.

Lemma kb_fold_nodup (rows : kb_table) (acc : kb_dict) :
  NoDup (Dict.keys acc) ->
  NoDup (Dict.keys (fold_left (fun kb row => Dict.set (issue_name row) (texts row) kb)
                              rows acc)).
Proof.
  revert acc. induction rows as [|r rows IH]; intros acc Hacc; simpl; [exact Hacc|].
  apply IH, dict_set_nodup, Hacc.
Qed.

Lemma kb_of_rows_nodup (rows : kb_table) : NoDup (Dict.keys (kb_of_rows rows)).
Proof. apply (kb_fold_nodup rows []). apply NoDup_nil_2. Qed.

(** When every row of that name carries the same texts, the mapping shows
    them. *)
Lemma kb_fold_get (name : string) (v : string * string) (rows : kb_table) (acc : kb_dict) :
  (forall r, In r rows -> issue_name r = name -> texts r = v) ->
  (exists r, In r rows /\ issue_name r = name) \/ Dict.get name acc = Some v ->
  Dict.get name (fold_left (fun kb row => Dict.set (issue_name row) (texts row) kb)
                           rows acc) = Some v.
Proof.
  revert acc. induction rows as [|r rows IH]; intros acc Hall Hex; simpl.
  - destruct Hex as [(r & [] & _)|Hacc]; exact Hacc.
  - apply IH; [intros r' Hr'; apply Hall; now right|].
    destruct (String.eqb_spec name (issue_name r)) as [Heq|Hne].
    + right. rewrite dict_get_set, Heq, String.eqb_refl.
      f_equal. apply Hall; [now left|congruence].
    + destruct Hex as [(r' & [<-|Hin] & Hname)|Hacc].
      * congruence.
      * left. exists r'. auto.
      * right. rewrite dict_get_set.
        destruct (String.eqb_spec name (issue_name r)); [congruence|exact Hacc].
Qed.

Lemma kb_of_rows_get (name : string) (v : string * string) (rows : kb_table) :
  (forall r, In r rows -> issue_name r = name -> texts r = v) ->
  (exists r, In r rows /\ issue_name r = name) ->
  Dict.get name (kb_of_rows rows) = Some v.
Proof. intros Hall Hex. apply (kb_fold_get name v rows []); auto. Qed.

Lemma entries_for_unique (name : string) (v : string * string) (kb : kb_dict) :
  NoDup (Dict.keys kb) -> Dict.get name kb = Some v ->
  entries_for name kb = [(name, v)].
Proof.
  unfold entries_for. induction kb as [|[k0 v0] kb IH]; simpl; [discriminate|].
  intros Hnd Hget. apply NoDup_cons in Hnd. destruct Hnd as [Hk0 Hnd].
  destruct (String.eqb_spec name k0) as [->|Hne].
  - injection Hget as ->. rewrite String.eqb_refl. f_equal.
    clear IH Hnd. induction kb as [|[k1 v1] kb IH]; simpl; [reflexivity|].
    destruct (String.eqb_spec k1 k0) as [->|Hne1].
    + exfalso. apply Hk0. now left.
    + apply IH. intros Hin. apply Hk0. now right.
  - destruct (String.eqb_spec k0 name); [congruence|]. apply IH; assumption.
Qed.

Lemma sql_upsert_has (now : Z) (name i m : string) (t : kb_table) :
  exists r, In r (sql_upsert now name i m t) /\ issue_name r = name.
Proof.
  unfold sql_upsert. destruct (existsb (has_issue name) t) eqn:E.
  - apply existsb_exists in E. destruct E as (r & Hin & Hr).
    eexists. split; [apply in_map_iff; exists r; split; [reflexivity|exact Hin]|].
    rewrite Hr. simpl. unfold has_issue in Hr. now apply String.eqb_eq in Hr.
  - eexists. split; [apply in_or_app; right; left; reflexivity|reflexivity].
Qed.

Lemma sql_upsert_texts (now : Z) (name i m : string) (t : kb_table) (r : kb_row) :
  In r (sql_upsert now name i m t) -> issue_name r = name -> texts r = (i, m).
Proof.
  unfold sql_upsert. destruct (existsb (has_issue name) t) eqn:E.
  - intros Hin Hname. apply in_map_iff in Hin. destruct Hin as (r0 & <- & Hin).
    destruct (has_issue name r0) eqn:Hr0; [reflexivity|].
    unfold has_issue in Hr0. apply String.eqb_neq in Hr0. congruence.
  - intros Hin Hname. apply in_app_or in Hin. destruct Hin as [Hin|[<-|[]]];
      [|reflexivity].
    exfalso. assert (existsb (has_issue name) t = true); [|congruence].
    apply existsb_exists. exists r. split; [exact Hin|].
    unfold has_issue. now apply String.eqb_eq.
Qed.

Lemma kb_of_rows_map (g : kb_row -> kb_row) (rows : kb_table) :
  (forall r, In r rows -> issue_name (g r) = issue_name r /\ texts (g r) = texts r) ->
  kb_of_rows (map g rows) = kb_of_rows rows.
Proof.
  unfold kb_of_rows. generalize (@nil (string * (string * string))).
  induction rows as [|r rows IH]; intros acc Hg; simpl; [reflexivity|].
  destruct (Hg r (or_introl eq_refl)) as [Hn Ht].
  fold (texts (g r)). fold (texts r). rewrite Hn, Ht.
  apply IH. intros r' Hr'. apply Hg. now right.
Qed.

(** Saving the same texts again changes no row but for [updated_at]. *)
Lemma stored_kb_upsert_again (now : Z) (name i m : string) (t : kb_table) :
  (forall r, In r t -> issue_name r = name -> texts r = (i, m)) ->
  (exists r, In r t /\ issue_name r = name) ->
  kb_of_rows (select_by_usage (sql_upsert now name i m t))
  = kb_of_rows (select_by_usage t).
Proof.
  intros Hall (r0 & Hin0 & Hname0). unfold sql_upsert.
  assert (E : existsb (has_issue name) t = true).
  { apply existsb_exists. exists r0. split; [exact Hin0|].
    unfold has_issue. now apply String.eqb_eq. }
  rewrite E. unfold select_by_usage.
  rewrite sort_desc_map by (intros r; destruct (has_issue name r); reflexivity).
  apply kb_of_rows_map. intros r Hr. apply sort_desc_in in Hr.
  destruct (has_issue name r) eqn:Hr'; [|split; reflexivity].
  split; [reflexivity|]. unfold has_issue in Hr'. apply String.eqb_eq in Hr'.
  rewrite (Hall r Hr Hr'). reflexivity.
Qed.

Lemma existsb_has_issue (name : string) (t : kb_table) :
  existsb (has_issue name) t = false <-> ~ In name (map issue_name t).
Proof.
  induction t as [|r t IH]; simpl; [tauto|].
  unfold has_issue at 1. destruct (String.eqb_spec (issue_name r) name) as [->|Hne]; simpl.
  - split; [discriminate|tauto].
  - rewrite IH. tauto.
Qed.

(** The UNIQUE constraint on [issue_name] is kept by both statements. *)
Lemma sql_upsert_unique (now : Z) (name impl mitg : string) (t : kb_table) :
  NoDup (map issue_name t) -> NoDup (map issue_name (sql_upsert now name impl mitg t)).
Proof.
  intros Hnd. unfold sql_upsert. destruct (existsb (has_issue name) t) eqn:E.
  - rewrite map_map.
    rewrite (map_ext _ issue_name); [exact Hnd|].
    intros r. destruct (has_issue name r); reflexivity.
  - rewrite map_app. apply NoDup_app. split; [exact Hnd|]. split.
    + intros x Hx Hin. apply list_elem_of_In in Hx.
      apply list_elem_of_singleton in Hin. subst x.
      apply existsb_has_issue in E. contradiction.
    + apply NoDup_singleton.
Qed.

Lemma sql_increment_unique (name : string) (t : kb_table) :
  NoDup (map issue_name t) -> NoDup (map issue_name (sql_increment name t)).
Proof.
  intros Hnd. unfold sql_increment. rewrite map_map.
  rewrite (map_ext _ issue_name); [exact Hnd|].
  intros r. destruct (has_issue name r); reflexivity.
Qed.

Lemma add_to_kb_db_ok `{JsonLib} (name : string) (impl mitg : json num)
    (i m : string) (w : world) :
  faults w = [] -> sqlite_bind impl = Some i -> sqlite_bind mitg = Some m ->
  add_to_kb_db name impl mitg w
  = Done true (with_db (sql_upsert (clock w) name i m (db w)) w).
Proof.
  intros Hf Hi Hm. unfold add_to_kb_db, bind, try_except, connect.
  rewrite Hf, Hi, Hm. reflexivity.
Qed.

Lemma load_kb_from_db_miss (w : world) :
  faults w = [] -> cache_lookup w = None ->
  load_kb_from_db w = Done (stored_kb w) (with_cache (Some (clock w, stored_kb w)) w).
Proof.
  intros Hf Hc. unfold load_kb_from_db, load_kb_from_db_body, bind, ask, connect.
  rewrite Hc, Hf. reflexivity.
Qed.

(** C1 (as amended): after a successful [add_to_kb_db], a [load_kb_from_db]
    that is not answered from an unexpired cache entry returns a mapping with
    exactly one entry under that issue name, holding the texts just saved;
    saving the same texts once more leaves that mapping unchanged. *)
Theorem upsert_then_read `{JsonLib} (name : string) (impl mitg : json num)
    (i m : string) (read_at : Z) (w : world) :
  faults w = [] ->
  sqlite_bind impl = Some i -> sqlite_bind mitg = Some m ->
  cache_lookup (with_clock read_at w) = None ->
  exists w1 w2 w3 kb,
    add_to_kb_db name impl mitg w = Done true w1
    /\ load_kb_from_db (with_clock read_at w1) = Done kb w2
    /\ entries_for name kb = [(name, (i, m))]
    /\ add_to_kb_db name impl mitg w2 = Done true w3
    /\ stored_kb w3 = kb.
Proof.
  intros Hf Hi Hm Hc.
  set (t1 := sql_upsert (clock w) name i m (db w)).
  assert (Hall : forall r, In r (select_by_usage t1) -> issue_name r = name ->
                           texts r = (i, m)).
  { intros r Hr. apply sort_desc_in in Hr. eapply sql_upsert_texts, Hr. }
  assert (Hex : exists r, In r (select_by_usage t1) /\ issue_name r = name).
  { destruct (sql_upsert_has (clock w) name i m (db w)) as (r & Hr & Hn).
    exists r. split; [apply sort_desc_in, Hr|exact Hn]. }
  eexists _, _, _, _.
  split; [apply (add_to_kb_db_ok name impl mitg i m w Hf Hi Hm)|].
  split; [apply load_kb_from_db_miss; [exact Hf|exact Hc]|].
  split; [|split].
  - apply entries_for_unique; [apply kb_of_rows_nodup|].
    apply kb_of_rows_get; assumption.
  - apply add_to_kb_db_ok; [exact Hf|exact Hi|exact Hm].
  - unfold stored_kb. simpl. apply stored_kb_upsert_again.
    + intros r Hr. eapply sql_upsert_texts, Hr.
    + apply sql_upsert_has.
Qed.

Lemma upsert_then_read_witness :
  exists w1 w2 w3 kb,
    add_to_kb_db (H := JsonModel.lib) "XSS" (JStr "Script runs") (JStr "Encode output")
                 (quiet_world sample_table) = Done true w1
    /\ load_kb_from_db (with_clock 7 w1) = Done kb w2
    /\ entries_for "XSS" kb = [("XSS", ("Script runs", "Encode output"))]
    /\ add_to_kb_db (H := JsonModel.lib) "XSS" (JStr "Script runs") (JStr "Encode output") w2
       = Done true w3
    /\ stored_kb w3 = kb.
Proof.
  apply (upsert_then_read (H := JsonModel.lib) "XSS" (JStr "Script runs")
           (JStr "Encode output") "Script runs" "Encode output" 7
           (quiet_world sample_table)); reflexivity.
Defined.

(** C1 (as worded) fails when the cache is warm: a read, a save and a read
    within the hour, and the second read still shows the old, empty mapping. *)
Lemma upsert_hidden_by_cache :
  exists w',
    (let* before := load_kb_from_db in
     let* ok := add_to_kb_db (H := JsonModel.lib) "XSS" (JStr "Script runs")
                             (JStr "Encode output") in
     let* kb := load_kb_from_db in
     ret (before, ok, kb, entries_for "XSS" kb)) (with_clock 10 (quiet_world []))
    = Done ([], true, [], []) w'
    /\ stored_kb w' = [("XSS", ("Script runs", "Encode output"))].
Proof. eexists. split; reflexivity. Qed.

(** ** Import *)

Section ImportProofs.
Context `{JsonLib}.

Lemma import_entries_upserts (entries : list (string * json num)) (count : Z) (w : world) :
  import_entries entries count w = upsert_all (upserts_of entries) count w.
Proof.
  revert count w. induction entries as [|[name details] rest IH]; intros count w;
    [reflexivity|].
  unfold upserts_of. cbn [import_entries flat_map]. fold (upserts_of rest).
  unfold upsert_of. cbn [fst snd].
  destruct details; try apply IH.
  destruct (truthy _ && truthy _); [|apply IH].
  cbn [app upsert_all]. unfold bind.
  destruct (add_to_kb_db name _ _ w) as [ok w'|e w']; [apply IH|reflexivity].
Qed.

Lemma upserts_of_well_formed (entries : list (string * json num)) :
  upserts_of (List.filter well_formed entries) = upserts_of entries.
Proof.
  induction entries as [|entry rest IH]; [reflexivity|].
  unfold upserts_of, well_formed in *. cbn [List.filter flat_map].
  destruct (upsert_of entry) eqn:E; cbn [flat_map]; [rewrite E|]; now rewrite IH.
Qed.

(** Without storage faults every upsert is decided by the binding alone. *)
Lemma upsert_all_quiet (calls : list (string * json num * json num)) (count : Z)
    (w : world) :
  faults w = [] ->
  exists w',
    upsert_all calls count w
    = Done (count + Z.of_nat (length (stored_of calls))) w'
    /\ db w' = store_all (clock w) (stored_of calls) (db w)
    /\ faults w' = [] /\ clock w' = clock w /\ cache w' = cache w.
Proof.
  revert count w. induction calls as [|[[name impl] mitg] rest IH]; intros count w Hf.
  - exists w. simpl. rewrite Z.add_0_r. auto.
  - cbn [upsert_all]. unfold bind, stored_of. cbn [flat_map storable].
    fold (stored_of rest).
    destruct (sqlite_bind impl) as [i|] eqn:Ei;
      [destruct (sqlite_bind mitg) as [m|] eqn:Em|].
    + rewrite (add_to_kb_db_ok name impl mitg i m w Hf Ei Em).
      edestruct (IH (count + 1) (with_db (sql_upsert (clock w) name i m (db w)) w))
        as (w' & Hrun & Hdb & Hf' & Hclock & Hcache); [exact Hf|].
      exists w'. rewrite Hrun. cbn [app length store_all fold_left].
      repeat split; try assumption. f_equal. lia.
    + assert (Hadd : add_to_kb_db name impl mitg w
                     = Done false (with_alert DatabaseError w)).
      { unfold add_to_kb_db, bind, try_except, connect. rewrite Hf, Ei, Em. reflexivity. }
      rewrite Hadd.
      edestruct (IH count (with_alert DatabaseError w))
        as (w' & Hrun & Hdb & Hf' & Hclock & Hcache); [exact Hf|].
      exists w'. rewrite Hrun. auto.
    + assert (Hadd : add_to_kb_db name impl mitg w
                     = Done false (with_alert DatabaseError w)).
      { unfold add_to_kb_db, bind, try_except, connect. rewrite Hf, Ei. reflexivity. }
      rewrite Hadd.
      edestruct (IH count (with_alert DatabaseError w))
        as (w' & Hrun & Hdb & Hf' & Hclock & Hcache); [exact Hf|].
      exists w'. rewrite Hrun. auto.
Qed.

Lemma add_to_kb_db_returns (name : string) (impl mitg : json num) (w : world) :
  ~ In ConnectFails (faults w) ->
  exists ok w',
    add_to_kb_db name impl mitg w = Done ok w' /\ ~ In ConnectFails (faults w').
Proof.
  intros Hf. unfold add_to_kb_db, bind, try_except, connect, st_error, update, ret.
  destruct (faults w) as [|f fs] eqn:E.
  - destruct (sqlite_bind impl), (sqlite_bind mitg); simpl; eexists _, _;
      (split; [reflexivity|]); simpl; rewrite E; exact Hf.
  - destruct f; [| exfalso; apply Hf; now left |].
    + destruct (sqlite_bind impl), (sqlite_bind mitg); simpl; eexists _, _;
        (split; [reflexivity|]); simpl; intros Hin; apply Hf; now right.
    + simpl. eexists _, _. split; [reflexivity|]. simpl.
      intros Hin; apply Hf; now right.
Qed.

(** As long as the database can be opened, the loop reaches its end. *)
Lemma upsert_all_returns (calls : list (string * json num * json num)) (count : Z)
    (w : world) :
  ~ In ConnectFails (faults w) ->
  exists n w',
    upsert_all calls count w = Done n w'
    /\ count <= n <= count + Z.of_nat (length calls).
Proof.
  revert count w. induction calls as [|[[name impl] mitg] rest IH]; intros count w Hf.
  - exists count, w. simpl. split; [reflexivity|lia].
  - destruct (add_to_kb_db_returns name impl mitg w Hf) as (ok & w1 & Hadd & Hf1).
    destruct (IH (if ok then count + 1 else count) w1 Hf1) as (n & w' & Hrun & Hn).
    exists n, w'. cbn [upsert_all]. unfold bind. rewrite Hadd, Hrun.
    split; [reflexivity|]. cbn [length]. destruct ok; lia.
Qed.

Lemma import_object (entries : list (string * json num)) (w : world) :
  import_kb_from_json (JObj entries) w
  = try_except (upsert_all (upserts_of entries) 0)
               (fun _ => st_error ImportError;; ret 0) w.
Proof.
  unfold import_kb_from_json, try_except, bind, ret.
  rewrite import_entries_upserts. reflexivity.
Qed.

Lemma import_text (text : string) (w : world) :
  import_kb_from_json (JStr text) w
  = match json_loads text with
    | Some (JObj entries) => import_kb_from_json (JObj entries) w
    | _ => Done 0 (with_alert ImportError w)
    end.
Proof.
  unfold import_kb_from_json, try_except, bind, ret, raise.
  destruct (json_loads text) as [[]|]; reflexivity.
Qed.

(** C10: [import_kb_from_json] always returns.  When the text does not
    parse, when the parsed value has no [items], or when the loop over the
    entries raises, it returns 0 after reporting the import error, whatever
    the loop had counted or stored up to that point; otherwise it returns
    the count of the loop. *)
Theorem import_returns_zero_on_error (json_data : json num) (w : world) :
  (exists n w', import_kb_from_json json_data w = Done n w')
  /\ match parsed json_data with
     | None => import_kb_from_json json_data w = Done 0 (with_alert ImportError w)
     | Some (JObj entries) =>
         match import_entries entries 0 w with
         | Raised _ w1 =>
             import_kb_from_json json_data w = Done 0 (with_alert ImportError w1)
         | Done n w1 => import_kb_from_json json_data w = Done n w1
         end
     | Some _ => import_kb_from_json json_data w = Done 0 (with_alert ImportError w)
     end.
Proof.
  assert (Hobj : forall entries,
             match import_entries entries 0 w with
             | Raised _ w1 =>
                 import_kb_from_json (JObj entries) w = Done 0 (with_alert ImportError w1)
             | Done n w1 => import_kb_from_json (JObj entries) w = Done n w1
             end).
  { intros entries. unfold import_kb_from_json, try_except, bind, ret.
    destruct (import_entries entries 0 w); reflexivity. }
  assert (Hcases :
           match parsed json_data with
           | None => import_kb_from_json json_data w = Done 0 (with_alert ImportError w)
           | Some (JObj entries) =>
               match import_entries entries 0 w with
               | Raised _ w1 =>
                   import_kb_from_json json_data w = Done 0 (with_alert ImportError w1)
               | Done n w1 => import_kb_from_json json_data w = Done n w1
               end
           | Some _ => import_kb_from_json json_data w = Done 0 (with_alert ImportError w)
           end).
  { destruct json_data as [| b | n | text | items | entries]; try reflexivity.
    - cbn [parsed]. rewrite import_text.
      destruct (json_loads text) as [[| b | n | s | items | entries]|]; try reflexivity.
      apply Hobj.
    - apply Hobj. }
  split; [|exact Hcases].
  destruct (parsed json_data) as [[| b | n | s | items | entries]|]; eauto.
  destruct (import_entries entries 0 w); eauto.
Qed.

End ImportProofs.

(** A well-formed entry is stored, then the connection fails: the import
    reports 0 although the first entry is in the table. *)
Example import_partial_count_lost :
  exists w',
    import_kb_from_json (H := JsonModel.lib)
      (JStr (JsonModel.dumps sample_export))
      (with_faults [Healthy; ConnectFails] (quiet_world []))
    = Done 0 w'
    /\ stored_kb w' = [("XSS", ("Script runs", "Encode output"))]
    /\ alerts w' = [ImportError].
Proof. eexists. repeat split; reflexivity. Qed.

Example import_unparseable :
  import_kb_from_json (H := JsonModel.lib) (JStr "{oops") (quiet_world sample_table)
  = Done 0 (with_alert ImportError (quiet_world sample_table)).
Proof. reflexivity. Qed.

(** Entries of the wrong shape are passed over; the two good ones count. *)
Example import_skips_malformed :
  exists w',
    import_kb_from_json (H := JsonModel.lib) sample_import (quiet_world []) = Done 2 w'
    /\ stored_kb w' = [("XSS", ("Script runs", "Encode output"));
                       ("CSRF", ("Forged request", "Use tokens"))]
    /\ alerts w' = [DatabaseError].
Proof. eexists. repeat split; reflexivity. Qed.

(** ** Export, then import *)

Lemma dict_set_fresh {V} (k : string) (v : V) (d : list (string * V)) :
  ~ In k (Dict.keys d) -> Dict.set k v d = d ++ [(k, v)].
Proof.
  induction d as [|[k0 v0] d IH]; simpl; intros Hk; [reflexivity|].
  destruct (String.eqb_spec k k0) as [->|Hne]; [exfalso; apply Hk; now left|].
  rewrite IH by (intros Hin; apply Hk; now right). reflexivity.
Qed.

Lemma dict_set_in {V} (k : string) (v : V) (d : list (string * V)) (e : string * V) :
  In e (Dict.set k v d) -> e = (k, v) \/ In e d.
Proof.
  induction d as [|[k0 v0] d IH]; simpl; [intros [<-|[]]; auto|].
  destruct (String.eqb_spec k k0) as [->|Hne]; simpl; intros [<-|Hin]; auto.
  destruct (IH Hin); auto.
Qed.

Lemma kb_fold_in (rows : kb_table) (acc : kb_dict) (e : string * (string * string)) :
  In e (fold_left (fun kb row => Dict.set (issue_name row) (texts row) kb) rows acc) ->
  In e acc \/ exists r, In r rows /\ e = (issue_name r, texts r).
Proof.
  revert acc. induction rows as [|r rows IH]; intros acc; simpl; [auto|].
  intros Hin. destruct (IH _ Hin) as [Hacc|(r' & Hr' & ->)].
  - destruct (dict_set_in _ _ _ _ Hacc) as [->|Hacc']; eauto.
  - eauto.
Qed.

Lemma stored_kb_in (w : world) (e : string * (string * string)) :
  In e (stored_kb w) -> exists r, In r (db w) /\ e = (issue_name r, texts r).
Proof.
  intros Hin. destruct (kb_fold_in _ [] e Hin) as [[]|(r & Hr & ->)].
  exists r. split; [apply sort_desc_in in Hr; exact Hr|reflexivity].
Qed.

Lemma kb_fold_new_rows (now : Z) (kb acc : kb_dict) :
  NoDup (Dict.keys acc ++ Dict.keys kb) ->
  fold_left (fun d row => Dict.set (issue_name row) (texts row) d)
            (map (new_row now) kb) acc
  = acc ++ kb.
Proof.
  revert acc. induction kb as [|[k [i m]] kb IH]; intros acc Hnd; simpl.
  - now rewrite app_nil_r.
  - unfold texts at 1. cbn [new_row issue_name implication mitigation fst snd].
    rewrite dict_set_fresh.
    + rewrite IH; [now rewrite <- app_assoc|].
      unfold Dict.keys in *. rewrite map_app, <- app_assoc. exact Hnd.
    + intros Hin. apply NoDup_app in Hnd. destruct Hnd as (_ & Hdisj & _).
      apply (Hdisj k); [apply list_elem_of_In, Hin|]. simpl. left.
Qed.

Lemma sort_desc_constant {A} (key : A -> Z) (l : list A) :
  (forall x, In x l -> key x = 0) -> sort_desc Z.ltb key l = l.
Proof.
  induction l as [|x l IH]; intros Hkey; simpl; [reflexivity|].
  rewrite IH by (intros y Hy; apply Hkey; now right).
  destruct l as [|y l]; [reflexivity|]. simpl.
  rewrite (Hkey x), (Hkey y) by (simpl; auto). reflexivity.
Qed.

Lemma stored_kb_new_rows (now : Z) (kb : kb_dict) (w : world) :
  NoDup (Dict.keys kb) -> db w = map (new_row now) kb -> stored_kb w = kb.
Proof.
  intros Hnd Hdb. unfold stored_kb, select_by_usage. rewrite Hdb.
  rewrite sort_desc_constant.
  - apply (kb_fold_new_rows now kb []). exact Hnd.
  - intros r Hr. apply in_map_iff in Hr. destruct Hr as (e & <- & _). reflexivity.
Qed.

Lemma store_all_fresh (now : Z) (kb : kb_dict) (t : kb_table) :
  NoDup (map issue_name t ++ Dict.keys kb) ->
  store_all now (map flat kb) t = t ++ map (new_row now) kb.
Proof.
  revert t. induction kb as [|[k [i m]] kb IH]; intros t Hnd; simpl.
  - now rewrite app_nil_r.
  - unfold store_all in *. cbn [fold_left flat fst snd]. unfold sql_upsert at 2.
    assert (Hfresh : existsb (has_issue k) t = false).
    { apply existsb_has_issue. intros Hin. apply NoDup_app in Hnd.
      destruct Hnd as (_ & Hdisj & _).
      apply (Hdisj k); [apply list_elem_of_In, Hin|]. simpl. left. }
    rewrite Hfresh, IH.
    + rewrite <- app_assoc. reflexivity.
    + rewrite map_app, <- app_assoc. exact Hnd.
Qed.

Section RoundTrip.
Context `{JsonLib}.

Lemma upserts_of_export (kb : kb_dict) :
  (forall e, In e kb -> fst (snd e) <> "" /\ snd (snd e) <> "") ->
  stored_of (upserts_of (map (fun '(name, (impl, mitg)) =>
                                (name, JObj [("implication", JStr impl);
                                             ("mitigation", JStr mitg)])) kb))
  = map flat kb.
Proof.
  induction kb as [|[k [i m]] kb IH]; intros Hne; [reflexivity|].
  destruct (Hne (k, (i, m)) (or_introl eq_refl)) as [Hi Hm]. simpl in Hi, Hm.
  unfold upserts_of, stored_of in *. cbn [map flat_map upsert_of fst snd].
  unfold details_get. cbn [Dict.get String.eqb Ascii.eqb Bool.eqb].
  destruct i as [|a i]; [congruence|]. destruct m as [|b m]; [congruence|].
  cbn. f_equal. apply IH. intros e He. apply Hne. now right.
Qed.

(** C6 (as amended): when every stored implication and mitigation is
    non-empty, the export reaches the database instead of an unexpired cache
    entry, the JSON text parses back to the exported value and no storage
    fault occurs, then importing the exported text into an empty store
    upserts every entry and yields the same issue_name -> (implication,
    mitigation) mapping as the original store, whatever its usage counts. *)
Theorem export_import_roundtrip (w w0 : world) :
  faults w = [] -> cache_lookup w = None ->
  faults w0 = [] -> db w0 = [] ->
  texts_present (db w) ->
  json_loads (json_dumps (json_of_kb (stored_kb w))) = Some (json_of_kb (stored_kb w)) ->
  exists text w1 w2,
    export_kb_to_json w = Done text w1
    /\ import_kb_from_json (JStr text) w0 = Done (Z.of_nat (length (stored_kb w))) w2
    /\ (list_to_map (stored_kb w2) : gmap string (string * string))
       = list_to_map (stored_kb w).
Proof.
  intros Hf Hc Hf0 Hdb0 Htexts Hcodec.
  assert (Hne : forall e, In e (stored_kb w) -> fst (snd e) <> "" /\ snd (snd e) <> "").
  { intros e He. destruct (stored_kb_in w e He) as (r & Hr & ->). apply Htexts, Hr. }
  assert (Hexport : export_kb_to_json w
                    = Done (json_dumps (json_of_kb (stored_kb w)))
                           (with_cache (Some (clock w, stored_kb w)) w)).
  { unfold export_kb_to_json, bind. rewrite (load_kb_from_db_miss w Hf Hc). reflexivity. }
  destruct (upsert_all_quiet
              (upserts_of
                 (map (fun '(name, (impl, mitg)) =>
                         (name, JObj [("implication", JStr impl);
                                      ("mitigation", JStr mitg)]))
                      (stored_kb w))) 0 w0 Hf0) as (w2 & Hrun & Hdb2 & _).
  rewrite (upserts_of_export _ Hne) in Hrun, Hdb2.
  rewrite length_map in Hrun.
  eexists _, _, w2. split; [exact Hexport|]. split.
  - rewrite import_text, Hcodec. unfold json_of_kb.
    rewrite import_object. unfold try_except. rewrite Hrun. reflexivity.
  - f_equal. apply (stored_kb_new_rows (clock w0)); [apply kb_of_rows_nodup|].
    rewrite Hdb2, Hdb0. apply (store_all_fresh (clock w0) (stored_kb w) []).
    apply kb_of_rows_nodup.
Qed.

End RoundTrip.

Lemma export_import_roundtrip_witness :
  exists text w1 w2,
    export_kb_to_json (H := JsonModel.lib) (quiet_world sample_table) = Done text w1
    /\ import_kb_from_json (H := JsonModel.lib) (JStr text) (quiet_world [])
       = Done (Z.of_nat (length (stored_kb (quiet_world sample_table)))) w2
    /\ (list_to_map (stored_kb w2) : gmap string (string * string))
       = list_to_map (stored_kb (quiet_world sample_table)).
Proof.
  apply (export_import_roundtrip (H := JsonModel.lib)
           (quiet_world sample_table) (quiet_world [])); try reflexivity.
  intros r [<-|[<-|[]]]; split; discriminate.
Defined.

(** C6 (as worded) fails in two ways: an export answered from the cache
    misses an entry saved since, and an entry with an empty text is exported
    but not imported. *)
Lemma export_import_loses_entries :
  (exists text w1 w2,
      (load_kb_from_db;;
       add_to_kb_db (H := JsonModel.lib) "XSS" (JStr "Script runs") (JStr "Encode output");;
       export_kb_to_json (H := JsonModel.lib)) (quiet_world []) = Done text w1
      /\ stored_kb w1 = [("XSS", ("Script runs", "Encode output"))]
      /\ import_kb_from_json (H := JsonModel.lib) (JStr text) (quiet_world []) = Done 0 w2
      /\ stored_kb w2 = [])
  /\ (exists text w1 w2,
         export_kb_to_json (H := JsonModel.lib)
           (quiet_world [sample_row "Weak TLS" "Traffic can be read" "" 3])
         = Done text w1
         /\ stored_kb w1 = [("Weak TLS", ("Traffic can be read", ""))]
         /\ import_kb_from_json (H := JsonModel.lib) (JStr text) (quiet_world [])
            = Done 0 w2
         /\ stored_kb w2 = []).
Proof. split; eexists _, _, _; repeat split; reflexivity. Qed.

(** ** Finding detail pages *)

Lemma nonempty_true (s : string) : s <> "" -> Py.nonempty s = true.
Proof. destruct s; [congruence|reflexivity]. Qed.

Lemma dict_get_in {V} (k : string) (v : V) (d : list (string * V)) :
  Dict.get k d = Some v -> In (k, v) d.
Proof.
  induction d as [|[k0 v0] d IH]; simpl; [discriminate|].
  destruct (String.eqb_spec k k0) as [->|Hne]; [intros [= ->]; now left|auto].
Qed.

Lemma dict_keys_get {V} (k : string) (d : list (string * V)) :
  In k (Dict.keys d) -> exists v, Dict.get k d = Some v.
Proof.
  intros Hin. destruct (Dict.get k d) as [v|] eqn:E; [eauto|].
  apply dict_get_none_keys in E. contradiction.
Qed.

Lemma increment_runs (name : string) (ss : session) (w : world) :
  faults w = [] ->
  exists ss' w',
    increment_kb_usage name ss w = Done ss' w'
    /\ credited w' = credited w ++ [name] /\ faults w' = [].
Proof.
  intros Hf. destruct (decide (session_key name ∈ ss)) as [Hin|Hnot].
  - rewrite (increment_again name ss w Hin). eexists _, _. eauto.
  - rewrite (increment_fresh name ss w Hf Hnot). eexists _, _. eauto.
Qed.

Lemma find_same {A} (p q : A -> bool) (l : list A) :
  (forall x, p x = q x) -> List.find p l = List.find q l.
Proof.
  intros Hpq. induction l as [|x l IH]; simpl; [reflexivity|].
  rewrite Hpq, IH. reflexivity.
Qed.

Lemma find_keys (p : string -> bool) (kb : kb_dict) :
  List.find p (Dict.keys kb) = option_map fst (List.find (fun entry => p (fst entry)) kb).
Proof.
  unfold Dict.keys. induction kb as [|[k v] kb IH]; simpl; [reflexivity|].
  destruct (p k); [reflexivity|exact IH].
Qed.

Lemma mem_find (issue : string) (kb : kb_dict) :
  Dict.mem issue kb
  = match List.find (fun entry => String.eqb (fst entry) issue) kb with
    | Some _ => true
    | None => false
    end.
Proof.
  unfold Dict.mem. induction kb as [|[k v] kb IH]; simpl; [reflexivity|].
  rewrite (String.eqb_sym issue k). destruct (String.eqb k issue); [reflexivity|exact IH].
Qed.

(** The key the specification names is the key the code finds. *)
Lemma claimed_key_found (kb : kb_dict) (issue : string) :
  claimed_key kb issue
  = if Dict.mem issue kb then Some issue
    else List.find (loosely_matches issue) (Dict.keys kb).
Proof.
  unfold claimed_key. rewrite mem_find, find_keys.
  destruct (List.find (fun entry => String.eqb (fst entry) issue) kb); [reflexivity|].
  f_equal. apply find_same. intros [k v]. unfold loosely_matches, substring_nocase.
  cbn [fst]. now rewrite !contains_substring_of.
Qed.

Lemma find_kb_key_runs (kb : kb_dict) (issue : string) (ss : session) (w : world) :
  faults w = [] ->
  exists ss' w',
    find_kb_key kb issue ss w = Done (claimed_key kb issue, ss') w'
    /\ credited w'
       = credited w ++ match claimed_key kb issue with Some k => [k] | None => [] end
    /\ faults w' = [].
Proof.
  intros Hf. rewrite claimed_key_found. unfold find_kb_key.
  destruct (Dict.mem issue kb).
  - destruct (increment_runs issue ss w Hf) as (ss' & w' & Hrun & Hcred & Hf').
    exists ss', w'. unfold bind. rewrite Hrun. auto.
  - destruct (List.find (loosely_matches issue) (Dict.keys kb)) as [k|].
    + destruct (increment_runs k ss w Hf) as (ss' & w' & Hrun & Hcred & Hf').
      exists ss', w'. unfold bind. rewrite Hrun. auto.
    + exists ss, w. rewrite app_nil_r. auto.
Qed.

Lemma claimed_key_entry (kb : kb_dict) (issue k : string) :
  kb_named kb -> claimed_key kb issue = Some k ->
  Py.nonempty k = true /\ exists i m, Dict.get k kb = Some (i, m).
Proof.
  intros Hkb Hkey.
  assert (Hget : exists v, Dict.get k kb = Some v).
  { rewrite claimed_key_found in Hkey. unfold Dict.mem in Hkey.
    destruct (Dict.get issue kb) as [v|] eqn:E.
    - injection Hkey as <-. eauto.
    - apply find_some in Hkey. apply dict_keys_get, Hkey. }
  destruct Hget as ([i m] & Hget).
  split; [apply nonempty_true, (Hkb k (i, m)), dict_get_in, Hget|].
  exists i, m. exact Hget.
Qed.

Lemma resolve_texts_claimed (kb : kb_dict) (f : Finding.t) (ss : session) (w : world) :
  faults w = [] -> kb_named kb ->
  exists ss' w',
    resolve_texts kb f ss w
    = Done (fst (claimed_texts kb f), snd (claimed_texts kb f), ss') w'
    /\ credited w' = credited w ++ claimed_credits kb f
    /\ faults w' = [].
Proof.
  intros Hf Hkb. unfold resolve_texts, claimed_texts, claimed_credits, claimed_text.
  set (issue := get_or (Finding.issue f) "").
  set (ci := get_or (Finding.implication f) "").
  set (cm := get_or (Finding.mitigation f) "").
  cbn [fst snd].
  destruct (Py.nonempty ci && Py.nonempty cm) eqn:Eboth.
  - apply andb_true_iff in Eboth. destruct Eboth as [Eci Ecm].
    exists ss, w. unfold bind, ret. rewrite Eci, Ecm. cbn. rewrite Eci, Ecm.
    rewrite app_nil_r. auto.
  - assert (Eor : negb (Py.nonempty ci) || negb (Py.nonempty cm) = true).
    { destruct (Py.nonempty ci), (Py.nonempty cm); simpl in *; congruence. }
    rewrite Eor. clear Eboth Eor.
    destruct (find_kb_key_runs kb issue ss w Hf) as (ss' & w' & Hrun & Hcred & Hf').
    exists ss', w'. unfold bind at 1 2. rewrite Hrun.
    split; [|split; assumption].
    destruct (claimed_key kb issue) as [k|] eqn:Ekey.
    + destruct (claimed_key_entry kb issue k Hkb Ekey) as (Hk & i & m & Hget).
      rewrite Hk, Hget. unfold ret. cbn [option_map fst snd].
      destruct (Py.nonempty ci) eqn:Eci, (Py.nonempty cm) eqn:Ecm,
               (Py.nonempty i) eqn:Ei, (Py.nonempty m) eqn:Em;
        rewrite ?Eci, ?Ecm, ?Ei, ?Em; reflexivity.
    + unfold ret. cbn [option_map].
      destruct (Py.nonempty ci) eqn:Eci, (Py.nonempty cm) eqn:Ecm;
        rewrite ?Eci, ?Ecm; reflexivity.
Qed.

Lemma finding_page_claimed (kb : kb_dict) (imgs : list (string * list string))
    (f : Finding.t) (ss : session) (w : world) :
  faults w = [] -> kb_named kb ->
  exists page ss' w',
    finding_page kb imgs f ss w = Done (page, ss') w'
    /\ shows (claimed_texts kb f) page
    /\ credited w' = credited w ++ claimed_credits kb f
    /\ faults w' = [].
Proof.
  intros Hf Hkb.
  destruct (resolve_texts_claimed kb f ss w Hf Hkb) as (ss' & w' & Hrun & Hcred & Hf').
  unfold finding_page, bind. rewrite Hrun. unfold ret.
  eexists _, ss', w'. split; [reflexivity|]. split; [|auto].
  eexists _, _. split; [reflexivity|]. split; reflexivity.
Qed.

Lemma finding_pages_claimed (kb : kb_dict) (imgs : list (string * list string))
    (findings : list Finding.t) (doc : document) (ss : session) (w : world) :
  faults w = [] -> kb_named kb ->
  exists pages ss' w',
    finding_pages kb imgs findings doc ss w = Done (doc ++ concat pages, ss') w'
    /\ Forall2 (fun f page => shows (claimed_texts kb f) page) findings pages
    /\ credited w' = credited w ++ flat_map (claimed_credits kb) findings.
Proof.
  intros Hf Hkb. revert doc ss w Hf.
  induction findings as [|f rest IH]; intros doc ss w Hf.
  - exists [], ss, w. simpl. rewrite !app_nil_r. auto.
  - destruct (finding_page_claimed kb imgs f ss w Hf Hkb)
      as (page & ss1 & w1 & Hrun & Hshows & Hcred & Hf1).
    destruct (IH (doc ++ page) ss1 w1 Hf1) as (pages & ss' & w' & Hrest & Hall & Hcred').
    exists (page :: pages), ss', w'. cbn [finding_pages]. unfold bind. rewrite Hrun, Hrest.
    split; [|split].
    + cbn [concat]. now rewrite app_assoc.
    + now constructor.
    + rewrite Hcred', Hcred. cbn [flat_map]. now rewrite app_assoc.
Qed.

Lemma load_kb_from_db_runs (w : world) :
  faults w = [] ->
  exists w', load_kb_from_db w = Done (kb_seen w) w'
             /\ credited w' = credited w /\ faults w' = [].
Proof.
  intros Hf. unfold kb_seen. destruct (cache_lookup w) as [kb|] eqn:Hc.
  - exists w. unfold load_kb_from_db, bind, ask. rewrite Hc. auto.
  - rewrite (load_kb_from_db_miss w Hf Hc). eauto.
Qed.

(** The resolution order where no entry of the knowledge base has the empty
    issue name: [generate_finding_pages] appends one page per finding, in order,
    and the page of a finding shows as implication and as mitigation: the
    explicit value of the finding; if that is empty, the text of the entry
    named exactly like the issue; if there is no such entry, the text of the
    first entry, in iteration order, whose name contains the issue text or
    is contained in it, ignoring case; and the placeholder if no entry
    matches or the matching text is empty.  A finding that lacks a text and
    matches an entry makes exactly one [increment_kb_usage] call, for that
    entry; no other call is made. *)
Theorem finding_pages_resolved (doc : document) (findings : list Finding.t)
    (inv : list (string * string)) (imgs : list (string * list string))
    (ss : session) (w : world) :
  faults w = [] -> kb_named (kb_seen w) ->
  exists pages ss' w',
    generate_finding_pages doc findings inv imgs ss w = Done (doc ++ concat pages, ss') w'
    /\ Forall2 (fun f page => shows (claimed_texts (kb_seen w) f) page) findings pages
    /\ credited w' = credited w ++ flat_map (claimed_credits (kb_seen w)) findings.
Proof.
  intros Hf Hkb.
  destruct (load_kb_from_db_runs w Hf) as (w0 & Hload & Hcred0 & Hf0).
  destruct (finding_pages_claimed (kb_seen w) imgs findings doc ss w0 Hf0 Hkb)
    as (pages & ss' & w' & Hrun & Hall & Hcred).
  exists pages, ss', w'. unfold generate_finding_pages, bind. rewrite Hload, Hrun.
  rewrite Hcred0 in Hcred. auto.
Qed.

Lemma finding_pages_resolved_witness :
  exists pages ss' w',
    generate_finding_pages [] sample_findings [] [] ∅ (quiet_world sample_table)
    = Done ([] ++ concat pages, ss') w'
    /\ Forall2 (fun f page =>
                  shows (claimed_texts (kb_seen (quiet_world sample_table)) f) page)
               sample_findings pages
    /\ credited w'
       = credited (quiet_world sample_table)
         ++ flat_map (claimed_credits (kb_seen (quiet_world sample_table))) sample_findings.
Proof.
  apply (finding_pages_resolved [] sample_findings [] [] ∅ (quiet_world sample_table));
    [reflexivity|].
  intros k v [[= <- <-]|[[= <- <-]|[]]]; discriminate.
Defined.

Example finding_pages_sample :
  exists ss' w',
    generate_finding_pages [] sample_findings [] [] ∅ (quiet_world sample_table)
    = Done ([Heading "Finding 1: SQL Injection" 2;
             DetailTable [("Finding 1", Text "SQL Injection");
                          ("Affected Host", Text "[No hosts specified]");
                          ("Implication", Text "Attackers can read the database");
                          ("Risk Rating", Text "");
                          ("Detail", Text "[No evidence image provided for this finding]");
                          ("Mitigation", Text "Use prepared statements");
                          ("Comment", Text "")];
             PageBreak;
             Heading "Finding 2: weak password policy on the portal" 2;
             DetailTable [("Finding 2", Text "weak password policy on the portal");
                          ("Affected Host", Text "[No hosts specified]");
                          ("Implication", Text "Accounts can be guessed");
                          ("Risk Rating", Text "");
                          ("Detail", Text "[No evidence image provided for this finding]");
                          ("Mitigation", Text "Enforce strong passwords");
                          ("Comment", Text "")];
             PageBreak;
             Heading "Finding 3: SQL Injection" 2;
             DetailTable [("Finding 3", Text "SQL Injection");
                          ("Affected Host", Text "10.0.0.1, 10.0.0.2");
                          ("Implication", Text "Own implication");
                          ("Risk Rating", Text "High");
                          ("Detail", Text "[No evidence image provided for this finding]");
                          ("Mitigation", Text "Own mitigation");
                          ("Comment", Text "")];
             PageBreak], ss') w'
    /\ credited w' = ["SQL Injection"; "Weak Password Policy"]
    /\ usage_of "SQL Injection" (db w') = Some 1
    /\ usage_of "Weak Password Policy" (db w') = Some 5.
Proof. eexists _, _. repeat split; reflexivity. Qed.

(** C2: the code at an entry with the empty issue name.  Such an entry gets
    into the store through an import.  Its name is a substring of every
    issue text, so for a finding without texts that no entry names exactly
    it is the first loose match, and [generate_finding_pages] credits it:
    its counter goes from 0 to 1.  But the page shows the two placeholders
    and not the texts of the entry, because the key found is then tested
    for truth. *)
Lemma empty_issue_name_not_resolved :
  exists w1 ss' w',
    import_kb_from_json (H := JsonModel.lib)
      (JObj [("", entry_of "Default implication" "Default mitigation")])
      (quiet_world [])
    = Done 1 w1
    /\ texts_of "" (db w1) = Some ("Default implication", "Default mitigation")
    /\ usage_of "" (db w1) = Some 0
    /\ texts_of "Open port 22" (db w1) = None
    /\ substring_nocase "" "Open port 22" = true
    /\ generate_finding_pages [] [sample_finding "1" "Open port 22" "Server Vulnerabilities"]
                              [] [] ∅ w1
       = Done ([Heading "Finding 1: Open port 22" 2;
                DetailTable [("Finding 1", Text "Open port 22");
                             ("Affected Host", Text "[No hosts specified]");
                             ("Implication", Text "[No implication provided]");
                             ("Risk Rating", Text "");
                             ("Detail", Text "[No evidence image provided for this finding]");
                             ("Mitigation", Text "[No mitigation provided]");
                             ("Comment", Text "")];
                PageBreak], ss') w'
    /\ credited w' = [""]
    /\ usage_of "" (db w') = Some 1.
Proof. eexists _, _, _. repeat split; reflexivity. Qed.

(** ** Search: scoring and ranking *)

Lemma SFcompare_lt_asym (x y : spec_float) :
  SFcompare x y = Some Lt -> SFcompare y x <> Some Lt.
Proof.
  destruct x as [sx| sx| |sx mx ex], y as [sy| sy| |sy my ey]; simpl;
    try congruence;
    try (destruct sx; congruence); try (destruct sy; congruence);
    try (destruct sx, sy; congruence).
  assert (Hm : Pos.compare_cont Eq my mx = CompOpp (Pos.compare_cont Eq mx my))
    by (symmetry; apply (Pos.compare_cont_antisym mx my Eq)).
  rewrite (Z.compare_antisym ex ey), Hm.
  destruct sx, sy; try congruence;
    destruct (ex ?= ey)%Z; simpl; try congruence;
    destruct (Pos.compare_cont Eq mx my); simpl; congruence.
Qed.

Lemma float_ltb_asym (x y : float) :
  PrimFloat.ltb x y = true -> PrimFloat.ltb y x = false.
Proof.
  rewrite !ltb_spec. unfold SFltb. intros Hxy.
  destruct (SFcompare (Prim2SF x) (Prim2SF y)) as [[]|] eqn:E; try discriminate.
  apply SFcompare_lt_asym in E.
  destruct (SFcompare (Prim2SF y) (Prim2SF x)) as [[]|]; congruence.
Qed.

Lemma SFmul_comm (prec emax : Z) (x y : spec_float) :
  SFmul prec emax x y = SFmul prec emax y x.
Proof.
  destruct x as [sx| sx| |sx mx ex], y as [sy| sy| |sy my ey]; simpl;
    rewrite ?(xorb_comm sx sy); try reflexivity.
  now rewrite Pos.mul_comm, Z.add_comm.
Qed.

Lemma float_mul_comm (x y : float) : (x * y = y * x)%float.
Proof.
  apply Prim2SF_inj. rewrite !mul_spec. apply SFmul_comm.
Qed.

Section SortedDesc.
Context {A K : Type} (lt : K -> K -> bool) (key : A -> K).
Hypothesis lt_asym : forall x y, lt x y = true -> lt y x = false.

Let ranks (a b : A) : Prop := lt (key a) (key b) = false.

Lemma insert_desc_hd (x y : A) (l : list A) :
  HdRel ranks y l -> ranks y x -> HdRel ranks y (insert_desc lt key x l).
Proof.
  intros Hhd Hyx. destruct l as [|z l]; simpl; [now constructor|].
  destruct (lt (key x) (key z)); constructor; [|exact Hyx].
  now inversion Hhd.
Qed.

Lemma insert_desc_sorted (x : A) (l : list A) :
  Sorted ranks l -> Sorted ranks (insert_desc lt key x l).
Proof.
  induction l as [|y l IH]; simpl; intros Hl.
  - repeat constructor.
  - inversion Hl as [|? ? Hsorted Hhd]; subst.
    destruct (lt (key x) (key y)) eqn:E.
    + constructor; [apply IH, Hsorted|].
      apply insert_desc_hd; [exact Hhd|]. apply lt_asym, E.
    + constructor; [exact Hl|]. constructor. exact E.
Qed.

Lemma sort_desc_sorted (l : list A) : Sorted ranks (sort_desc lt key l).
Proof.
  induction l as [|x l IH]; simpl; [constructor|]. apply insert_desc_sorted, IH.
Qed.

End SortedDesc.

Section SearchProofs.
Context `{Difflib}.

Lemma keyword_hit_counts (row : kb_row) (keyword : string) :
  keyword_hit row keyword = counts row keyword.
Proof.
  unfold keyword_hit, counts. rewrite !contains_substring_of. f_equal.
  unfold Py.len. destruct (Z.ltb_spec 3 (Z.of_nat (String.length keyword)));
    destruct (Nat.leb_spec 4 (String.length keyword)); try reflexivity; lia.
Qed.

Lemma max_similarity_claimed (q : string) (row : kb_row) :
  max_similarity q row = claimed_score q row.
Proof.
  unfold max_similarity, claimed_score, keyword_matches, greatest, py_max, py_min.
  cbn [fold_left].
  rewrite (float_mul_comm (ratio q (Py.lower (implication row))) 0.8).
  rewrite (float_mul_comm (ratio q (Py.lower (mitigation row))) 0.8).
  rewrite (List.filter_ext _ _ (keyword_hit_counts row)).
  destruct (List.filter (counts row) (Py.split q)) as [|t ts]; [reflexivity|].
  rewrite (float_mul_comm _ 0.15). reflexivity.
Qed.

Lemma match_of_claimed (q : string) (row : kb_row) :
  match_of q row = claimed_match q row.
Proof. unfold match_of, claimed_match. now rewrite max_similarity_claimed. Qed.

Lemma collect_fold (q : string) (rows : kb_table) (acc : list kb_match) :
  fold_left (fun matches row =>
               if PrimFloat.ltb 0.2 (max_similarity q row)
               then matches ++ [match_of q row]
               else matches)
            rows acc
  = acc ++ candidates q rows.
Proof.
  unfold candidates. revert acc.
  induction rows as [|row rows IH]; intros acc; simpl; [now rewrite app_nil_r|].
  rewrite IH, max_similarity_claimed.
  destruct (PrimFloat.ltb 0.2 (claimed_score q row)); [|reflexivity].
  simpl. now rewrite match_of_claimed, <- app_assoc.
Qed.

Lemma collect_matches_candidates (q : string) (rows : kb_table) :
  collect_matches q rows = candidates q rows.
Proof. apply (collect_fold q rows []). Qed.

Lemma search_kb_db_runs (query : string) (top_n : Z) (w : world) :
  (3 <= String.length query)%nat -> faults w = [] ->
  search_kb_db query top_n w
  = Done (py_take top_n (sort_desc PrimFloat.ltb match_score
                                   (candidates (Py.lower query) (db w)))) w.
Proof.
  intros Hlen Hf. unfold search_kb_db.
  assert (Hgo : negb (Py.nonempty query) || (Py.len query <? 3) = false).
  { destruct query as [|a [|b [|c q]]]; simpl in Hlen; try lia.
    unfold Py.len. simpl. apply Z.ltb_ge. lia. }
  rewrite Hgo. unfold bind, connect, ask, ret. rewrite Hf.
  now rewrite collect_matches_candidates.
Qed.

(** C3: for a query of at least three characters, [search_kb_db] gives every
    stored row the score max(ratio(q, name), 0.8 ratio(q, implication),
    0.8 ratio(q, mitigation)) on the lowercased strings, plus 0.15 for each
    whitespace-separated token of q longer than three characters that occurs
    in the lowercased name, implication or mitigation, plus
    min(usage_count * 0.01, 0.1).  Its result is the first [top_n] elements
    of an arrangement of exactly the rows scoring above 0.2 in which no
    element scores below its successor. *)
Theorem search_scores_and_ranks (query : string) (top_n : Z) (w : world) :
  (3 <= String.length query)%nat -> faults w = [] -> 0 <= top_n ->
  exists result dropped,
    search_kb_db query top_n w = Done result w
    /\ Permutation (result ++ dropped) (candidates (Py.lower query) (db w))
    /\ Sorted not_below (result ++ dropped)
    /\ length result
       = Nat.min (Z.to_nat top_n) (length (candidates (Py.lower query) (db w))).
Proof.
  intros Hlen Hf Hn.
  set (sorted := sort_desc PrimFloat.ltb match_score (candidates (Py.lower query) (db w))).
  exists (take (Z.to_nat top_n) sorted), (drop (Z.to_nat top_n) sorted).
  split; [|split; [|split]].
  - rewrite (search_kb_db_runs query top_n w Hlen Hf). unfold py_take.
    destruct (Z.leb_spec 0 top_n); [reflexivity|lia].
  - rewrite take_drop. apply sort_desc_perm.
  - rewrite take_drop. apply (sort_desc_sorted PrimFloat.ltb match_score float_ltb_asym).
  - rewrite length_take. f_equal. apply Permutation_length, sort_desc_perm.
Qed.

End SearchProofs.

Lemma search_scores_and_ranks_witness :
  exists result dropped,
    search_kb_db (H := DifflibModel.lib) "SQL Injection" 5 (quiet_world sample_table)
    = Done result (quiet_world sample_table)
    /\ Permutation (result ++ dropped)
                   (candidates (H := DifflibModel.lib) (Py.lower "SQL Injection")
                               (db (quiet_world sample_table)))
    /\ Sorted not_below (result ++ dropped)
    /\ length result
       = Nat.min (Z.to_nat 5)
                 (length (candidates (H := DifflibModel.lib) (Py.lower "SQL Injection")
                                     (db (quiet_world sample_table)))).
Proof.
  apply (search_scores_and_ranks (H := DifflibModel.lib) "SQL Injection" 5
           (quiet_world sample_table)); [simpl; lia|reflexivity|lia].
Defined.

(** The stored name itself as query: similarity 1 and one keyword
    ("injection") found, no usage yet; the other entry passes the threshold
    on a weak similarity and its usage bonus, and comes second. *)
Example search_exact_name :
  search_kb_db (H := DifflibModel.lib) "SQL Injection" 5 (quiet_world sample_table)
  = Done [{| match_issue := "SQL Injection";
             match_implication := "Attackers can read the database";
             match_mitigation := "Use prepared statements";
             match_score := 1.15;
             match_usage_count := 0 |};
          {| match_issue := "Weak Password Policy";
             match_implication := "Accounts can be guessed";
             match_mitigation := "Enforce strong passwords";
             match_score := 0.28242424242424241;
             match_usage_count := 4 |}]
         (quiet_world sample_table).
Proof. vm_compute. reflexivity. Qed.

(** The score as the claim words it, on the same row: similarity 1, one
    token that counts, no use yet. *)
Example claimed_score_exact_name :
  claimed_score (H := DifflibModel.lib) "sql injection"
    (sample_row "SQL Injection" "Attackers can read the database"
                "Use prepared statements" 0)
  = 1.15%float
  /\ List.filter (counts (sample_row "SQL Injection" "Attackers can read the database"
                                     "Use prepared statements" 0))
                 (Py.split "sql injection")
     = ["injection"].
Proof. split; vm_compute; reflexivity. Qed.

(** Only the best match is kept when [top_n] is 1. *)
Example search_top_one :
  search_kb_db (H := DifflibModel.lib) "weak database password" 1
               (quiet_world sample_table)
  = Done [{| match_issue := "Weak Password Policy";
             match_implication := "Accounts can be guessed";
             match_mitigation := "Enforce strong passwords";
             match_score := 0.95904761904761915;
             match_usage_count := 4 |}]
         (quiet_world sample_table).
Proof. vm_compute. reflexivity. Qed.

(** * Further properties *)

(** ** Relations every operation keeps *)

Section Keeps.
Context `{JsonLib} `{Difflib}.
Variable R : kb_table -> kb_table -> Prop.
Hypothesis R_refl : forall t, R t t.
Hypothesis R_trans : forall t1 t2 t3, R t1 t2 -> R t2 t3 -> R t1 t3.
Hypothesis R_upsert : forall now name i m t, R t (sql_upsert now name i m t).
Hypothesis R_increment : forall name t, R t (sql_increment name t).

Lemma kept_still {A} (c : M A) : (forall w, db (world_of (c w)) = db w) -> keeps R c.
Proof. intros Hc w. rewrite Hc. apply R_refl. Qed.

Lemma kept_bind {A B} (c : M A) (k : A -> M B) :
  keeps R c -> (forall a, keeps R (k a)) -> keeps R (bind c k).
Proof.
  intros Hc Hk w. unfold bind. specialize (Hc w).
  destruct (c w) as [a w'|e w']; simpl in *; [|exact Hc].
  eapply R_trans; [exact Hc|apply Hk].
Qed.

Lemma kept_try {A} (c : M A) (handler : exn -> M A) :
  keeps R c -> (forall e, keeps R (handler e)) -> keeps R (try_except c handler).
Proof.
  intros Hc Hh w. unfold try_except. specialize (Hc w).
  destruct (c w) as [a w'|e w']; simpl in *; [exact Hc|].
  eapply R_trans; [exact Hc|apply Hh].
Qed.

Lemma kept_connect : keeps R connect.
Proof.
  apply kept_still. intros w. unfold connect.
  destruct (faults w) as [|[] fs]; reflexivity.
Qed.

Lemma kept_load : keeps R load_kb_from_db.
Proof.
  unfold load_kb_from_db. apply kept_bind; [now apply kept_still|].
  intros [kb|]; [now apply kept_still|].
  apply kept_bind; [|intros kb; now apply kept_still].
  unfold load_kb_from_db_body. apply kept_bind; [apply kept_connect|].
  intros []; now apply kept_still.
Qed.

Lemma kept_increment (name : string) (ss : session) :
  keeps R (increment_kb_usage name ss).
Proof.
  unfold increment_kb_usage. apply kept_bind; [now apply kept_still|]. intros _.
  destruct (decide _); [now apply kept_still|].
  apply kept_bind; [apply kept_connect|]. intros st.
  apply kept_bind; [|intros; now apply kept_still].
  destruct st; try (now apply kept_still). intros w. apply R_increment.
Qed.

Lemma kept_add (name : string) (impl mitg : json num) :
  keeps R (add_to_kb_db name impl mitg).
Proof.
  unfold add_to_kb_db. apply kept_bind; [apply kept_connect|]. intros st.
  apply kept_try; [|intros; now apply kept_still].
  destruct st, (sqlite_bind impl), (sqlite_bind mitg); try (now apply kept_still).
  apply kept_bind; [now apply kept_still|]. intros now.
  apply kept_bind; [|intros; now apply kept_still].
  intros w. apply R_upsert.
Qed.

Lemma kept_import_entries (entries : list (string * json num)) (count : Z) :
  keeps R (import_entries entries count).
Proof.
  revert count. induction entries as [|[name details] rest IH]; intros count; simpl.
  - now apply kept_still.
  - destruct details; try apply IH.
    destruct (truthy _ && truthy _); [|apply IH].
    apply kept_bind; [apply kept_add|intros ok; apply IH].
Qed.

Lemma kept_import (json_data : json num) : keeps R (import_kb_from_json json_data).
Proof.
  unfold import_kb_from_json. apply kept_try; [|intros; now apply kept_still].
  apply kept_bind.
  - destruct json_data; try (now apply kept_still).
    destruct (json_loads s); now apply kept_still.
  - intros data. destruct data; try (now apply kept_still).
    apply kept_import_entries.
Qed.

Lemma kept_search (query : string) (top_n : Z) : keeps R (search_kb_db query top_n).
Proof.
  unfold search_kb_db. destruct (negb _ || _); [now apply kept_still|].
  apply kept_bind; [apply kept_connect|]. intros []; now apply kept_still.
Qed.

Lemma kept_finding_pages (kb : kb_dict) (imgs : list (string * list string))
    (findings : list Finding.t) (doc : document) (ss : session) :
  keeps R (finding_pages kb imgs findings doc ss).
Proof.
  revert doc ss. induction findings as [|f rest IH]; intros doc ss; simpl.
  - now apply kept_still.
  - apply kept_bind; [|intros [page ss']; apply IH].
    unfold finding_page. apply kept_bind; [|intros [[i m] ss']; now apply kept_still].
    unfold resolve_texts. apply kept_bind; [|intros [[i m] ss']; now apply kept_still].
    destruct (negb _ || negb _); [|now apply kept_still].
    apply kept_bind.
    + unfold find_kb_key. destruct (Dict.mem _ kb).
      * apply kept_bind; [apply kept_increment|intros; now apply kept_still].
      * destruct (List.find _ _); [|now apply kept_still].
        apply kept_bind; [apply kept_increment|intros; now apply kept_still].
    + intros [[k|] ss']; [destruct (Py.nonempty k)|]; now apply kept_still.
Qed.

Lemma kept_generate_finding_pages (doc : document) (findings : list Finding.t)
    (inv : list (string * string)) (imgs : list (string * list string)) (ss : session) :
  keeps R (generate_finding_pages doc findings inv imgs ss).
Proof.
  unfold generate_finding_pages.
  apply kept_bind; [apply kept_load|intros kb; apply kept_finding_pages].
Qed.

Lemma kept_after (op : operation) (w : world) : R (db w) (db (after op w)).
Proof.
  destruct op; simpl.
  - apply kept_load.
  - apply kept_add.
  - apply kept_increment.
  - apply kept_search.
  - unfold export_kb_to_json.
    apply kept_bind; [apply kept_load|intros; now apply kept_still].
  - apply kept_import.
  - apply kept_generate_finding_pages.
  - unfold generate_report.
    apply kept_bind; [apply kept_generate_finding_pages|].
    intros [doc ss']. now apply kept_still.
Qed.

Lemma kept_stats : keeps R get_kb_stats.
Proof.
  unfold get_kb_stats. apply kept_bind; [apply kept_connect|].
  intros []; now apply kept_still.
Qed.

Lemma kept_insert (now : Z) (name i m : string) (t : kb_table) :
  R t (sql_insert_or_ignore now name i m t).
Proof.
  unfold sql_insert_or_ignore.
  destruct (existsb (has_issue name) t) eqn:E; [apply R_refl|].
  generalize (R_upsert now name i m t). unfold sql_upsert. now rewrite E.
Qed.

Lemma kept_init_entries (now : Z) (entries : list (string * json num))
    (t t' : kb_table) (n n' : Z) :
  init_entries now entries t n = Some (t', n') -> R t t'.
Proof.
  revert t n. induction entries as [|[name details] rest IH]; intros t n; simpl.
  - intros [= <- _]. apply R_refl.
  - destruct details; try apply IH.
    destruct (truthy _ && truthy _); [|apply IH].
    destruct (sqlite_value (details_get "implication" members)) as [i| |],
             (sqlite_value (details_get "mitigation" members)) as [m| |];
      try discriminate; try apply IH.
    intros Hrest. eapply R_trans; [apply kept_insert|eapply IH, Hrest].
Qed.

Lemma kept_init (kb_file : option string) (ss : session) :
  keeps R (init_database kb_file ss).
Proof.
  intros w. unfold init_database.
  destruct (decide _); [apply R_refl|].
  unfold bind, connect, ask, ret, update, raise.
  destruct (faults w) as [|[] fs]; simpl; try apply R_refl;
    (destruct (_ =? 0); [|apply R_refl]);
    (destruct kb_file as [text|]; [|apply R_refl]);
    (destruct (json_loads text) as [[| | | | |entries]|]; try apply R_refl);
    (destruct (init_entries _ entries _ 0) as [[t imported]|] eqn:E;
       [|apply R_refl]);
    simpl; eapply kept_init_entries, E.
Qed.

End Keeps.

(** ** Entries stay, names stay unique *)

Lemma extends_refl (t : kb_table) : extends t t.
Proof. exists []. now rewrite app_nil_r. Qed.

Lemma extends_trans (t1 t2 t3 : kb_table) :
  extends t1 t2 -> extends t2 t3 -> extends t1 t3.
Proof.
  intros [m1 H1] [m2 H2]. exists (m1 ++ m2). now rewrite H2, H1, app_assoc.
Qed.

Lemma map_names_same (g : kb_row -> kb_row) (t : kb_table) :
  (forall r, issue_name (g r) = issue_name r) ->
  map issue_name (map g t) = map issue_name t.
Proof. intros Hg. rewrite map_map. apply map_ext, Hg. Qed.

Lemma extends_upsert (now : Z) (name i m : string) (t : kb_table) :
  extends t (sql_upsert now name i m t).
Proof.
  unfold sql_upsert. destruct (existsb (has_issue name) t).
  - exists []. rewrite app_nil_r. apply map_names_same.
    intros r. destruct (has_issue name r); reflexivity.
  - exists [name]. now rewrite map_app.
Qed.

Lemma extends_increment (name : string) (t : kb_table) :
  extends t (sql_increment name t).
Proof.
  exists []. rewrite app_nil_r. apply map_names_same.
  intros r. destruct (has_issue name r); reflexivity.
Qed.

(** X1: no operation deletes or reorders an entry.  The issue names stored
    before a call are, in the same order, the first names stored after it,
    whether the call returns or raises; this holds for every operation of
    the knowledge base, for the statistics and for the first-start load. *)
Theorem entries_never_removed `{JsonLib} `{Difflib}
    (op : operation) (kb_file : option string) (ss : session) (w : world) :
  extends (db w) (db (after op w))
  /\ extends (db w) (db (world_of (init_database kb_file ss w)))
  /\ extends (db w) (db (world_of (get_kb_stats w))).
Proof.
  split; [|split].
  - apply (kept_after extends extends_refl extends_trans extends_upsert
                      extends_increment).
  - apply (kept_init extends extends_refl extends_trans extends_upsert).
  - apply (kept_stats extends extends_refl extends_trans).
Qed.

(** X2: the uniqueness of issue names is an invariant.  A table without two
    rows of the same issue name has none after any operation, returned or
    raised, nor after the first-start load. *)
Theorem names_stay_unique `{JsonLib} `{Difflib}
    (op : operation) (kb_file : option string) (ss : session) (w : world) :
  unique_names (db w) ->
  unique_names (db (after op w))
  /\ unique_names (db (world_of (init_database kb_file ss w))).
Proof.
  assert (Hrefl : forall t, stays_unique t t) by (intros t Ht; exact Ht).
  assert (Htrans : forall t1 t2 t3, stays_unique t1 t2 -> stays_unique t2 t3 ->
                                    stays_unique t1 t3)
    by (intros t1 t2 t3 H12 H23 Ht; apply H23, H12, Ht).
  assert (Hup : forall now name i m t, stays_unique t (sql_upsert now name i m t))
    by (intros now name i m t Ht; apply sql_upsert_unique, Ht).
  assert (Hinc : forall name t, stays_unique t (sql_increment name t))
    by (intros name t Ht; apply sql_increment_unique, Ht).
  intros Hw. split.
  - exact (kept_after stays_unique Hrefl Htrans Hup Hinc op w Hw).
  - exact (kept_init stays_unique Hrefl Htrans Hup kb_file ss w Hw).
Qed.

Lemma names_stay_unique_witness :
  unique_names (db (after (H := JsonModel.lib) (H0 := DifflibModel.lib)
                          (@Import JsonModel.lib sample_import)
                          (quiet_world sample_table)))
  /\ unique_names
       (db (world_of (init_database (H := JsonModel.lib)
                        (Some (JsonModel.dumps sample_export)) ∅
                        (quiet_world sample_table)))).
Proof.
  apply (names_stay_unique (H := JsonModel.lib) (H0 := DifflibModel.lib)).
  unfold unique_names. simpl. repeat constructor; simpl; intros Hin.
  - apply list_elem_of_singleton in Hin. discriminate.
  - inversion Hin.
Defined.

(** ** What saving does to counters and texts *)

Lemma find_none_existsb {A} (p : A -> bool) (l : list A) :
  List.find p l = None <-> existsb p l = false.
Proof.
  induction l as [|x l IH]; simpl; [tauto|].
  destruct (p x); simpl; [split; discriminate|exact IH].
Qed.

Lemma find_app_none {A} (p : A -> bool) (l l' : list A) :
  List.find p l = None -> List.find p (l ++ l') = List.find p l'.
Proof.
  induction l as [|y l IH]; simpl; [reflexivity|].
  destruct (p y); [discriminate|exact IH].
Qed.

Lemma find_upsert (now : Z) (name i m n : string) (t : kb_table) :
  List.find (has_issue n) (sql_upsert now name i m t)
  = match List.find (has_issue n) t with
    | Some r =>
        Some (if has_issue name r
              then {| issue_name := issue_name r; implication := i; mitigation := m;
                      created_at := created_at r; updated_at := now;
                      usage_count := usage_count r |}
              else r)
    | None =>
        if String.eqb name n
        then Some {| issue_name := name; implication := i; mitigation := m;
                     created_at := now; updated_at := now; usage_count := 0 |}
        else None
    end.
Proof.
  unfold sql_upsert. destruct (existsb (has_issue name) t) eqn:E.
  - rewrite find_map_rows by (intros r; destruct (has_issue name r); reflexivity).
    destruct (List.find (has_issue n) t) as [r|] eqn:F; [reflexivity|].
    destruct (String.eqb_spec name n) as [->|Hne]; [|reflexivity].
    apply find_none_existsb in F. congruence.
  - destruct (List.find (has_issue n) t) as [r|] eqn:F.
    + rewrite (find_app_some _ _ _ _ F).
      assert (Hr : has_issue name r = false); [|now rewrite Hr].
      apply find_some in F. destruct F as [Hin _].
      destruct (has_issue name r) eqn:Hr; [|reflexivity].
      assert (existsb (has_issue name) t = true); [|congruence].
      apply existsb_exists. eauto.
    + rewrite (find_app_none _ _ _ F). reflexivity.
Qed.

Lemma usage_of_upsert (now : Z) (name i m n : string) (t : kb_table) :
  usage_of n (sql_upsert now name i m t)
  = match usage_of n t with
    | Some u => Some u
    | None => if String.eqb name n then Some 0 else None
    end.
Proof.
  unfold usage_of. rewrite find_upsert.
  destruct (List.find (has_issue n) t) as [r|]; simpl.
  - destruct (has_issue name r); reflexivity.
  - destruct (String.eqb name n); reflexivity.
Qed.

Lemma texts_of_upsert (now : Z) (name i m n : string) (t : kb_table) :
  texts_of n (sql_upsert now name i m t)
  = if String.eqb name n then Some (i, m) else texts_of n t.
Proof.
  unfold texts_of. rewrite find_upsert.
  destruct (List.find (has_issue n) t) as [r|] eqn:F; simpl.
  - apply find_some in F. destruct F as [_ F]. unfold has_issue in *.
    apply String.eqb_eq in F. rewrite F, (String.eqb_sym n name).
    destruct (String.eqb name n); reflexivity.
  - destruct (String.eqb name n); reflexivity.
Qed.

Lemma same_counters_refl (t : kb_table) : same_counters t t.
Proof. intros name u Hu. exact Hu. Qed.

Lemma same_counters_trans (t1 t2 t3 : kb_table) :
  same_counters t1 t2 -> same_counters t2 t3 -> same_counters t1 t3.
Proof. intros H12 H23 name u Hu. apply H23, H12, Hu. Qed.

Lemma same_counters_upsert (now : Z) (name i m : string) (t : kb_table) :
  same_counters t (sql_upsert now name i m t).
Proof. intros n u Hu. now rewrite usage_of_upsert, Hu. Qed.

(** X3: saving an entry never touches a usage counter.  After
    [add_to_kb_db], [import_kb_from_json] or [init_database], returned or
    raised, every counter stored before has the value it had; and an entry
    that [add_to_kb_db] creates starts at 0. *)
Theorem saving_keeps_counters `{JsonLib} (w : world) :
  (forall name impl mitg,
      same_counters (db w) (db (world_of (add_to_kb_db name impl mitg w))))
  /\ (forall json_data,
         same_counters (db w) (db (world_of (import_kb_from_json json_data w))))
  /\ (forall kb_file ss,
         same_counters (db w) (db (world_of (init_database kb_file ss w))))
  /\ (forall name impl mitg w',
         add_to_kb_db name impl mitg w = Done true w' ->
         usage_of name (db w) = None -> usage_of name (db w') = Some 0).
Proof.
  split; [|split; [|split]].
  - intros name impl mitg.
    apply (kept_add same_counters same_counters_refl same_counters_trans
                    same_counters_upsert).
  - intros json_data.
    apply (kept_import same_counters same_counters_refl same_counters_trans
                       same_counters_upsert).
  - intros kb_file ss.
    apply (kept_init same_counters same_counters_refl same_counters_trans
                     same_counters_upsert).
  - intros name impl mitg w' Hadd Hnone.
    unfold add_to_kb_db, bind, try_except, connect, st_error, update, ret, ask, raise
      in Hadd.
    destruct (faults w) as [|[] fs]; try discriminate;
      destruct (sqlite_bind impl) as [i|]; try discriminate;
      destruct (sqlite_bind mitg) as [m|]; try discriminate;
      injection Hadd as <-; simpl;
      now rewrite usage_of_upsert, Hnone, String.eqb_refl.
Qed.

(** ** Statistics *)

Lemma get_kb_stats_ok (w : world) :
  faults w = [] ->
  get_kb_stats w
  = Done {| total := Z.of_nat (length (db w)); total_usage := sum_usage (db w) |} w.
Proof.
  intros Hf. unfold get_kb_stats, bind, connect, ask, ret. now rewrite Hf.
Qed.

Lemma sum_usage_app (t t' : kb_table) :
  sum_usage (t ++ t') = sum_usage t + sum_usage t'.
Proof. induction t as [|r t IH]; simpl; [reflexivity|]. rewrite IH. lia. Qed.

Lemma sum_usage_map (g : kb_row -> kb_row) (t : kb_table) :
  (forall r, usage_count (g r) = usage_count r) -> sum_usage (map g t) = sum_usage t.
Proof. intros Hg. induction t as [|r t IH]; simpl; [reflexivity|]. now rewrite IH, Hg. Qed.

Lemma sum_usage_upsert (now : Z) (name i m : string) (t : kb_table) :
  sum_usage (sql_upsert now name i m t) = sum_usage t.
Proof.
  unfold sql_upsert. destruct (existsb (has_issue name) t).
  - apply sum_usage_map. intros r. destruct (has_issue name r); reflexivity.
  - rewrite sum_usage_app. simpl. lia.
Qed.

Lemma length_upsert (now : Z) (name i m : string) (t : kb_table) :
  length (sql_upsert now name i m t)
  = if is_stored name t then length t else S (length t).
Proof.
  unfold sql_upsert, is_stored. destruct (existsb (has_issue name) t).
  - apply length_map.
  - rewrite length_app. simpl. lia.
Qed.

Lemma sum_usage_increment_absent (name : string) (t : kb_table) :
  is_stored name t = false -> sql_increment name t = t.
Proof.
  unfold is_stored, sql_increment. induction t as [|r t IH]; simpl; [reflexivity|].
  destruct (has_issue name r); simpl; [discriminate|].
  intros Ht. now rewrite IH.
Qed.

Lemma sum_usage_increment (name : string) (t : kb_table) :
  unique_names t ->
  sum_usage (sql_increment name t)
  = sum_usage t + (if is_stored name t then 1 else 0).
Proof.
  unfold unique_names, is_stored. induction t as [|r t IH]; simpl; intros Hnd;
    [reflexivity|].
  apply NoDup_cons in Hnd. destruct Hnd as [Hr Hnd].
  destruct (has_issue name r) eqn:E; simpl.
  - assert (Hrest : is_stored name t = false).
    { unfold has_issue in E. apply String.eqb_eq in E. subst name.
      apply existsb_has_issue. intros Hin. apply Hr, list_elem_of_In, Hin. }
    rewrite (sum_usage_increment_absent name t Hrest). lia.
  - fold (sql_increment name t). rewrite (IH Hnd). lia.
Qed.

(** X4: the statistics follow a save.  With no storage fault, a successful
    [add_to_kb_db] raises the number of entries by one when the issue name
    is new and leaves it alone when the name is stored already; the total
    usage is the same in both cases. *)
Theorem stats_after_upsert `{JsonLib} (name : string) (impl mitg : json num)
    (i m : string) (w : world) :
  faults w = [] -> sqlite_bind impl = Some i -> sqlite_bind mitg = Some m ->
  exists before afterwards w',
    (let* s0 := get_kb_stats in
     let* ok := add_to_kb_db name impl mitg in
     let* s1 := get_kb_stats in
     ret (s0, ok, s1)) w = Done (before, true, afterwards) w'
    /\ total afterwards = total before + (if is_stored name (db w) then 0 else 1)
    /\ total_usage afterwards = total_usage before.
Proof.
  intros Hf Hi Hm. eexists _, _, _. unfold bind at 1.
  rewrite (get_kb_stats_ok w Hf). unfold bind at 1.
  rewrite (add_to_kb_db_ok name impl mitg i m w Hf Hi Hm). unfold bind.
  rewrite get_kb_stats_ok by exact Hf. unfold ret.
  split; [reflexivity|]. simpl. split.
  - rewrite length_upsert. destruct (is_stored name (db w)); lia.
  - apply sum_usage_upsert.
Qed.

Lemma stats_after_upsert_witness :
  exists before afterwards w',
    (let* s0 := get_kb_stats in
     let* ok := add_to_kb_db (H := JsonModel.lib) "XSS" (JStr "Script runs")
                             (JStr "Encode output") in
     let* s1 := get_kb_stats in
     ret (s0, ok, s1)) (quiet_world sample_table) = Done (before, true, afterwards) w'
    /\ total afterwards
       = total before + (if is_stored "XSS" (db (quiet_world sample_table)) then 0 else 1)
    /\ total_usage afterwards = total_usage before.
Proof.
  apply (stats_after_upsert (H := JsonModel.lib) "XSS" (JStr "Script runs")
           (JStr "Encode output") "Script runs" "Encode output"
           (quiet_world sample_table)); reflexivity.
Defined.

(** X5: the statistics follow a credit.  With unique issue names and no
    storage fault, [increment_kb_usage] leaves the number of entries
    unchanged and raises the total usage by exactly one when the name is
    stored and the session has not credited it yet, by nothing otherwise;
    in particular a credit for a name that is not stored is lost, although
    the session remembers it. *)
Theorem stats_after_increment (name : string) (ss : session) (w : world) :
  faults w = [] -> unique_names (db w) ->
  exists before afterwards ss' w',
    (let* s0 := get_kb_stats in
     let* ss' := increment_kb_usage name ss in
     let* s1 := get_kb_stats in
     ret (s0, ss', s1)) w = Done (before, ss', afterwards) w'
    /\ session_key name ∈ ss'
    /\ total afterwards = total before
    /\ total_usage afterwards
       = total_usage before
         + (if decide (session_key name ∈ ss) then 0
            else if is_stored name (db w) then 1 else 0).
Proof.
  intros Hf Hu.
  destruct (decide (session_key name ∈ ss)) as [Hin|Hnot].
  - eexists _, _, _, _. unfold bind at 1.
    rewrite (get_kb_stats_ok w Hf). unfold bind at 1.
    rewrite (increment_again name ss w Hin). unfold bind.
    rewrite get_kb_stats_ok by exact Hf. unfold ret.
    split; [reflexivity|]. simpl. repeat split; [exact Hin|lia].
  - eexists _, _, _, _. unfold bind at 1.
    rewrite (get_kb_stats_ok w Hf). unfold bind at 1.
    rewrite (increment_fresh name ss w Hf Hnot). unfold bind.
    rewrite get_kb_stats_ok by exact Hf. unfold ret.
    split; [reflexivity|]. simpl. split; [set_solver|]. split.
    + unfold sql_increment. now rewrite length_map.
    + apply sum_usage_increment, Hu.
Qed.

Lemma stats_after_increment_witness :
  exists before afterwards ss' w',
    (let* s0 := get_kb_stats in
     let* ss' := increment_kb_usage "SQL Injection" ∅ in
     let* s1 := get_kb_stats in
     ret (s0, ss', s1)) (quiet_world sample_table) = Done (before, ss', afterwards) w'
    /\ session_key "SQL Injection" ∈ ss'
    /\ total afterwards = total before
    /\ total_usage afterwards
       = total_usage before
         + (if decide (session_key "SQL Injection" ∈ (∅ : session)) then 0
            else if is_stored "SQL Injection" (db (quiet_world sample_table))
                 then 1 else 0).
Proof.
  refine (stats_after_increment "SQL Injection" ∅ (quiet_world sample_table) _ _);
    [reflexivity|].
  unfold unique_names. simpl. repeat constructor; simpl; intros Hin.
  - apply list_elem_of_singleton in Hin. discriminate.
  - inversion Hin.
Defined.

Example stats_sample :
  get_kb_stats (quiet_world sample_table)
  = Done {| total := 2; total_usage := 4 |} (quiet_world sample_table)
  /\ get_kb_stats (quiet_world []) = Done {| total := 0; total_usage := 0 |} (quiet_world []).
Proof. split; reflexivity. Qed.

(** ** Reading order *)

Lemma kb_fold_unique (rows : kb_table) (acc : kb_dict) :
  NoDup (Dict.keys acc ++ map issue_name rows) ->
  fold_left (fun kb row => Dict.set (issue_name row) (implication row, mitigation row) kb)
            rows acc
  = acc ++ map entry_of_row rows.
Proof.
  revert acc. induction rows as [|r rows IH]; intros acc Hnd; simpl.
  - now rewrite app_nil_r.
  - rewrite dict_set_fresh.
    + rewrite IH; [now rewrite <- app_assoc|].
      unfold Dict.keys in *. rewrite map_app, <- app_assoc. exact Hnd.
    + intros Hin. apply NoDup_app in Hnd. destruct Hnd as (_ & Hdisj & _).
      apply (Hdisj (issue_name r)); [apply list_elem_of_In, Hin|]. simpl. left.
Qed.

Lemma kb_of_rows_unique (rows : kb_table) :
  unique_names rows -> kb_of_rows rows = map entry_of_row rows.
Proof. intros Hu. apply (kb_fold_unique rows []). exact Hu. Qed.

Lemma strongly_sorted_impl {A} (P Q : A -> A -> Prop) (l : list A) :
  (forall a b, P a b -> Q a b) -> StronglySorted P l -> StronglySorted Q l.
Proof.
  intros HPQ Hl. induction Hl as [|a l Hl IH Hall]; constructor; [exact IH|].
  eapply Forall_impl; [exact Hall|]. intros b. apply HPQ.
Qed.

Lemma select_by_usage_sorted (t : kb_table) :
  StronglySorted used_no_less (select_by_usage t).
Proof.
  apply (strongly_sorted_impl
           (fun a b => Z.ltb (usage_count a) (usage_count b) = false)).
  - intros a b Hab. unfold used_no_less. apply Z.ltb_ge in Hab. exact Hab.
  - apply Sorted_StronglySorted.
    + intros a b c Hab Hbc. apply Z.ltb_ge in Hab, Hbc. apply Z.ltb_ge. lia.
    + apply (sort_desc_sorted Z.ltb usage_count).
      intros x y Hxy. apply Z.ltb_lt in Hxy. apply Z.ltb_ge. lia.
Qed.

(** X6: [load_kb_from_db] lists the most used entries first.  On a read
    that reaches the database, with unique issue names, the mapping holds
    every row exactly once, as issue name, implication and mitigation, and
    no entry comes before one that is used more often. *)
Theorem load_orders_by_usage (w : world) :
  faults w = [] -> cache_lookup w = None -> unique_names (db w) ->
  exists rows w',
    load_kb_from_db w = Done (map entry_of_row rows) w'
    /\ Permutation rows (db w)
    /\ StronglySorted used_no_less rows.
Proof.
  intros Hf Hc Hu. exists (select_by_usage (db w)). eexists.
  split; [|split].
  - rewrite (load_kb_from_db_miss w Hf Hc). unfold stored_kb.
    rewrite kb_of_rows_unique; [reflexivity|].
    unfold unique_names, select_by_usage.
    rewrite (Permutation_map issue_name (sort_desc_perm Z.ltb usage_count (db w))).
    exact Hu.
  - apply sort_desc_perm.
  - apply select_by_usage_sorted.
Qed.

Lemma load_orders_by_usage_witness :
  exists rows w',
    load_kb_from_db (quiet_world sample_table) = Done (map entry_of_row rows) w'
    /\ Permutation rows (db (quiet_world sample_table))
    /\ StronglySorted used_no_less rows.
Proof.
  apply (load_orders_by_usage (quiet_world sample_table)); [reflexivity|reflexivity|].
  unfold unique_names. simpl. repeat constructor; simpl; intros Hin.
  - apply list_elem_of_singleton in Hin. discriminate.
  - inversion Hin.
Defined.

Example load_most_used_first :
  exists w',
    load_kb_from_db (quiet_world sample_table)
    = Done [("Weak Password Policy", ("Accounts can be guessed", "Enforce strong passwords"));
            ("SQL Injection", ("Attackers can read the database", "Use prepared statements"))]
           w'.
Proof. eexists. reflexivity. Qed.

(** ** Import into a store that is not empty *)

Lemma texts_of_store_all (now : Z) (rows : list (string * string * string))
    (t : kb_table) (name : string) :
  texts_of name (store_all now rows t)
  = match last_named name rows with
    | Some v => Some v
    | None => texts_of name t
    end.
Proof.
  revert t. induction rows as [|[[n i] m] rows IH]; intros t; [reflexivity|].
  change (store_all now ((n, i, m) :: rows) t)
    with (store_all now rows (sql_upsert now n i m t)).
  rewrite IH. cbn [last_named].
  destruct (last_named name rows); [reflexivity|].
  rewrite texts_of_upsert. destruct (String.eqb n name); reflexivity.
Qed.

Lemma usage_of_store_all (now : Z) (rows : list (string * string * string))
    (t : kb_table) :
  same_counters t (store_all now rows t).
Proof.
  revert t. induction rows as [|[[n i] m] rows IH]; intros t; [apply same_counters_refl|].
  change (store_all now ((n, i, m) :: rows) t)
    with (store_all now rows (sql_upsert now n i m t)).
  eapply same_counters_trans; [apply same_counters_upsert|apply IH].
Qed.

(** X7: an import merges into the store.  With no storage fault, after
    [import_kb_from_json] an issue name holds the texts of the (last) entry
    of that name in the input that is well formed and can be stored; a name
    without such an entry holds what it held before. *)
Theorem import_merges `{JsonLib} (entries : list (string * json num)) (w : world) :
  faults w = [] ->
  exists n w',
    import_kb_from_json (JObj entries) w = Done n w'
    /\ forall name,
        texts_of name (db w')
        = match last_named name (stored_of (upserts_of entries)) with
          | Some v => Some v
          | None => texts_of name (db w)
          end.
Proof.
  intros Hf.
  destruct (upsert_all_quiet (upserts_of entries) 0 w Hf) as (w' & Hrun & Hdb & _).
  eexists _, w'. split.
  - rewrite import_object. unfold try_except. rewrite Hrun. reflexivity.
  - intros name. rewrite Hdb. apply texts_of_store_all.
Qed.

Lemma import_merges_witness :
  exists n w',
    import_kb_from_json (H := JsonModel.lib)
      (JObj sample_merge)
      (quiet_world sample_table) = Done n w'
    /\ forall name,
        texts_of name (db w')
        = match last_named name
                  (stored_of (H := JsonModel.lib)
                     (upserts_of (H := JsonModel.lib) sample_merge))
          with
          | Some v => Some v
          | None => texts_of name (db (quiet_world sample_table))
          end.
Proof.
  apply (import_merges (H := JsonModel.lib)). reflexivity.
Defined.

Example import_merges_sample :
  exists w',
    import_kb_from_json (H := JsonModel.lib)
      (JObj sample_merge)
      (quiet_world sample_table) = Done 2 w'
    /\ map entry_of_row (db w')
       = [("SQL Injection", ("Data leaks", "Bind parameters"));
          ("Weak Password Policy", ("Accounts can be guessed", "Enforce strong passwords"));
          ("XSS", ("Script runs", "Encode output"))]
    /\ map usage_count (db w') = [0; 4; 0].
Proof. eexists. repeat split; reflexivity. Qed.

(** ** Import and first start: the two readings agree *)

Section ImportBridge.
Context `{JsonLib}.

Lemma member_get (key : string) (d : list (string * json num)) :
  member key d = Dict.get key d.
Proof.
  unfold member. induction d as [|[k v] d IH]; simpl; [reflexivity|].
  rewrite (String.eqb_sym k key). destruct (String.eqb key k); [reflexivity|exact IH].
Qed.

Lemma is_empty_truthy (v : json num) : is_empty v = negb (truthy v).
Proof. destruct v as [| | |s|items|members]; simpl; try reflexivity.
  - now destruct s.
  - now destruct items.
  - now destruct members.
Qed.

Lemma asks_upsert_of (entry : string * json num) : asks_upsert entry = upsert_of entry.
Proof.
  unfold asks_upsert, upsert_of, details_get. destruct (snd entry); try reflexivity.
  rewrite !member_get.
  destruct (Dict.get "implication" members) as [i|],
           (Dict.get "mitigation" members) as [m|];
    rewrite ?is_empty_truthy; cbn [truthy Py.nonempty andb];
    rewrite ?andb_false_r; try reflexivity.
  destruct (truthy i), (truthy m); reflexivity.
Qed.

Lemma has_texts_well_formed (entry : string * json num) :
  has_texts entry = well_formed entry.
Proof. unfold has_texts, well_formed. now rewrite asks_upsert_of. Qed.

Lemma sqlite_value_kept (v : json num) :
  sqlite_value v
  = match kept_text v with
    | Some s => BoundText s
    | None => if refused v then BindingError else BoundNull
    end.
Proof.
  destruct v as [|[]|n| | |]; simpl; try reflexivity.
  destruct (num_null n); [reflexivity|]. now destruct (num_bind n).
Qed.

Lemma kept_not_refused (v : json num) (s : string) :
  kept_text v = Some s -> refused v = false.
Proof.
  destruct v as [|[]|n| | |]; simpl; try discriminate; try reflexivity.
  destruct (num_null n); [discriminate|]. now destruct (num_bind n).
Qed.

Lemma sqlite_bind_kept (v : json num) : sqlite_bind v = kept_text v.
Proof.
  unfold sqlite_bind. rewrite sqlite_value_kept.
  destruct (kept_text v); [reflexivity|]. now destruct (refused v).
Qed.

Lemma stored_of_claimed (entries : list (string * json num)) :
  stored_of (upserts_of entries) = map flat (claimed_rows entries).
Proof.
  unfold stored_of, upserts_of, claimed_rows.
  induction entries as [|entry rest IH]; [reflexivity|].
  cbn [flat_map omap list_omap]. rewrite flat_map_app, IH. unfold claimed_row.
  rewrite asks_upsert_of. destruct (upsert_of entry) as [[[name impl] mitg]|];
    [|reflexivity].
  cbn [flat_map storable app]. rewrite !sqlite_bind_kept.
  destruct (kept_text impl), (kept_text mitg); reflexivity.
Qed.

Lemma upserts_of_has_texts (entries : list (string * json num)) :
  upserts_of (List.filter has_texts entries) = upserts_of entries.
Proof.
  rewrite (List.filter_ext _ _ has_texts_well_formed). apply upserts_of_well_formed.
Qed.

End ImportBridge.

Lemma last_named_of (name : string) (rows : list (string * (string * string))) :
  last_named name (map flat rows) = last_of name rows.
Proof.
  unfold last_of. induction rows as [|[n [i m]] rows IH]; [reflexivity|].
  cbn [map flat fst snd last_named rev]. rewrite IH.
  destruct (List.find (fun row => String.eqb (fst row) name) (rev rows)) as [row|] eqn:E.
  - now rewrite (find_app_some _ _ _ _ E).
  - rewrite (find_app_none _ _ _ E). cbn [List.find fst option_map].
    destruct (String.eqb n name); reflexivity.
Qed.

(** ** First start *)

Lemma texts_of_insert (now : Z) (name n i m : string) (t : kb_table) :
  texts_of name (sql_insert_or_ignore now n i m t)
  = match texts_of name t with
    | Some v => Some v
    | None => if String.eqb n name then Some (i, m) else None
    end.
Proof.
  unfold texts_of, sql_insert_or_ignore.
  destruct (existsb (has_issue n) t) eqn:E.
  - destruct (List.find (has_issue name) t) as [r|] eqn:F; [reflexivity|].
    cbn [option_map]. destruct (String.eqb_spec n name) as [->|]; [|reflexivity].
    apply find_none_existsb in F. congruence.
  - destruct (List.find (has_issue name) t) as [r|] eqn:F.
    + now rewrite (find_app_some _ _ _ _ F).
    + rewrite (find_app_none _ _ _ F). cbn [List.find has_issue issue_name].
      unfold has_issue. cbn [issue_name]. destruct (String.eqb n name); reflexivity.
Qed.

Lemma usage_of_insert (now : Z) (name n i m : string) (t : kb_table) :
  usage_of name (sql_insert_or_ignore now n i m t)
  = match usage_of name t with
    | Some u => Some u
    | None => if String.eqb n name then Some 0 else None
    end.
Proof.
  unfold usage_of, sql_insert_or_ignore.
  destruct (existsb (has_issue n) t) eqn:E.
  - destruct (List.find (has_issue name) t) as [r|] eqn:F; [reflexivity|].
    cbn [option_map]. destruct (String.eqb_spec n name) as [->|]; [|reflexivity].
    apply find_none_existsb in F. congruence.
  - destruct (List.find (has_issue name) t) as [r|] eqn:F.
    + now rewrite (find_app_some _ _ _ _ F).
    + rewrite (find_app_none _ _ _ F). cbn [List.find has_issue issue_name].
      unfold has_issue. cbn [issue_name]. destruct (String.eqb n name); reflexivity.
Qed.

Lemma unique_insert (now : Z) (n i m : string) (t : kb_table) :
  unique_names t -> unique_names (sql_insert_or_ignore now n i m t).
Proof.
  unfold sql_insert_or_ignore. destruct (existsb (has_issue n) t) eqn:E; [auto|].
  intros Ht. generalize (sql_upsert_unique now n i m t Ht).
  unfold sql_upsert. now rewrite E.
Qed.

Lemma texts_of_insert_all (now : Z) (rows : list (string * (string * string)))
    (t : kb_table) (name : string) :
  texts_of name (insert_all now (map flat rows) t)
  = match texts_of name t with
    | Some v => Some v
    | None => first_of name rows
    end.
Proof.
  unfold first_of. revert t. induction rows as [|[n [i m]] rows IH]; intros t.
  - simpl. now destruct (texts_of name t).
  - change (insert_all now (map flat ((n, (i, m)) :: rows)) t)
      with (insert_all now (map flat rows) (sql_insert_or_ignore now n i m t)).
    rewrite IH, texts_of_insert. cbn [List.find fst].
    destruct (texts_of name t); [reflexivity|].
    destruct (String.eqb n name); reflexivity.
Qed.

Lemma usage_of_insert_all (now : Z) (rows : list (string * (string * string)))
    (t : kb_table) (name : string) :
  usage_of name (insert_all now (map flat rows) t)
  = match usage_of name t with
    | Some u => Some u
    | None => option_map (fun _ => 0) (first_of name rows)
    end.
Proof.
  unfold first_of. revert t. induction rows as [|[n [i m]] rows IH]; intros t.
  - simpl. now destruct (usage_of name t).
  - change (insert_all now (map flat ((n, (i, m)) :: rows)) t)
      with (insert_all now (map flat rows) (sql_insert_or_ignore now n i m t)).
    rewrite IH, usage_of_insert. cbn [List.find fst].
    destruct (usage_of name t); [reflexivity|].
    destruct (String.eqb n name); reflexivity.
Qed.

Lemma unique_insert_all (now : Z) (rows : list (string * string * string))
    (t : kb_table) :
  unique_names t -> unique_names (insert_all now rows t).
Proof.
  revert t. induction rows as [|[[n i] m] rows IH]; intros t Ht; [exact Ht|].
  apply (IH (sql_insert_or_ignore now n i m t)). now apply unique_insert.
Qed.

Section InitProofs.
Context `{JsonLib}.

Lemma init_entries_runs (now : Z) (entries : list (string * json num))
    (t : kb_table) (n : Z) :
  init_entries now entries t n
  = if first_load_fails entries then None
    else Some (insert_all now (map flat (claimed_rows entries)) t,
               n + Z.of_nat (length (List.filter has_texts entries))).
Proof.
  revert t n. induction entries as [|[name details] rest IH]; intros t n.
  - simpl. now rewrite Z.add_0_r.
  - unfold first_load_fails, claimed_rows, has_texts in *.
    cbn [init_entries existsb List.filter omap list_omap]. unfold claimed_row.
    rewrite asks_upsert_of. unfold upsert_of. cbn [fst snd].
    destruct details as [| | | | |d]; try apply IH.
    destruct (truthy (details_get "implication" d)
              && truthy (details_get "mitigation" d)); [|apply IH].
    rewrite !sqlite_value_kept.
    destruct (kept_text (details_get "implication" d)) as [i|] eqn:Ei;
      [rewrite (kept_not_refused _ _ Ei)|];
      (destruct (kept_text (details_get "mitigation" d)) as [m|] eqn:Em;
       [rewrite (kept_not_refused _ _ Em)|]);
      try destruct (refused (details_get "implication" d));
      try destruct (refused (details_get "mitigation" d));
      cbn [orb]; try reflexivity; rewrite IH;
      destruct (existsb _ rest); try reflexivity;
      cbn [map flat fst snd length]; f_equal; f_equal; lia.
Qed.

Lemma init_entries_all (now : Z) (entries : list (string * json num))
    (rows : list (string * string * string)) (t : kb_table) (n : Z) :
  all_stored (upserts_of entries) = Some rows ->
  init_entries now entries t n
  = Some (insert_all now rows t, n + Z.of_nat (length rows)).
Proof.
  revert rows t n. induction entries as [|[name details] rest IH]; intros rows t n.
  - simpl. intros [= <-]. simpl. now rewrite Z.add_0_r.
  - unfold upserts_of. cbn [init_entries flat_map]. fold (upserts_of rest).
    unfold upsert_of. cbn [fst snd].
    destruct details as [| | | | |d]; try apply IH.
    destruct (truthy (details_get "implication" d)
              && truthy (details_get "mitigation" d)); [|apply IH].
    cbn [app all_stored storable]. unfold sqlite_bind.
    destruct (sqlite_value (details_get "implication" d)) as [i| |]; try discriminate.
    destruct (sqlite_value (details_get "mitigation" d)) as [m| |]; try discriminate.
    destruct (all_stored (upserts_of rest)) as [rows'|] eqn:E; [|discriminate].
    intros [= <-]. rewrite (IH rows' _ _ eq_refl).
    cbn [insert_all fold_left length]. f_equal. f_equal. lia.
Qed.

Lemma init_database_runs (kb_file : option string) (ss : session) (w : world) :
  faults w = [] -> db_initialized ∉ ss ->
  init_database kb_file ss w
  = match db w with
    | _ :: _ => Done (None, {[db_initialized]} ∪ ss) w
    | [] =>
        match kb_file with
        | None => Done (Some FileMissing, {[db_initialized]} ∪ ss) w
        | Some text =>
            match json_loads text with
            | Some (JObj entries) =>
                match init_entries (clock w) entries [] 0 with
                | Some (t, imported) =>
                    Done (Some (Imported imported), {[db_initialized]} ∪ ss) (with_db t w)
                | None => Done (Some LoadFailed, {[db_initialized]} ∪ ss) w
                end
            | _ => Done (Some LoadFailed, {[db_initialized]} ∪ ss) w
            end
        end
    end.
Proof.
  intros Hf Hss. unfold init_database.
  destruct (decide (db_initialized ∈ ss)); [contradiction|].
  unfold bind, connect, ask, ret, update. rewrite Hf.
  destruct (db w) as [|r t] eqn:Hdb; cbn [length];
    [change (Z.of_nat 0 =? 0) with true
    |change (Z.of_nat (S (length t)) =? 0) with false]; cbv beta iota;
    [|reflexivity].
  destruct kb_file as [text|]; [|reflexivity].
  destruct (json_loads text) as [[| | | | |entries]|]; try reflexivity.
  cbv beta iota. destruct (init_entries (clock w) entries [] 0) as [[t imported]|];
    reflexivity.
Qed.

(** X8: the first start on a file with a value that cannot be stored.  In
    a session that has not initialised yet and with no storage fault,
    [init_database] leaves a table that has rows untouched.  On an empty
    table, when the file is missing, does not parse, is no mapping, or an
    entry that asks to be stored brings a value SQLite refuses as a
    parameter, nothing at all is stored, also not the entries before it.
    Otherwise the table holds, under distinct names and with counter 0, the
    texts of the first entry of each name whose values are kept as text,
    and the number reported counts every entry that asked to be stored,
    also those skipped for a value bound as NULL.  In every case the
    session is marked as initialised. *)
Theorem init_database_first_start (kb_file : option string) (ss : session)
    (w : world) :
  faults w = [] -> db_initialized ∉ ss ->
  exists shown w',
    init_database kb_file ss w = Done (shown, {[db_initialized]} ∪ ss) w'
    /\ match db w with
       | _ :: _ => db w' = db w /\ shown = None
       | [] =>
           match kb_file with
           | None => db w' = [] /\ shown = Some FileMissing
           | Some text =>
               match json_loads text with
               | Some (JObj entries) =>
                   if first_load_fails entries
                   then db w' = [] /\ shown = Some LoadFailed
                   else
                     shown = Some (Imported
                               (Z.of_nat (length (List.filter has_texts entries))))
                     /\ unique_names (db w')
                     /\ (forall name,
                            texts_of name (db w')
                            = first_of name (claimed_rows entries))
                     /\ (forall name,
                            usage_of name (db w')
                            = option_map (fun _ => 0)
                                         (first_of name (claimed_rows entries)))
               | _ => db w' = [] /\ shown = Some LoadFailed
               end
           end
       end.
Proof.
  intros Hf Hss. rewrite (init_database_runs kb_file ss w Hf Hss).
  destruct (db w) as [|r t] eqn:Hdb; [|eexists _, _; split; [reflexivity|]; auto].
  destruct kb_file as [text|]; [|eexists _, _; split; [reflexivity|]; auto].
  destruct (json_loads text) as [[| | | | |entries]|];
    try (eexists _, _; split; [reflexivity|]; auto).
  rewrite init_entries_runs.
  destruct (first_load_fails entries);
    eexists _, _; (split; [reflexivity|]); [auto|].
  cbn [db with_db]. split; [reflexivity|]. split; [|split].
  - apply unique_insert_all. apply NoDup_nil_2.
  - intros name. now rewrite texts_of_insert_all.
  - intros name. now rewrite usage_of_insert_all.
Qed.

(** A value that is bound as NULL, as a NaN is: the row is left out, the
    row before it is stored, and the number shown counts both. *)
Lemma init_database_null_value (nan : num) (text : string) (ss : session) (w : world) :
  faults w = [] -> db w = [] -> db_initialized ∉ ss ->
  num_truthy nan = true -> num_null nan = true ->
  json_loads text
  = Some (JObj [("A", JObj [("implication", JStr "i"); ("mitigation", JStr "m")]);
                ("B", JObj [("implication", JNum nan); ("mitigation", JStr "m")])]) ->
  exists w',
    init_database (Some text) ss w
    = Done (Some (Imported 2), {[db_initialized]} ∪ ss) w'
    /\ map entry_of_row (db w') = [("A", ("i", "m"))].
Proof.
  intros Hf Hdb Hss Htrue Hnull Hparse.
  rewrite (init_database_runs (Some text) ss w Hf Hss), Hdb, Hparse.
  cbn [init_entries details_get Dict.get String.eqb Ascii.eqb Bool.eqb truthy
       Py.nonempty andb sqlite_value].
  rewrite Htrue, Hnull. cbn [andb init_entries].
  eexists. split; reflexivity.
Qed.

(** X9: the first-start load runs once per session.  Once [init_database]
    has returned in a session, every later call in that session returns at
    once: it shows nothing and changes nothing, whatever the file and the
    state of the storage. *)
Theorem init_database_once_per_session (kb_file : option string) (ss ss' : session)
    (shown : option notice) (w w' : world)
    (kb_file' : option string) (ss'' : session) (w'' : world) :
  init_database kb_file ss w = Done (shown, ss') w' ->
  ss' ⊆ ss'' ->
  init_database kb_file' ss'' w'' = Done (None, ss'') w''.
Proof.
  intros Hrun Hsub.
  assert (Hflag : db_initialized ∈ ss').
  { unfold init_database in Hrun.
    destruct (decide (db_initialized ∈ ss)) as [Hin|Hnot].
    - injection Hrun as _ <- _. exact Hin.
    - unfold bind, connect, ask, ret, update, raise in Hrun.
      destruct (faults w) as [|[] fs]; try discriminate;
        repeat match type of Hrun with
               | context [match ?x with _ => _ end] => destruct x
               | context [if ?b then _ else _] => destruct b
               end;
        try discriminate; injection Hrun as _ <- _; set_solver. }
  unfold init_database.
  destruct (decide (db_initialized ∈ ss'')) as [Hin|Hnot]; [reflexivity|].
  exfalso. apply Hnot. set_solver.
Qed.

End InitProofs.

Lemma init_database_first_start_witness :
  exists shown w',
    init_database (H := JsonModel.lib) (Some (JsonModel.dumps sample_export)) ∅
                  (quiet_world [])
    = Done (shown, {[db_initialized]} ∪ ∅) w'
    /\ match db (quiet_world []) with
       | _ :: _ => db w' = db (quiet_world []) /\ shown = None
       | [] =>
           match Some (JsonModel.dumps sample_export) with
           | None => db w' = [] /\ shown = Some FileMissing
           | Some text =>
               match json_loads (JsonLib := JsonModel.lib) text with
               | Some (JObj entries) =>
                   if first_load_fails (H := JsonModel.lib) entries
                   then db w' = [] /\ shown = Some LoadFailed
                   else
                     shown = Some (Imported
                               (Z.of_nat (length (List.filter
                                                    (has_texts (H := JsonModel.lib))
                                                    entries))))
                     /\ unique_names (db w')
                     /\ (forall name,
                            texts_of name (db w')
                            = first_of name (claimed_rows (H := JsonModel.lib) entries))
                     /\ (forall name,
                            usage_of name (db w')
                            = option_map (fun _ => 0)
                                (first_of name (claimed_rows (H := JsonModel.lib) entries)))
               | _ => db w' = [] /\ shown = Some LoadFailed
               end
           end
       end.
Proof.
  refine (init_database_first_start (H := JsonModel.lib)
            (Some (JsonModel.dumps sample_export)) ∅ (quiet_world []) _ _);
    [reflexivity|set_solver].
Defined.

(** The file of [sample_import] holds a list where a text belongs:
    nothing is stored, although two entries are fine. *)
Example init_database_one_bad_value :
  exists w',
    init_database (H := JsonModel.lib) (Some (JsonModel.dumps sample_import)) ∅
                  (quiet_world [])
    = Done (Some LoadFailed, {[db_initialized]} ∪ ∅) w'
    /\ db w' = [].
Proof. eexists. split; reflexivity. Qed.

Example init_database_loads :
  exists w',
    init_database (H := JsonModel.lib) (Some (JsonModel.dumps sample_export)) ∅
                  (quiet_world [])
    = Done (Some (Imported 2), {[db_initialized]} ∪ ∅) w'
    /\ map entry_of_row (db w')
       = [("XSS", ("Script runs", "Encode output"));
          ("CSRF", ("Forged request", "Use tokens"))].
Proof. eexists. split; reflexivity. Qed.

Lemma init_database_once_per_session_witness :
  init_database (H := JsonModel.lib) (Some (JsonModel.dumps sample_import))
                ({[db_initialized]} ∪ ∅) (quiet_world [])
  = Done (None, {[db_initialized]} ∪ ∅) (quiet_world []).
Proof.
  refine (init_database_once_per_session (H := JsonModel.lib)
            (Some (JsonModel.dumps sample_export)) ∅ _ _ (quiet_world []) _
            (Some (JsonModel.dumps sample_import)) ({[db_initialized]} ∪ ∅)
            (quiet_world []) _ _).
  - reflexivity.
  - reflexivity.
Defined.

Lemma insert_all_store_all (now : Z) (rows : list (string * string * string))
    (t : kb_table) :
  NoDup (map issue_name t ++ map row_name rows) ->
  insert_all now rows t = store_all now rows t.
Proof.
  revert t. induction rows as [|[[n i] m] rows IH]; intros t Hnd; [reflexivity|].
  unfold insert_all, store_all in *. cbn [fold_left].
  assert (Hfresh : existsb (has_issue n) t = false).
  { apply existsb_has_issue. intros Hin. apply NoDup_app in Hnd.
    destruct Hnd as (_ & Hdisj & _).
    apply (Hdisj n); [apply list_elem_of_In, Hin|]. simpl. left. }
  unfold sql_insert_or_ignore at 2. unfold sql_upsert at 2. rewrite Hfresh.
  apply IH. rewrite map_app, <- app_assoc. exact Hnd.
Qed.

Section InitImport.
Context `{JsonLib}.

Lemma all_stored_stored_of (calls : list (string * json num * json num))
    (rows : list (string * string * string)) :
  all_stored calls = Some rows -> stored_of calls = rows.
Proof.
  revert rows. induction calls as [|call calls IH]; intros rows; simpl.
  - now intros [= <-].
  - unfold stored_of in *. cbn [flat_map].
    destruct (storable call) as [row|]; [|discriminate].
    destruct (all_stored calls) as [rest|]; [|discriminate].
    intros [= <-]. simpl. f_equal. now apply IH.
Qed.

(** X10: the first-start load and a later import of the same file agree.
    When knowledge_base.json parses to a mapping whose well-formed entries
    can all be stored and have distinct issue names, [init_database] on an
    empty table and [import_kb_from_json] on an empty table leave the same
    table and report the same number. *)
Theorem init_database_like_import (text : string) (entries : list (string * json num))
    (rows : list (string * string * string)) (ss : session) (w : world) :
  faults w = [] -> db w = [] -> db_initialized ∉ ss ->
  json_loads text = Some (JObj entries) ->
  all_stored (upserts_of entries) = Some rows ->
  NoDup (map row_name rows) ->
  exists n ss' w1 w2,
    init_database (Some text) ss w = Done (Some (Imported n), ss') w1
    /\ import_kb_from_json (JStr text) w = Done n w2
    /\ db w1 = db w2.
Proof.
  intros Hf Hdb Hss Hparse Hall Hnd.
  pose proof (init_database_runs (Some text) ss w Hf Hss) as Hinit.
  rewrite Hdb, Hparse, (init_entries_all _ _ _ _ _ Hall) in Hinit.
  destruct (upsert_all_quiet (upserts_of entries) 0 w Hf) as (w2 & Hrun & Hdb2 & _).
  rewrite (all_stored_stored_of _ _ Hall) in Hrun, Hdb2.
  eexists _, _, _, w2. split; [exact Hinit|]. split.
  - rewrite import_text, Hparse, import_object. unfold try_except. rewrite Hrun.
    reflexivity.
  - cbn [db with_db]. rewrite Hdb2, Hdb. apply insert_all_store_all. exact Hnd.
Qed.

End InitImport.

Lemma init_database_like_import_witness :
  exists n ss' w1 w2,
    init_database (H := JsonModel.lib) (Some (JsonModel.dumps sample_export)) ∅
                  (quiet_world [])
    = Done (Some (Imported n), ss') w1
    /\ import_kb_from_json (H := JsonModel.lib) (JStr (JsonModel.dumps sample_export))
                           (quiet_world []) = Done n w2
    /\ db w1 = db w2.
Proof.
  refine (init_database_like_import (H := JsonModel.lib)
            (JsonModel.dumps sample_export)
            [("XSS", entry_of "Script runs" "Encode output");
             ("CSRF", entry_of "Forged request" "Use tokens")]
            [("XSS", "Script runs", "Encode output");
             ("CSRF", "Forged request", "Use tokens")]
            ∅ (quiet_world []) _ _ _ _ _ _);
    try reflexivity; [set_solver|].
  simpl. repeat constructor; simpl; intros Hin.
  - apply list_elem_of_singleton in Hin. discriminate.
  - inversion Hin.
Defined.

(** ** Search: ties *)

Section StableSort.
Context {A K : Type} (lt : K -> K -> bool) (key : A -> K) (p : A -> bool).
Hypothesis level : forall a b, p a = true -> p b = true -> lt (key a) (key b) = false.

Lemma insert_desc_filter (x : A) (l : list A) :
  List.filter p (insert_desc lt key x l) = List.filter p (x :: l).
Proof.
  induction l as [|y l IH]; [reflexivity|].
  cbn [insert_desc]. destruct (lt (key x) (key y)) eqn:E; [|reflexivity].
  cbn [List.filter] in *. rewrite IH.
  destruct (p x) eqn:Px, (p y) eqn:Py; try reflexivity.
  rewrite (level x y Px Py) in E. discriminate.
Qed.

Lemma sort_desc_filter (l : list A) :
  List.filter p (sort_desc lt key l) = List.filter p l.
Proof.
  induction l as [|x l IH]; [reflexivity|].
  cbn [sort_desc]. rewrite insert_desc_filter. cbn [List.filter]. now rewrite IH.
Qed.

End StableSort.

Lemma SFcompare_eq_level (a b v : spec_float) :
  SFcompare a v = Some Eq -> SFcompare b v = Some Eq -> SFcompare a b <> Some Lt.
Proof.
  assert (Hz : forall x y : Z, (x ?= y)%Z = Eq -> x = y) by (intros; now apply Z.compare_eq).
  assert (Hp : forall x y : positive, Pos.compare_cont Eq x y = Eq -> x = y)
    by (intros x y Hxy; now apply Pos.compare_eq).
  destruct a as [sa| sa| |sa ma ea], b as [sb| sb| |sb mb eb],
           v as [sv| sv| |sv mv ev]; simpl;
    try congruence;
    try (destruct sa; congruence); try (destruct sb; congruence);
    try (destruct sv; congruence);
    try (destruct sa, sv; congruence); try (destruct sb, sv; congruence);
    try (destruct sa, sb; congruence).
  destruct sa, sb, sv; try congruence;
    destruct (ea ?= ev)%Z eqn:Ea; try congruence;
    destruct (eb ?= ev)%Z eqn:Eb; try congruence;
    apply Hz in Ea, Eb; subst ea eb; rewrite Z.compare_refl;
    destruct (Pos.compare_cont Eq ma mv) eqn:Ma; simpl; try congruence;
    destruct (Pos.compare_cont Eq mb mv) eqn:Mb; simpl; try congruence;
    apply Hp in Ma, Mb; subst ma mb; rewrite Pos.compare_cont_refl; simpl; congruence.
Qed.

Lemma float_eqb_level (a b v : float) :
  PrimFloat.eqb a v = true -> PrimFloat.eqb b v = true -> PrimFloat.ltb a b = false.
Proof.
  rewrite !FloatAxioms.eqb_spec, FloatAxioms.ltb_spec. unfold SFeqb, SFltb. intros Ha Hb.
  destruct (SFcompare (Prim2SF a) (Prim2SF v)) as [[]|] eqn:Ea; try discriminate.
  destruct (SFcompare (Prim2SF b) (Prim2SF v)) as [[]|] eqn:Eb; try discriminate.
  pose proof (SFcompare_eq_level _ _ _ Ea Eb) as Hab.
  destruct (SFcompare (Prim2SF a) (Prim2SF b)) as [[]|]; congruence.
Qed.

(** X11: equal scores keep the order of the table.  For a query of at least
    three characters, [top_n >= 0] and no storage fault, the entries that
    [search_kb_db] ranks with one and the same score stand in the ranking in
    the order of their rows in the table. *)
Theorem search_ties_in_table_order `{Difflib} (query : string) (top_n : Z)
    (score : float) (w : world) :
  (3 <= String.length query)%nat -> faults w = [] -> 0 <= top_n ->
  exists result dropped,
    search_kb_db query top_n w = Done result w
    /\ Permutation (result ++ dropped) (candidates (Py.lower query) (db w))
    /\ List.filter (fun m => PrimFloat.eqb (match_score m) score) (result ++ dropped)
       = List.filter (fun m => PrimFloat.eqb (match_score m) score)
                     (candidates (Py.lower query) (db w)).
Proof.
  intros Hlen Hf Hn.
  set (ranking := sort_desc PrimFloat.ltb match_score (candidates (Py.lower query) (db w))).
  exists (take (Z.to_nat top_n) ranking), (drop (Z.to_nat top_n) ranking).
  split; [|split].
  - rewrite (search_kb_db_runs query top_n w Hlen Hf). unfold py_take.
    destruct (Z.leb_spec 0 top_n); [reflexivity|lia].
  - rewrite take_drop. apply sort_desc_perm.
  - rewrite take_drop. apply sort_desc_filter.
    intros a b Ha Hb. exact (float_eqb_level _ _ _ Ha Hb).
Qed.

Lemma search_ties_in_table_order_witness :
  exists result dropped,
    search_kb_db (H := DifflibModel.lib) "tls" 5 (quiet_world tied_table)
    = Done result (quiet_world tied_table)
    /\ Permutation (result ++ dropped)
                   (candidates (H := DifflibModel.lib) (Py.lower "tls")
                               (db (quiet_world tied_table)))
    /\ List.filter (fun m => PrimFloat.eqb (match_score m) 0.6) (result ++ dropped)
       = List.filter (fun m => PrimFloat.eqb (match_score m) 0.6)
                     (candidates (H := DifflibModel.lib) (Py.lower "tls")
                                 (db (quiet_world tied_table))).
Proof.
  apply (search_ties_in_table_order (H := DifflibModel.lib) "tls" 5 0.6
           (quiet_world tied_table)); [simpl; lia|reflexivity|lia].
Defined.

Example search_ties_sample :
  match search_kb_db (H := DifflibModel.lib) "tls" 5 (quiet_world tied_table) with
  | Done result _ => List.map match_issue result
  | Raised _ _ => []
  end = ["TLS"; "TLS 1.0"; "TLS 1.1"].
Proof. vm_compute. reflexivity. Qed.

(** ** Master table: findings without a known classification *)

Lemma filter_orb_perm {A} (p q : A -> bool) (l : list A) :
  (forall x, p x = true -> q x = true -> False) ->
  Permutation (List.filter (fun x => p x || q x) l) (List.filter p l ++ List.filter q l).
Proof.
  intros Hpq. induction l as [|x l IH]; simpl; [constructor|].
  destruct (p x) eqn:Px, (q x) eqn:Qx; simpl.
  - destruct (Hpq x Px Qx).
  - now constructor.
  - etransitivity; [apply perm_skip, IH|]. apply Permutation_middle.
  - exact IH.
Qed.

Lemma is_classified_one (c1 c2 : string) (f : Finding.t) :
  is_classified c1 f = true -> is_classified c2 f = true -> c1 = c2.
Proof.
  unfold is_classified. destruct (Finding.classification f) as [c|]; [|discriminate].
  intros H1 H2. apply String.eqb_eq in H1, H2. congruence.
Qed.

Lemma finding_rows_of_map (l : list Finding.t) :
  List.filter is_finding_row (map finding_row l) = map finding_row l.
Proof. induction l as [|f l IH]; simpl; [reflexivity|now rewrite IH]. Qed.

Lemma finding_rows_of_group (findings : list Finding.t) (c : string) :
  List.filter is_finding_row (group findings c)
  = map finding_row (List.filter (is_classified c) findings).
Proof.
  unfold group. destruct (List.filter (is_classified c) findings) as [|f l]; [reflexivity|].
  cbn [List.filter is_finding_row]. apply (finding_rows_of_map (f :: l)).
Qed.

(** X12: the master table lists the findings of the three known
    classifications and no others.  Its finding rows are, up to their order,
    the rows of the findings whose classification is one of the three group
    names; a finding with another classification, or with none, has no row. *)
Theorem master_table_known_only (findings : list Finding.t) :
  Permutation (List.filter is_finding_row (master_rows findings))
              (map finding_row (List.filter is_known findings)).
Proof.
  rewrite master_rows_groups. cbn [List.filter is_finding_row].
  unfold classifications. cbn [flat_map].
  rewrite app_nil_r, !List.filter_app, !finding_rows_of_group, <- !map_app.
  apply Permutation_map. symmetry.
  unfold is_known, classifications. cbn [existsb].
  etransitivity.
  { apply (filter_orb_perm
             (is_classified "Mobile Application Vulnerability")
             (fun f => is_classified "Server Vulnerabilities" f
                       || (is_classified "Web Vulnerabilities" f || false))).
    intros f H1 H2. apply orb_true_iff in H2 as [H2|H2].
    - discriminate (is_classified_one _ _ _ H1 H2).
    - rewrite orb_false_r in H2. discriminate (is_classified_one _ _ _ H1 H2). }
  apply Permutation_app_head.
  etransitivity.
  { apply (filter_orb_perm
             (is_classified "Server Vulnerabilities")
             (fun f => is_classified "Web Vulnerabilities" f || false)).
    intros f H1 H2. rewrite orb_false_r in H2.
    discriminate (is_classified_one _ _ _ H1 H2). }
  apply Permutation_app_head.
  erewrite List.filter_ext; [reflexivity|]. intros f. apply orb_false_r.
Qed.

Example master_table_skips_unknown :
  master_rows [Finding.Build_t (Some "1") (Some "Open port") (Some "Network Vulnerabilities")
                               None None None None None None []]
  = [HeaderRow].
Proof. reflexivity. Qed.

(** ** Imported addresses *)

Lemma unique_ips_loop_first (extracted : list ip_entry) (seen : gset string)
    (acc : list ip_entry) :
  unique_ips_loop extracted seen acc = acc ++ first_entries seen extracted.
Proof.
  revert seen acc. induction extracted as [|e rest IH]; intros seen acc; simpl.
  - now rewrite app_nil_r.
  - destruct (decide (fst e ∈ seen)); rewrite IH; [reflexivity|].
    now rewrite <- app_assoc.
Qed.

Lemma first_entries_unseen (seen : gset string) (l : list ip_entry) (ip : string) :
  ip ∈ seen -> ip ∉ map fst (first_entries seen l).
Proof.
  revert seen. induction l as [|e rest IH]; intros seen Hin; simpl.
  - apply not_elem_of_nil.
  - destruct (decide (fst e ∈ seen)) as [Hs|Hs]; [now apply IH|].
    simpl. apply not_elem_of_cons. split.
    + intros ->. contradiction.
    + apply IH. apply elem_of_union. now right.
Qed.

Lemma first_entries_nodup (seen : gset string) (l : list ip_entry) :
  NoDup (map fst (first_entries seen l)).
Proof.
  revert seen. induction l as [|e rest IH]; intros seen; simpl.
  - apply NoDup_nil_2.
  - destruct (decide (fst e ∈ seen)); [apply IH|].
    simpl. apply NoDup_cons_2; [|apply IH].
    apply first_entries_unseen. apply elem_of_union. left. now apply elem_of_singleton.
Qed.

Lemma first_entries_get (seen : gset string) (l : list ip_entry) (ip : string) :
  Dict.get ip (first_entries seen l)
  = if decide (ip ∈ seen) then None else Dict.get ip l.
Proof.
  revert seen. induction l as [|[k h] rest IH]; intros seen; simpl.
  - now destruct (decide (ip ∈ seen)).
  - destruct (decide (k ∈ seen)) as [Hk|Hk].
    + rewrite IH. destruct (decide (ip ∈ seen)) as [Hi|Hi]; [reflexivity|].
      destruct (String.eqb_spec ip k) as [->|]; [contradiction|reflexivity].
    + simpl. destruct (String.eqb_spec ip k) as [->|Hne].
      * now destruct (decide (k ∈ seen)).
      * rewrite IH.
        destruct (decide (ip ∈ seen)) as [Hi|Hi];
          destruct (decide (ip ∈ {[k]} ∪ seen)) as [Hu|Hu]; try reflexivity.
        -- exfalso. apply Hu. apply elem_of_union. now right.
        -- exfalso. apply elem_of_union in Hu as [Hu|Hu]; [|contradiction].
           apply elem_of_singleton in Hu. contradiction.
Qed.

Lemma first_entries_distinct (seen : gset string) (l : list ip_entry) :
  NoDup (map fst l) -> (forall ip, ip ∈ map fst l -> ip ∉ seen) ->
  first_entries seen l = l.
Proof.
  revert seen. induction l as [|e rest IH]; intros seen Hnd Hseen; simpl; [reflexivity|].
  simpl in Hnd. apply NoDup_cons in Hnd as [Hfresh Hnd].
  destruct (decide (fst e ∈ seen)) as [Hs|Hs].
  - exfalso. apply (Hseen (fst e)); [|exact Hs]. simpl. apply elem_of_cons. now left.
  - f_equal. apply IH; [exact Hnd|].
    intros ip Hip Hu. apply elem_of_union in Hu as [Hu|Hu].
    + apply elem_of_singleton in Hu. subst ip. contradiction.
    + apply (Hseen ip); [|exact Hu]. simpl. apply elem_of_cons. now right.
Qed.

(** X13: the first occurrence of an address wins.  After the import loop no
    address occurs twice, and every address of the extracted list is there
    with the host of its first occurrence; no other address is. *)
Theorem unique_ips_first_wins (extracted : list ip_entry) :
  NoDup (map fst (unique_ips extracted))
  /\ forall ip, Dict.get ip (unique_ips extracted) = Dict.get ip extracted.
Proof.
  unfold unique_ips. rewrite unique_ips_loop_first. simpl. split.
  - apply first_entries_nodup.
  - intros ip. rewrite first_entries_get.
    destruct (decide (ip ∈ (∅ : gset string))) as [Hin|]; [|reflexivity].
    now apply elem_of_empty in Hin.
Qed.

(** X14: a list whose addresses are distinct goes through the import
    unchanged, entries and order alike. *)
Theorem import_ips_keeps_distinct (ip_inventory extracted : list ip_entry) :
  extracted <> [] -> NoDup (map fst extracted) ->
  import_ips ip_inventory extracted = extracted.
Proof.
  intros Hne Hnd. unfold import_ips. destruct extracted as [|e rest]; [congruence|].
  unfold unique_ips. rewrite unique_ips_loop_first.
  change ([] ++ first_entries ∅ (e :: rest)) with (first_entries ∅ (e :: rest)).
  apply first_entries_distinct; [exact Hnd|].
  intros ip _. apply not_elem_of_empty.
Qed.

Lemma import_ips_keeps_distinct_witness :
  import_ips [("192.168.0.9", "old")] sample_addresses = sample_addresses.
Proof.
  apply import_ips_keeps_distinct; [discriminate|].
  unfold sample_addresses. simpl. apply NoDup_cons_2.
  - intros Hin. apply list_elem_of_singleton in Hin. discriminate.
  - apply NoDup_cons_2; [apply not_elem_of_nil|apply NoDup_nil_2].
Defined.

Example unique_ips_sample :
  unique_ips [("10.0.0.1", "web"); ("10.0.0.2", ""); ("10.0.0.1", "backup")]
  = [("10.0.0.1", "web"); ("10.0.0.2", "")].
Proof. reflexivity. Qed.

(** ** The checks before generating *)

Lemma check_findings_runs (idx : nat) (findings : list Finding.t)
    (state : bool * list problem) :
  check_findings idx findings state
  = (fst state && forallb completeb findings, snd state ++ problems_from idx findings).
Proof.
  revert idx state. induction findings as [|f rest IH]; intros idx [b ps]; simpl.
  - now rewrite andb_true_r, app_nil_r.
  - rewrite IH. unfold completeb, finding_problems.
    destruct (filled (Finding.number f)), (filled (Finding.issue f)); simpl;
      rewrite <- ?app_assoc, ?andb_false_r; reflexivity.
Qed.

Lemma problems_from_nil (idx : nat) (findings : list Finding.t) :
  problems_from idx findings = [] <-> forallb completeb findings = true.
Proof.
  revert idx. induction findings as [|f rest IH]; intros idx; simpl; [tauto|].
  unfold completeb at 1, finding_problems.
  destruct (filled (Finding.number f)), (filled (Finding.issue f)); simpl;
    try (split; discriminate).
  apply IH.
Qed.

Lemma forallb_complete (findings : list Finding.t) :
  forallb completeb findings = true <-> Forall complete findings.
Proof.
  rewrite forallb_forall, Forall_forall. unfold completeb, complete.
  split; intros Hall f Hin.
  - apply andb_true_iff. apply Hall. now apply list_elem_of_In.
  - apply andb_true_iff. apply Hall. now apply list_elem_of_In.
Qed.

Lemma problems_from_number (idx p : nat) (findings : list Finding.t) :
  In (NumberMissing p) (problems_from idx findings)
  <-> exists i f, findings !! i = Some f /\ p = (idx + i + 1)%nat
                  /\ filled (Finding.number f) = false.
Proof.
  revert idx. induction findings as [|f rest IH]; intros idx; simpl.
  - split; [tauto|]. intros (i & f & Hi & _). discriminate.
  - rewrite in_app_iff, IH. unfold finding_problems. split.
    + intros [Hin|(i & g & Hi & -> & Hg)].
      * exists 0%nat, f. destruct (filled (Finding.number f)) eqn:Ef,
          (filled (Finding.issue f)); simpl in Hin;
          repeat destruct Hin as [Hin|Hin]; try discriminate; try contradiction;
          injection Hin as <-; repeat split; lia.
      * exists (S i), g. repeat split; [exact Hi|lia|exact Hg].
    + intros ([|i] & g & Hi & -> & Hg).
      * left. injection Hi as <-. rewrite Hg. simpl. left. f_equal. lia.
      * right. exists i, g. repeat split; [exact Hi|lia|exact Hg].
Qed.

Lemma problems_from_issue (idx p : nat) (findings : list Finding.t) :
  In (IssueMissing p) (problems_from idx findings)
  <-> exists i f, findings !! i = Some f /\ p = (idx + i + 1)%nat
                  /\ filled (Finding.issue f) = false.
Proof.
  revert idx. induction findings as [|f rest IH]; intros idx; simpl.
  - split; [tauto|]. intros (i & f & Hi & _). discriminate.
  - rewrite in_app_iff, IH. unfold finding_problems. split.
    + intros [Hin|(i & g & Hi & -> & Hg)].
      * exists 0%nat, f. destruct (filled (Finding.number f)),
          (filled (Finding.issue f)) eqn:Ef; simpl in Hin;
          repeat destruct Hin as [Hin|Hin]; try discriminate; try contradiction;
          injection Hin as <-; repeat split; lia.
      * exists (S i), g. repeat split; [exact Hi|lia|exact Hg].
    + intros ([|i] & g & Hi & -> & Hg).
      * left. injection Hi as <-. rewrite Hg. apply in_app_iff. right.
        left. f_equal. lia.
      * right. exists i, g. repeat split; [exact Hi|lia|exact Hg].
Qed.

Lemma check_report_runs (app_name : string) (findings : list Finding.t) :
  check_report app_name findings
  = (Py.nonempty app_name && negb (Nat.eqb (length findings) 0)
       && forallb completeb findings,
     (if Py.nonempty app_name then [] else [NameRequired])
     ++ match findings with
        | [] => [FindingRequired]
        | _ :: _ => problems_from 0 findings
        end).
Proof.
  unfold check_report. destruct findings as [|f rest].
  - destruct (Py.nonempty app_name); reflexivity.
  - rewrite check_findings_runs. destruct (Py.nonempty app_name); reflexivity.
Qed.

(** X15: the report can be generated exactly when nothing is listed, and
    that is exactly when the application name is not empty, there is at
    least one finding, and every finding has a number and an issue. *)
Theorem check_report_ready (app_name : string) (findings : list Finding.t) :
  (fst (check_report app_name findings) = true
   <-> snd (check_report app_name findings) = [])
  /\ (fst (check_report app_name findings) = true
      <-> Py.nonempty app_name = true /\ findings <> [] /\ Forall complete findings).
Proof.
  rewrite check_report_runs. cbn [fst snd]. split.
  - destruct (Py.nonempty app_name); simpl.
    + destruct findings as [|f rest]; [split; discriminate|].
      cbn [length Nat.eqb negb andb]. symmetry. apply problems_from_nil.
    + split; discriminate.
  - rewrite <- forallb_complete.
    destruct (Py.nonempty app_name), findings as [|f rest]; simpl; split;
      try discriminate; try tauto;
      try (intros (? & ? & ?); congruence).
    intros Hc. repeat split; [discriminate|exact Hc].
Qed.

(** X16: the list names the incomplete findings by their position, counted
    from 1: a line for a missing number (a missing issue) at position [p]
    is shown exactly when the [p]-th finding has no number (no issue). *)
Theorem check_report_positions (app_name : string) (findings : list Finding.t)
    (p : nat) :
  (In (NumberMissing p) (snd (check_report app_name findings))
   <-> exists i f, p = S i /\ findings !! i = Some f
                   /\ filled (Finding.number f) = false)
  /\ (In (IssueMissing p) (snd (check_report app_name findings))
      <-> exists i f, p = S i /\ findings !! i = Some f
                      /\ filled (Finding.issue f) = false).
Proof.
  rewrite check_report_runs. cbn [snd]. rewrite !in_app_iff. split.
  - transitivity (In (NumberMissing p) (problems_from 0 findings)).
    + destruct (Py.nonempty app_name), findings as [|f rest]; simpl;
        intuition discriminate.
    + rewrite problems_from_number. split.
      * intros (i & f & Hi & -> & Hf). exists i, f. repeat split; [lia|exact Hi|exact Hf].
      * intros (i & f & -> & Hi & Hf). exists i, f. repeat split; [exact Hi|lia|exact Hf].
  - transitivity (In (IssueMissing p) (problems_from 0 findings)).
    + destruct (Py.nonempty app_name), findings as [|f rest]; simpl;
        intuition discriminate.
    + rewrite problems_from_issue. split.
      * intros (i & f & Hi & -> & Hf). exists i, f. repeat split; [lia|exact Hi|exact Hf].
      * intros (i & f & -> & Hi & Hf). exists i, f. repeat split; [exact Hi|lia|exact Hf].
Qed.

Example check_report_sample :
  check_report ""
    [Finding.Build_t (Some "1") (Some "") None None None None None None None [];
     Finding.Build_t None (Some "Open port") None None None None None None None []]
  = (false, [NameRequired; IssueMissing 1; NumberMissing 2]).
Proof. reflexivity. Qed.

(** ** Crediting during a report *)

Lemma session_key_inj (a b : string) : session_key a = session_key b -> a = b.
Proof. unfold session_key. simpl. intros Hab. now injection Hab. Qed.

Lemma usage_of_increment_any (name n : string) (t : kb_table) :
  usage_of n (sql_increment name t)
  = option_map (fun u => if String.eqb n name then u + 1 else u) (usage_of n t).
Proof.
  unfold usage_of, sql_increment.
  rewrite find_map_rows by (intros r; destruct (has_issue name r); reflexivity).
  destruct (List.find (has_issue n) t) as [r|] eqn:E; [|reflexivity].
  apply find_some in E. destruct E as [_ E]. unfold has_issue in *.
  apply String.eqb_eq in E. subst n. simpl.
  destruct (String.eqb (issue_name r) name); reflexivity.
Qed.

Lemma entries_increment (name : string) (t : kb_table) :
  map entry_of_row (sql_increment name t) = map entry_of_row t.
Proof.
  unfold sql_increment. rewrite map_map. apply map_ext.
  intros r. destruct (has_issue name r); reflexivity.
Qed.

Lemma newly_credited_same (ss : session) (name : string) :
  newly_credited ss ss name = false.
Proof. unfold newly_credited. apply bool_decide_eq_false. tauto. Qed.

Lemma credited_once_refl (ss : session) (t : kb_table) : credited_once ss t ss t.
Proof.
  split; [reflexivity|]. split; [reflexivity|]. intros name.
  rewrite newly_credited_same. now destruct (usage_of name t).
Qed.

Lemma newly_credited_trans (ss0 ss1 ss2 : session) (name : string) :
  ss0 ⊆ ss1 -> ss1 ⊆ ss2 ->
  newly_credited ss0 ss2 name
  = newly_credited ss0 ss1 name || newly_credited ss1 ss2 name
  /\ (newly_credited ss0 ss1 name = true -> newly_credited ss1 ss2 name = false).
Proof.
  intros H01 H12. unfold newly_credited.
  specialize (H01 (session_key name)). specialize (H12 (session_key name)).
  destruct (decide (session_key name ∈ ss0)) as [H0|H0];
    destruct (decide (session_key name ∈ ss1)) as [H1|H1];
    destruct (decide (session_key name ∈ ss2)) as [H2|H2];
    repeat match goal with
    | |- context [bool_decide ?P] =>
        first [rewrite (bool_decide_eq_true_2 P) by tauto
              |rewrite (bool_decide_eq_false_2 P) by tauto]
    end; simpl; try (split; [reflexivity|congruence]); exfalso; tauto.
Qed.

Lemma credited_once_trans (ss0 ss1 ss2 : session) (t0 t1 t2 : kb_table) :
  credited_once ss0 t0 ss1 t1 -> credited_once ss1 t1 ss2 t2 ->
  credited_once ss0 t0 ss2 t2.
Proof.
  intros (S01 & E01 & U01) (S12 & E12 & U12). split; [|split].
  - etransitivity; eassumption.
  - congruence.
  - intros name. rewrite U12, U01.
    destruct (newly_credited_trans ss0 ss1 ss2 name S01 S12) as [Hor Hex].
    rewrite Hor. destruct (usage_of name t0) as [u|]; [|reflexivity]. simpl.
    destruct (newly_credited ss0 ss1 name); simpl.
    + now rewrite Hex.
    + reflexivity.
Qed.

Lemma credits_ret {A} (sess : A -> session) (ss : session) (a : A) :
  sess a = ss -> credits sess ss (ret a).
Proof. intros <- w. apply credited_once_refl. Qed.

Lemma credits_bind {A B} (sessA : A -> session) (sessB : B -> session)
    (ss0 : session) (c : M A) (k : A -> M B) :
  credits sessA ss0 c -> (forall a, credits sessB (sessA a) (k a)) ->
  credits sessB ss0 (bind c k).
Proof.
  intros Hc Hk w. unfold bind. specialize (Hc w).
  destruct (c w) as [a w1|e w1]; [|exact Hc].
  specialize (Hk a w1). destruct (k a w1) as [b w2|e w2].
  - eapply credited_once_trans; eassumption.
  - destruct Hk as (ss & Hk). exists ss. eapply credited_once_trans; eassumption.
Qed.

Lemma credited_once_increment (name : string) (ss : session) (t : kb_table) :
  session_key name ∉ ss ->
  credited_once ss t ({[session_key name]} ∪ ss) (sql_increment name t).
Proof.
  intros Hnot. split; [apply union_subseteq_r|]. split; [apply entries_increment|].
  intros n. rewrite usage_of_increment_any.
  replace (newly_credited ss ({[session_key name]} ∪ ss) n) with (String.eqb n name);
    [reflexivity|].
  unfold newly_credited. symmetry. destruct (String.eqb_spec n name) as [->|Hne].
  - apply bool_decide_eq_true. split; [|exact Hnot].
    apply elem_of_union. left. now apply elem_of_singleton.
  - apply bool_decide_eq_false. intros [Hu Hn].
    apply elem_of_union in Hu as [Hu|Hu]; [|contradiction].
    apply elem_of_singleton in Hu. apply session_key_inj in Hu. contradiction.
Qed.

Lemma credits_increment (name : string) (ss : session) :
  credits (fun ss' => ss') ss (increment_kb_usage name ss).
Proof.
  intros w. unfold increment_kb_usage.
  destruct (decide (session_key name ∈ ss)) as [Hin|Hnot].
  - unfold bind, update, ret. cbn [db with_credit]. apply credited_once_refl.
  - unfold bind, update, connect. cbn [faults with_credit].
    destruct (faults w) as [|[] fs]; unfold execute, update, raise, ret;
      cbn [db with_faults with_db with_credit].
    + now apply credited_once_increment.
    + now apply credited_once_increment.
    + exists ss. apply credited_once_refl.
    + exists ss. apply credited_once_refl.
Qed.

Lemma credits_find_kb_key (kb : kb_dict) (issue : string) (ss : session) :
  credits snd ss (find_kb_key kb issue ss).
Proof.
  unfold find_kb_key. destruct (Dict.mem issue kb).
  - eapply credits_bind; [apply credits_increment|].
    intros ss'. now apply credits_ret.
  - destruct (List.find (loosely_matches issue) (Dict.keys kb)) as [k|].
    + eapply credits_bind; [apply credits_increment|].
      intros ss'. now apply credits_ret.
    + now apply credits_ret.
Qed.

Lemma credits_resolve_texts (kb : kb_dict) (f : Finding.t) (ss : session) :
  credits snd ss (resolve_texts kb f ss).
Proof.
  unfold resolve_texts.
  eapply (credits_bind snd); [|intros [[i m] ss']; now apply credits_ret].
  destruct (negb _ || negb _); [|now apply credits_ret].
  eapply (credits_bind snd); [apply credits_find_kb_key|].
  intros [[k|] ss']; [|now apply credits_ret].
  destruct (Py.nonempty k); now apply credits_ret.
Qed.

Lemma credits_finding_page (kb : kb_dict) (imgs : list (string * list string))
    (f : Finding.t) (ss : session) :
  credits snd ss (finding_page kb imgs f ss).
Proof.
  unfold finding_page.
  eapply (credits_bind snd); [apply credits_resolve_texts|].
  intros [[i m] ss']. now apply credits_ret.
Qed.

Lemma credits_finding_pages (kb : kb_dict) (imgs : list (string * list string))
    (findings : list Finding.t) (doc : document) (ss : session) :
  credits snd ss (finding_pages kb imgs findings doc ss).
Proof.
  revert doc ss. induction findings as [|f rest IH]; intros doc ss; simpl.
  - now apply credits_ret.
  - eapply (credits_bind snd); [apply credits_finding_page|].
    intros [page ss']. apply IH.
Qed.

Lemma load_kb_from_db_same_db (w : world) :
  db (world_of (load_kb_from_db w)) = db w.
Proof.
  unfold load_kb_from_db, load_kb_from_db_body, bind, ask, update, connect, ret, raise.
  destruct (cache_lookup w); [reflexivity|].
  destruct (faults w) as [|[] fs]; reflexivity.
Qed.

Lemma credits_generate_finding_pages (doc : document) (findings : list Finding.t)
    (inventory : list (string * string)) (imgs : list (string * list string))
    (ss : session) :
  credits snd ss (generate_finding_pages doc findings inventory imgs ss).
Proof.
  intros w. unfold generate_finding_pages, bind.
  pose proof (load_kb_from_db_same_db w) as Hdb.
  destruct (load_kb_from_db w) as [kb w1|e w1]; simpl in Hdb; rewrite <- Hdb.
  - apply credits_finding_pages.
  - exists ss. apply credited_once_refl.
Qed.

(** X17: one report credits an entry at most once.  Whatever the findings,
    and whether [generate_report] returns or raises, it leaves the names and
    texts of the table as they were and every counter either unchanged or
    one higher; when it returns, the counters one higher are exactly those
    of the names whose session key is new in the session it returns. *)
Theorem report_credits_once (data : report_data)
    (uploaded_images : list (string * list string)) (ss : session) (w : world) :
  match generate_report data uploaded_images ss w with
  | Done (_, _, ss') w' => credited_once ss (db w) ss' (db w')
  | Raised _ w' => exists ss', credited_once ss (db w) ss' (db w')
  end.
Proof.
  assert (Hc : credits snd ss (generate_report data uploaded_images ss)).
  { unfold generate_report. eapply (credits_bind snd).
    - apply credits_generate_finding_pages.
    - intros [doc ss']. now apply credits_ret. }
  specialize (Hc w).
  destruct (generate_report data uploaded_images ss w) as [[[doc name] ss'] w'|e w'];
    exact Hc.
Qed.

(** ** Picking a suggestion *)

Lemma index_of_entry (entry : kb_match) (entries : list kb_match) (first : kb_match) :
  List.find (same_preview entry) entries = Some first ->
  exists i, index_of (issue_preview (match_issue entry))
                     (map (fun e => issue_preview (match_issue e)) entries) = Some i
            /\ entries !! i = Some first.
Proof.
  induction entries as [|e rest IH]; simpl; [discriminate|].
  unfold same_preview at 1.
  destruct (String.eqb (issue_preview (match_issue e)) (issue_preview (match_issue entry))).
  - intros [= <-]. exists 0%nat. split; reflexivity.
  - intros Hfind. destruct (IH Hfind) as (i & Hi & Hget).
    exists (S i). rewrite Hi. split; [reflexivity|exact Hget].
Qed.

Lemma find_same_preview (entry : kb_match) (entries : list kb_match) (j : nat) :
  entries !! j = Some entry ->
  exists first, List.find (same_preview entry) entries = Some first.
Proof.
  intros Hj. destruct (List.find (same_preview entry) entries) as [first|] eqn:E; [eauto|].
  exfalso. assert (Hin : In entry entries).
  { apply list_elem_of_In. eapply list_elem_of_lookup_2. exact Hj. }
  pose proof (find_none _ _ E entry Hin) as Hsame.
  unfold same_preview in Hsame. rewrite String.eqb_refl in Hsame. discriminate.
Qed.

Lemma find_distinct_preview (entry : kb_match) (entries : list kb_match) (j : nat) :
  NoDup (map (fun e => issue_preview (match_issue e)) entries) ->
  entries !! j = Some entry ->
  List.find (same_preview entry) entries = Some entry.
Proof.
  revert j. induction entries as [|e rest IH]; intros j Hnd Hj; [discriminate|].
  simpl in Hnd. apply NoDup_cons in Hnd as [Hfresh Hnd]. simpl.
  destruct j as [|j]; simpl in Hj.
  - injection Hj as ->. unfold same_preview. now rewrite String.eqb_refl.
  - unfold same_preview at 1.
    destruct (String.eqb_spec (issue_preview (match_issue e))
                              (issue_preview (match_issue entry))) as [Heq|Hne].
    + exfalso. apply Hfresh. rewrite Heq.
      apply (list_elem_of_fmap_2 (fun e => issue_preview (match_issue e))).
      eapply list_elem_of_lookup_2. exact Hj.
    + eapply IH; eassumption.
Qed.

(** X18: picking a suggestion copies the first entry shown with that line.
    When the select box returns the line of an entry of the list, and that
    line is not the placeholder, the entry taken is the first one of the
    list with the same line; it is the entry picked whenever the lines of
    the list are pairwise distinct. *)
Theorem suggestion_takes_first_line (similar_entries : list kb_match) (j : nat)
    (entry : kb_match) :
  similar_entries !! j = Some entry ->
  issue_preview (match_issue entry) <> placeholder ->
  exists first,
    selected_entry similar_entries (issue_preview (match_issue entry)) = Selected first
    /\ List.find (same_preview entry) similar_entries = Some first
    /\ (NoDup (map (fun e => issue_preview (match_issue e)) similar_entries) ->
        first = entry).
Proof.
  intros Hj Hne.
  destruct (find_same_preview entry similar_entries j Hj) as (first & Hfind).
  exists first. split; [|split; [exact Hfind|]].
  - unfold selected_entry.
    destruct (String.eqb_spec (issue_preview (match_issue entry)) placeholder) as [Heq|_];
      [contradiction|].
    destruct (index_of_entry entry similar_entries first Hfind) as (i & Hi & Hget).
    unfold suggestion_options. cbn [index_of].
    destruct (String.eqb_spec placeholder (issue_preview (match_issue entry))) as [Heq|_];
      [congruence|].
    rewrite Hi. cbn [option_map]. unfold py_nth.
    replace (Z.of_nat (S i) - 1) with (Z.of_nat i) by lia.
    destruct (Z.leb_spec 0 (Z.of_nat i)); [|lia].
    rewrite Nat2Z.id, Hget. reflexivity.
  - intros Hnd. rewrite (find_distinct_preview entry similar_entries j Hnd Hj) in Hfind.
    congruence.
Qed.

Lemma suggestion_takes_first_line_witness :
  exists first,
    selected_entry sample_suggestions
                   (issue_preview (long_name "(reflected)")) = Selected first
    /\ List.find (same_preview {| match_issue := long_name "(reflected)";
                                  match_implication := "c"; match_mitigation := "d";
                                  match_score := 1; match_usage_count := 0 |})
                 sample_suggestions = Some first
    /\ (NoDup (map (fun e => issue_preview (match_issue e)) sample_suggestions) ->
        first = {| match_issue := long_name "(reflected)";
                   match_implication := "c"; match_mitigation := "d";
                   match_score := 1; match_usage_count := 0 |}).
Proof.
  apply (suggestion_takes_first_line sample_suggestions 1
           {| match_issue := long_name "(reflected)";
              match_implication := "c"; match_mitigation := "d";
              match_score := 1; match_usage_count := 0 |}).
  - reflexivity.
  - vm_compute. discriminate.
Defined.

Example suggestion_of_second_long_name :
  option_map match_issue
    (match selected_entry sample_suggestions (issue_preview (long_name "(reflected)")) with
     | Selected first => Some first
     | _ => None
     end)
  = Some (long_name "(stored)").
Proof. vm_compute. reflexivity. Qed.

(** ** Addresses from a CSV file *)

Lemma pick_columns_find (cols : list string) (ip_col host_col : option string) :
  pick_columns cols ip_col host_col
  = (match ip_col with Some _ => ip_col | None => List.find names_address cols end,
     match host_col with Some _ => host_col | None => List.find names_host cols end).
Proof.
  revert ip_col host_col. induction cols as [|col rest IH]; intros ip_col host_col.
  - simpl. now destruct ip_col, host_col.
  - cbn [pick_columns List.find]. rewrite IH.
    destruct ip_col, host_col, (names_address col), (names_host col); reflexivity.
Qed.

Lemma names_address_nonempty (col : string) :
  names_address col = true -> Py.nonempty col = true.
Proof. destruct col; [discriminate|reflexivity]. Qed.

Lemma names_host_nonempty (col : string) :
  names_host col = true -> Py.nonempty col = true.
Proof. destruct col; [discriminate|reflexivity]. Qed.

Lemma csv_rows_runs (ip_col : string) (host_col : option string) (rows : list csv_row)
    (ip_list : list ip_entry) :
  Py.nonempty ip_col = true ->
  csv_rows (Some ip_col) host_col rows ip_list
  = if forallb (Dict.mem ip_col) rows
    then Some (ip_list ++ omap (entry_of_record ip_col host_col) rows)
    else None.
Proof.
  intros Hc. revert ip_list. induction rows as [|row rest IH]; intros ip_list.
  - simpl. now rewrite app_nil_r.
  - cbn [csv_rows forallb chosen default from_option id]. rewrite Hc.
    unfold Dict.mem at 2. unfold entry_of_record at 1. cbn [omap list_omap].
    destruct (Dict.get ip_col row) as [raw|] eqn:Eraw; cbn [option_map andb];
      [|reflexivity].
    assert (Hhost :
      (if chosen host_col && Dict.mem (default "" host_col) row
       then option_map Py.strip (Dict.get (default "" host_col) row)
       else Some "")
      = Some match host_col with
             | Some h => match Dict.get h row with
                         | Some host => if Py.nonempty h then Py.strip host else ""
                         | None => ""
                         end
             | None => ""
             end).
    { destruct host_col as [h|]; [|reflexivity]. cbn [chosen default from_option id]. unfold Dict.mem.
      destruct (Py.nonempty h), (Dict.get h row); reflexivity. }
    rewrite Hhost. unfold is_address.
    destruct (Py.nonempty (Py.strip raw) && negb (String.eqb (Py.strip raw) "nan")).
    + rewrite IH. destruct (forallb (Dict.mem ip_col) rest); [|reflexivity].
      now rewrite <- app_assoc.
    + apply IH.
Qed.

Lemma names_address_mentions (col : string) : names_address col = mentions "ip" col.
Proof. unfold names_address, mentions. apply contains_substring_of. Qed.

Lemma names_host_mentions (col : string) :
  names_host col = mentions "host" col || mentions "name" col || mentions "server" col.
Proof.
  unfold names_host, mentions. cbn [existsb].
  rewrite !contains_substring_of, orb_false_r, orb_assoc. reflexivity.
Qed.

(** X19: the addresses come from the first column whose name, in lower
    case, contains "ip".  Without such a column nothing is extracted; with
    one, every row gives the stripped text of that column as address, unless
    it is empty or "nan", and as host name the stripped text of the first
    column whose name, in lower case, contains "host", "name" or "server",
    in the order of the rows. *)
Theorem csv_reads_first_ip_column (df : data_frame) :
  extract_ips_from_csv df
  = match List.find (mentions "ip") (columns df) with
    | Some ip_col =>
        if forallb (Dict.mem ip_col) (records df)
        then omap (entry_of_record ip_col
                     (List.find (fun col => mentions "host" col || mentions "name" col
                                            || mentions "server" col)
                                (columns df)))
                  (records df)
        else []
    | None => []
    end.
Proof.
  unfold extract_ips_from_csv. rewrite pick_columns_find.
  rewrite (find_same _ _ (columns df) names_address_mentions).
  rewrite (find_same _ _ (columns df) names_host_mentions).
  destruct (List.find (mentions "ip") (columns df)) as [ip_col|] eqn:E; [|reflexivity].
  apply find_some in E. destruct E as [_ E].
  rewrite <- names_address_mentions in E. apply names_address_nonempty in E.
  cbn [chosen]. rewrite E, (csv_rows_runs _ _ _ _ E).
  destruct (forallb (Dict.mem ip_col) (records df)); reflexivity.
Qed.

Example csv_description_column :
  extract_ips_from_csv sample_frame = [("mail relay", "mx1")].
Proof. reflexivity. Qed.

Lemma csv_rows_addresses (ip_col host_col : option string) (rows : list csv_row)
    (ip_list result : list ip_entry) :
  csv_rows ip_col host_col rows ip_list = Some result ->
  Forall (fun e => is_address (fst e) = true) ip_list ->
  Forall (fun e => is_address (fst e) = true) result.
Proof.
  revert ip_list. induction rows as [|row rest IH]; intros ip_list; cbn [csv_rows].
  - intros [= <-] Hall. exact Hall.
  - destruct (if chosen ip_col then _ else _) as [ip_addr|]; [|discriminate].
    destruct (if chosen host_col && _ then _ else _) as [hostname|]; [|discriminate].
    destruct (Py.nonempty ip_addr && negb (String.eqb ip_addr "nan")) eqn:Eaddr.
    + intros Hrun Hall. apply (IH _ Hrun). apply Forall_app. split; [exact Hall|].
      apply Forall_cons. split; [exact Eaddr|apply Forall_nil_2].
    + apply IH.
Qed.

Lemma extract_ips_from_csv_addresses (df : data_frame) :
  Forall (fun e => is_address (fst e) = true) (extract_ips_from_csv df).
Proof.
  unfold extract_ips_from_csv.
  destruct (pick_columns (columns df) None None) as [ip_col host_col].
  destruct (chosen ip_col); [|apply Forall_nil_2].
  destruct (csv_rows ip_col host_col (records df) []) as [l|] eqn:E; [|apply Forall_nil_2].
  apply (csv_rows_addresses _ _ _ _ _ E). apply Forall_nil_2.
Qed.

Lemma first_entries_elem (seen : gset string) (l : list ip_entry) (e : ip_entry) :
  e ∈ first_entries seen l -> e ∈ l.
Proof.
  revert seen. induction l as [|x rest IH]; intros seen; simpl; [tauto|].
  destruct (decide (fst x ∈ seen)).
  - intros Hin. apply elem_of_cons. right. eapply IH, Hin.
  - intros Hin. apply elem_of_cons in Hin as [->|Hin]; apply elem_of_cons; [now left|].
    right. eapply IH, Hin.
Qed.

Lemma first_entries_addresses (seen : gset string) (l : list ip_entry) (ip : string) :
  ip ∈ map fst (first_entries seen l) <-> ip ∈ map fst l /\ ip ∉ seen.
Proof.
  revert seen. induction l as [|x rest IH]; intros seen; simpl.
  - split; [intros Hin; now apply elem_of_nil in Hin|intros [Hin _]; exact Hin].
  - destruct (decide (fst x ∈ seen)) as [Hs|Hs]; simpl;
      rewrite ?elem_of_cons, IH, ?elem_of_cons, ?elem_of_union, ?elem_of_singleton.
    + split; [tauto|]. intros [[->|Hin] Hn]; [contradiction|tauto].
    + split.
      * intros [->|[Hin Hn]]; [tauto|]. split; [tauto|]. intros Hseen. apply Hn. tauto.
      * intros [[->|Hin] Hn]; [tauto|].
        destruct (decide (ip = fst x)) as [->|Hne]; [tauto|]. right. split; [exact Hin|].
        intros [Heq|Hseen]; [contradiction|contradiction].
Qed.

(** X20: what a CSV import assigns to the inventory.  When the file gives
    at least one entry, the list assigned to the inventory holds each
    extracted address exactly once, and none of its addresses is empty or
    "nan". *)
Theorem csv_import_assigned (ip_inventory : list ip_entry) (df : data_frame) :
  extract_ips_from_csv df <> [] ->
  NoDup (map fst (import_ips ip_inventory (extract_ips_from_csv df)))
  /\ (forall ip, ip ∈ map fst (import_ips ip_inventory (extract_ips_from_csv df))
                 <-> ip ∈ map fst (extract_ips_from_csv df))
  /\ (forall ip, ip ∈ map fst (import_ips ip_inventory (extract_ips_from_csv df)) ->
                 ip <> "" /\ ip <> "nan").
Proof.
  intros Hne. pose proof (extract_ips_from_csv_addresses df) as Haddr.
  unfold import_ips. destruct (extract_ips_from_csv df) as [|e rest]; [congruence|].
  unfold unique_ips. rewrite unique_ips_loop_first.
  change ([] ++ first_entries ∅ (e :: rest)) with (first_entries ∅ (e :: rest)).
  split; [apply first_entries_nodup|]. split.
  - intros ip. rewrite first_entries_addresses. split; [tauto|].
    intros Hin. split; [exact Hin|apply not_elem_of_empty].
  - intros ip Hin. apply first_entries_addresses in Hin as [Hin _].
    apply list_elem_of_fmap in Hin as (x & -> & Hx).
    rewrite Forall_forall in Haddr. specialize (Haddr x Hx).
    unfold is_address in Haddr. apply andb_true_iff in Haddr as [Hn Hnan].
    split.
    + intros Heq. rewrite Heq in Hn. discriminate.
    + intros Heq. rewrite Heq in Hnan. discriminate.
Qed.

Lemma csv_import_assigned_witness :
  NoDup (map fst (import_ips [("", "")] (extract_ips_from_csv sample_frame)))
  /\ (forall ip, ip ∈ map fst (import_ips [("", "")] (extract_ips_from_csv sample_frame))
                 <-> ip ∈ map fst (extract_ips_from_csv sample_frame))
  /\ (forall ip, ip ∈ map fst (import_ips [("", "")] (extract_ips_from_csv sample_frame)) ->
                 ip <> "" /\ ip <> "nan").
Proof. apply csv_import_assigned. vm_compute. discriminate. Defined.

(** ** Import: what is stored and what is counted *)

Section ImportProofs.
Context `{JsonLib}.

(** C7: with no storage fault, [import_kb_from_json] on a mapping returns
    the number of its entries whose value is a mapping with an implication
    and a mitigation, neither empty, that are kept as text.  Afterwards an
    issue name holds the texts of the last such entry of that name, and a
    name without one holds what it held before, so that these entries and
    no others are upserted.  Every other entry is skipped silently: the
    result and the world are the same as for the mapping without the
    entries of another shape. *)
Theorem import_upserts_well_formed (entries : list (string * json num)) (w : world) :
  faults w = [] ->
  exists w',
    import_kb_from_json (JObj entries) w
    = Done (Z.of_nat (length (claimed_rows entries))) w'
    /\ (forall name,
           texts_of name (db w')
           = match last_of name (claimed_rows entries) with
             | Some stored => Some stored
             | None => texts_of name (db w)
             end)
    /\ same_counters (db w) (db w')
    /\ import_kb_from_json (JObj (List.filter has_texts entries)) w
       = Done (Z.of_nat (length (claimed_rows entries))) w'.
Proof.
  intros Hf.
  destruct (upsert_all_quiet (upserts_of entries) 0 w Hf) as (w' & Hrun & Hdb & _).
  rewrite stored_of_claimed, length_map in Hrun. rewrite stored_of_claimed in Hdb.
  exists w'. split; [|split; [|split]].
  - rewrite import_object. unfold try_except. now rewrite Hrun.
  - intros name. rewrite Hdb, texts_of_store_all, last_named_of. reflexivity.
  - rewrite Hdb. apply usage_of_store_all.
  - rewrite import_object, upserts_of_has_texts. unfold try_except. now rewrite Hrun.
Qed.

End ImportProofs.

Lemma import_upserts_well_formed_witness :
  exists w',
    import_kb_from_json (H := JsonModel.lib) (JObj sample_import_entries)
                        (quiet_world sample_table)
    = Done (Z.of_nat (length (claimed_rows (H := JsonModel.lib) sample_import_entries))) w'
    /\ (forall name,
           texts_of name (db w')
           = match last_of name (claimed_rows (H := JsonModel.lib) sample_import_entries) with
             | Some stored => Some stored
             | None => texts_of name (db (quiet_world sample_table))
             end)
    /\ same_counters (db (quiet_world sample_table)) (db w')
    /\ import_kb_from_json (H := JsonModel.lib)
         (JObj (List.filter (has_texts (H := JsonModel.lib)) sample_import_entries))
         (quiet_world sample_table)
       = Done (Z.of_nat (length (claimed_rows (H := JsonModel.lib) sample_import_entries))) w'.
Proof.
  apply (import_upserts_well_formed (H := JsonModel.lib) sample_import_entries
           (quiet_world sample_table)).
  reflexivity.
Defined.
